(** * Rally racing management app: race simulation and settlement

    A shallow embedding of the race simulator ([simulate_time_minutes],
    streamlit_app.py) and of the settlement script behind the
    "Start race!" button (streamlit_app.py), together with the persistence
    helpers it calls ([record_transaction], [create_race],
    [insert_race_result], snowflake_utils.py), of the connection
    settings ([_get_snowflake_config], [get_connection]) and of the
    schema bootstrap ([init_database]).

    Modelling conventions.
    - A Python [float] is an exact rational ([Q]); rounding, infinities
      and NaN are not modelled.  Equalities between computed floats are
      therefore stated with [==] ([Qeq]).  Where rounding, overflow or
      underflow decide a statement, the simulator is taken a second time
      over IEEE 754 binary64 numbers (module [Binary64]).
    - A Python [int] is a [Z]; list indices and positions are [nat].
    - Python exceptions (ZeroDivisionError, KeyError, TypeError,
      IndexError, ValueError) are the [None] of the option monad; the
      properties show that the handler never raises one.  The calls to
      the database themselves are taken to succeed.  Where the code
      raises on purpose (connection settings, schema bootstrap) the
      exception is a value of [Exn].
    - The process-wide random generator is an explicit state: an infinite
      tape of raw [random.random()] outputs and a cursor.
    - The Snowflake tables are lists of rows, in insertion order. *)

From Stdlib Require Import QArith Qminmax Lqa ZArith String List Floats.
From stdpp Require Import base option list gmap sorting strings pretty.

Set Warnings "-inexact-float".
Open Scope Q_scope.

(** ** Python numeric primitives *)

Module Py.

(** [max(a, b)] keeps [a] unless [b > a]; [min(a, b)] keeps [a] unless
    [b < a]. *)
Definition max (a b : Q) : Q := if QMicromega.Qlt_bool a b then b else a.
Definition min (a b : Q) : Q := if QMicromega.Qlt_bool b a then b else a.

Definition maxZ (a b : Z) : Z := if (a <? b)%Z then b else a.
Definition minZ (a b : Z) : Z := if (b <? a)%Z then b else a.

(** [a / b] on floats raises ZeroDivisionError when [b] is zero. *)
Definition div (a b : Q) : option Q :=
  if Qeq_bool b 0 then None else Some (a / b).

(** [x or float("inf")] yields an extended number; [None] stands for
    [inf].  A falsy [x] ([None] or [0.0]) is replaced by [inf]. *)
Definition or_inf (x : option Q) : option Q :=
  match x with
  | Some t => if Qeq_bool t 0 then None else Some t
  | None => None
  end.

(** [a < b] on floats extended with [inf]. *)
Definition lt_inf (a b : option Q) : bool :=
  match a, b with
  | Some x, Some y => QMicromega.Qlt_bool x y
  | Some _, None => true
  | None, _ => false
  end.

End Py.

(** ** The random source *)

Record Rng := { tape : nat -> Q; cursor : nat }.

(** [random.random()] *)
Definition random (g : Rng) : Q * Rng :=
  (tape g (cursor g), {| tape := tape g; cursor := S (cursor g) |}).

(** [random.uniform(a, b)] is [a + (b - a) * random()]. *)
Definition uniform (a b : Q) (g : Rng) : Q * Rng :=
  let (u, g') := random g in (a + (b - a) * u, g').

(** Every raw draw lies in the half-open unit interval. *)
Definition unit_tape (g : Rng) : Prop :=
  forall n : nat, 0 <= tape g n /\ tape g n < 1.

(** ** Race simulator (streamlit_app.py, simulate_time_minutes) *)

(** (length_km, speed_factor, handling_factor) *)
Definition Segment : Type := Q * Q * Q.

Definition segments_of (distance_km : Q) (preset : string) : list Segment :=
  if String.eqb preset "Fast asphalt" then
    [(distance_km, 1.05, 1.0)]
  else if String.eqb preset "Gravel twisty" then
    [(distance_km * 0.6, 0.8, 0.9); (distance_km * 0.4, 0.7, 0.85)]
  else
    [(distance_km * 0.4, 0.95, 0.98);
     (distance_km * 0.3, 0.85, 0.92);
     (distance_km * 0.3, 0.75, 0.9)].

Definition handling_scale_of (handling : Z) : Q :=
  0.5 + inject_Z (Py.maxZ 50 (Py.minZ 100 handling) - 50) / 100.0.

Definition accel_scale_of (accel_0_100_s : Q) : Q :=
  Py.max 0.9 (Py.min 1.05 (1.0 + (6.0 - accel_0_100_s) * 0.02)).

Definition segment_speed_of
    (base_speed handling_scale accel_scale speed_factor handling_factor
     random_variation : Q) : Q :=
  Py.max 60.0
    (base_speed * handling_scale * accel_scale * speed_factor
     * handling_factor * random_variation).

(** The [for ... in segments] loop, threading [minutes] and the
    generator. *)
Fixpoint segments_loop (base_speed handling_scale accel_scale : Q)
    (segments : list Segment) (minutes : Q) (g : Rng) : option (Q * Rng) :=
  match segments with
  | [] => Some (minutes, g)
  | (length_km, speed_factor, handling_factor) :: rest =>
      let (random_variation, g1) := uniform 0.92 1.08 g in
      let segment_speed :=
        segment_speed_of base_speed handling_scale accel_scale
          speed_factor handling_factor random_variation in
      hours ← Py.div length_km segment_speed;
      segments_loop base_speed handling_scale accel_scale rest
        (minutes + hours * 60.0) g1
  end.

Definition finish_probability_of (reliability : Q) : Q :=
  Py.max 0.05 (Py.min 0.99 reliability).

Definition simulate_time_minutes
    (top_speed_kmh accel_0_100_s : Q) (handling : Z)
    (reliability distance_km : Q) (preset : string) (g : Rng)
    : option ((Q * bool) * Rng) :=
  let segments := segments_of distance_km preset in
  let base_speed := top_speed_kmh in
  let handling_scale := handling_scale_of handling in
  let accel_scale := accel_scale_of accel_0_100_s in
  '(minutes, g1) ← segments_loop base_speed handling_scale accel_scale
                     segments 0.0 g;
  let finish_probability := finish_probability_of reliability in
  let (u, g2) := random g1 in
  let dnf := QMicromega.Qlt_bool finish_probability u in
  if negb dnf then
    let (jitter, g3) := uniform 0.98 1.05 g2 in
    Some ((minutes * jitter, dnf), g3)
  else
    Some ((minutes, dnf), g2).

(** ** The simulator in binary64

    [simulate_time_minutes] once more, with a Python [float] as an
    IEEE 754 binary64 number (the primitive floats): every operation
    rounds to nearest, overflows to an infinity and underflows to zero
    as in the interpreter, and a decimal literal denotes the nearest
    binary64 number. *)

Module Binary64.

#[local] Open Scope float_scope.

(** [max(a, b)] keeps [a] unless [b > a]; [min(a, b)] keeps [a] unless
    [b < a]. *)
Definition max (a b : float) : float := if a <? b then b else a.
Definition min (a b : float) : float := if b <? a then b else a.

(** [a / b] raises ZeroDivisionError when [b] is [0.0] or [-0.0]. *)
Definition div (a b : float) : option float :=
  if b =? 0 then None else Some (a / b).

(** [float(n)] of an [int]; exact up to 2^53, which covers the clamped
    handling. *)
Fixpoint of_positive (p : positive) : float :=
  match p with
  | xH => 1
  | xO q => 2 * of_positive q
  | xI q => 2 * of_positive q + 1
  end.

Definition of_int (n : Z) : float :=
  match n with
  | Z0 => 0
  | Zpos p => of_positive p
  | Zneg p => - of_positive p
  end.

Record Rng := { tape : nat -> float; cursor : nat }.

(** [random.random()] *)
Definition random (g : Rng) : float * Rng :=
  (tape g (cursor g), {| tape := tape g; cursor := S (cursor g) |}).

(** [random.uniform(a, b)] is [a + (b - a) * random()]. *)
Definition uniform (a b : float) (g : Rng) : float * Rng :=
  let (u, g') := random g in (a + (b - a) * u, g').

(** (length_km, speed_factor, handling_factor) *)
Definition Segment : Type := float * float * float.

Definition segments_of (distance_km : float) (preset : string)
    : list Segment :=
  if String.eqb preset "Fast asphalt" then
    [(distance_km, 1.05, 1.0)]
  else if String.eqb preset "Gravel twisty" then
    [(distance_km * 0.6, 0.8, 0.9); (distance_km * 0.4, 0.7, 0.85)]
  else
    [(distance_km * 0.4, 0.95, 0.98);
     (distance_km * 0.3, 0.85, 0.92);
     (distance_km * 0.3, 0.75, 0.9)].

Definition handling_scale_of (handling : Z) : float :=
  0.5 + of_int (Py.maxZ 50 (Py.minZ 100 handling) - 50) / 100.0.

Definition accel_scale_of (accel_0_100_s : float) : float :=
  max 0.9 (min 1.05 (1.0 + (6.0 - accel_0_100_s) * 0.02)).

Definition segment_speed_of
    (base_speed handling_scale accel_scale speed_factor handling_factor
     random_variation : float) : float :=
  max 60.0
    (base_speed * handling_scale * accel_scale * speed_factor
     * handling_factor * random_variation).

Fixpoint segments_loop (base_speed handling_scale accel_scale : float)
    (segments : list Segment) (minutes : float) (g : Rng)
    : option (float * Rng) :=
  match segments with
  | [] => Some (minutes, g)
  | (length_km, speed_factor, handling_factor) :: rest =>
      let (random_variation, g1) := uniform 0.92 1.08 g in
      let segment_speed :=
        segment_speed_of base_speed handling_scale accel_scale
          speed_factor handling_factor random_variation in
      hours ← div length_km segment_speed;
      segments_loop base_speed handling_scale accel_scale rest
        (minutes + hours * 60.0) g1
  end.

Definition finish_probability_of (reliability : float) : float :=
  max 0.05 (min 0.99 reliability).

Definition simulate_time_minutes
    (top_speed_kmh accel_0_100_s : float) (handling : Z)
    (reliability distance_km : float) (preset : string) (g : Rng)
    : option ((float * bool) * Rng) :=
  let segments := segments_of distance_km preset in
  let base_speed := top_speed_kmh in
  let handling_scale := handling_scale_of handling in
  let accel_scale := accel_scale_of accel_0_100_s in
  '(minutes, g1) ← segments_loop base_speed handling_scale accel_scale
                     segments 0.0 g;
  let finish_probability := finish_probability_of reliability in
  let (u, g2) := random g1 in
  let dnf := finish_probability <? u in
  if negb dnf then
    let (jitter, g3) := uniform 0.98 1.05 g2 in
    Some ((minutes * jitter, dnf), g3)
  else
    Some ((minutes, dnf), g2).

End Binary64.

(** ** Persistence (snowflake_utils.py) *)

Record TeamRow := {
  TEAM_ID : Z;
  TEAM_NAME : string;
  MEMBERS : string;
  BUDGET : option Q;                     (* NULL is [None] *)
}.

Record TransactionRow := {
  tx_TEAM_ID : Z;
  tx_RACE_ID : option Z;
  tx_AMOUNT : Q;
  tx_CURRENCY : string;
  tx_REASON : string;
}.

Record RaceRow := {
  RACE_ID : option Z;
  RACE_NAME : string;
  DISTANCE_KM : Q;
  ENTRY_FEE : Q;
  PRIZE_FIRST : Q;
  PRIZE_SECOND : Q;
  PRIZE_THIRD : Q;
}.

Record RaceResultRow := {
  rr_RACE_ID : Z;
  rr_CAR_ID : Z;
  rr_TEAM_ID : Z;
  FINISH_TIME_MINUTES : option Q;
  STATUS : string;
  POSITION : option Z;
}.

(** The tables written by the race: CORE.TEAMS, OPS.TRANSACTIONS,
    OPS.RACES and OPS.RACE_RESULTS. *)
Record Store := {
  TEAMS : list TeamRow;
  TRANSACTIONS : list TransactionRow;
  RACES : list RaceRow;
  RACE_RESULTS : list RaceResultRow;
}.

(** [COALESCE(BUDGET, 0)] *)
Definition coalesce0 (b : option Q) : Q := default 0 b.

(** [UPDATE CORE.TEAMS SET BUDGET = COALESCE(BUDGET, 0) + amount
     WHERE TEAM_ID = team_id], row by row. *)
Definition update_budget (team_id : Z) (amount : Q) (t : TeamRow) : TeamRow :=
  if (TEAM_ID t =? team_id)%Z then
    {| TEAM_ID := TEAM_ID t; TEAM_NAME := TEAM_NAME t; MEMBERS := MEMBERS t;
       BUDGET := Some (coalesce0 (BUDGET t) + amount) |}
  else t.

Definition record_transaction (team_id : Z) (race_id : option Z) (amount : Q)
    (reason : string) (currency : string) (s : Store) : Store :=
  let s1 :=
    {| TEAMS := TEAMS s;
       TRANSACTIONS := TRANSACTIONS s ++
         [{| tx_TEAM_ID := team_id; tx_RACE_ID := race_id;
             tx_AMOUNT := amount; tx_CURRENCY := currency;
             tx_REASON := reason |}];
       RACES := RACES s;
       RACE_RESULTS := RACE_RESULTS s |} in
  {| TEAMS := map (update_budget team_id amount) (TEAMS s1);
     TRANSACTIONS := TRANSACTIONS s1;
     RACES := RACES s1;
     RACE_RESULTS := RACE_RESULTS s1 |}.

Definition insert_race_result (race_id car_id team_id : Z)
    (finish_time_minutes : option Q) (status : string) (position : option Z)
    (s : Store) : Store :=
  {| TEAMS := TEAMS s;
     TRANSACTIONS := TRANSACTIONS s;
     RACES := RACES s;
     RACE_RESULTS := RACE_RESULTS s ++
       [{| rr_RACE_ID := race_id; rr_CAR_ID := car_id; rr_TEAM_ID := team_id;
           FINISH_TIME_MINUTES := finish_time_minutes; STATUS := status;
           POSITION := position |}] |}.

(** [SELECT MAX(RACE_ID)]: NULL on an empty table or when every id is
    NULL. *)
Definition max_race_id (races : list RaceRow) : option Z :=
  foldl (fun acc r =>
           match acc, RACE_ID r with
           | Some a, Some b => Some (Z.max a b)
           | None, b => b
           | a, None => a
           end) None races.

Section Persistence.

(** The INSERT of [create_race] does not give RACE_ID: the column is
    filled by the table's default, declared in bootstrap.sql.  The value
    the schema gives a new row is a parameter. *)
Variable default_race_id : list RaceRow -> option Z.

Definition create_race (race_name : string)
    (distance_km entry_fee prize_first prize_second prize_third : Q)
    (s : Store) : Z * Store :=
  let s1 :=
    {| TEAMS := TEAMS s;
       TRANSACTIONS := TRANSACTIONS s;
       RACES := RACES s ++
         [{| RACE_ID := default_race_id (RACES s); RACE_NAME := race_name;
             DISTANCE_KM := distance_km; ENTRY_FEE := entry_fee;
             PRIZE_FIRST := prize_first; PRIZE_SECOND := prize_second;
             PRIZE_THIRD := prize_third |}];
       RACE_RESULTS := RACE_RESULTS s |} in
  (default 0%Z (max_race_id (RACES s1)), s1).

End Persistence.

(** ** Settlement (streamlit_app.py, the "Start race!" handler) *)

(** A row of [get_cars_with_teams_df]. *)
Record Car := {
  c_CAR_ID : Z;
  c_CAR_NAME : string;
  c_TEAM_ID : Z;
  c_TEAM_NAME : string;
  TOP_SPEED_KMH : Q;
  ACCELERATION_0_100_S : Q;
  HANDLING : Z;
  RELIABILITY : Q;
}.

(** One dict of [results].  The key "POSITION" is absent at first
    ([None]); once set it holds [None] or a rank. *)
Record ResultDict := {
  d_CAR_ID : Z;
  d_CAR_NAME : string;
  d_TEAM_ID : Z;
  d_TEAM_NAME : string;
  TIME_MIN : option Q;
  DNF : bool;
  d_POSITION : option (option nat);
}.

Definition set_DNF (v : bool) (r : ResultDict) : ResultDict :=
  {| d_CAR_ID := d_CAR_ID r; d_CAR_NAME := d_CAR_NAME r;
     d_TEAM_ID := d_TEAM_ID r; d_TEAM_NAME := d_TEAM_NAME r;
     TIME_MIN := TIME_MIN r; DNF := v; d_POSITION := d_POSITION r |}.

Definition set_TIME_MIN (v : option Q) (r : ResultDict) : ResultDict :=
  {| d_CAR_ID := d_CAR_ID r; d_CAR_NAME := d_CAR_NAME r;
     d_TEAM_ID := d_TEAM_ID r; d_TEAM_NAME := d_TEAM_NAME r;
     TIME_MIN := v; DNF := DNF r; d_POSITION := d_POSITION r |}.

Definition set_POSITION (v : option nat) (r : ResultDict) : ResultDict :=
  {| d_CAR_ID := d_CAR_ID r; d_CAR_NAME := d_CAR_NAME r;
     d_TEAM_ID := d_TEAM_ID r; d_TEAM_NAME := d_TEAM_NAME r;
     TIME_MIN := TIME_MIN r; DNF := DNF r; d_POSITION := Some v |}.

(** [sorted(list({int(tid) for tid in ...}))] *)
Definition participating_team_ids_of (cars_df : list Car) : list Z :=
  merge_sort Z.le (elements (list_to_set (map c_TEAM_ID cars_df) : gset Z)).

Definition entry_fee_reason (race_name : string) : string :=
  "Entry fee for " ++ race_name.

Definition collect_entry_fees (race_id : Z) (entry_fee : Q)
    (race_name : string) (team_ids : list Z) (s : Store) : Store :=
  foldl (fun s team_id =>
           record_transaction team_id (Some race_id) (- entry_fee)
             (entry_fee_reason race_name) "USD" s)
        s team_ids.

(** The [for _, row in cars_df.iterrows()] loop. *)
Fixpoint collect_results (distance_km : Q) (track_preset : string)
    (cars : list Car) (results : list ResultDict) (g : Rng)
    : option (list ResultDict * Rng) :=
  match cars with
  | [] => Some (results, g)
  | row :: rest =>
      '((mins, dnf), g1) ←
        simulate_time_minutes (TOP_SPEED_KMH row) (ACCELERATION_0_100_S row)
          (HANDLING row) (RELIABILITY row) distance_km track_preset g;
      collect_results distance_km track_preset rest
        (results ++
           [{| d_CAR_ID := c_CAR_ID row; d_CAR_NAME := c_CAR_NAME row;
               d_TEAM_ID := c_TEAM_ID row; d_TEAM_NAME := c_TEAM_NAME row;
               TIME_MIN := if negb dnf then Some mins else None;
               DNF := dnf; d_POSITION := None |}])
        g1
  end.

(** [min(range(len(keys)), key=lambda i: keys[i])]: the first index whose
    key is smallest; ValueError on an empty range. *)
Fixpoint first_min_from (best : nat) (best_key : option Q) (i : nat)
    (keys : list (option Q)) : nat :=
  match keys with
  | [] => best
  | k :: rest =>
      if Py.lt_inf k best_key then first_min_from i k (S i) rest
      else first_min_from best best_key (S i) rest
  end.

Definition min_range_by_key (keys : list (option Q)) : option nat :=
  match keys with
  | [] => None
  | k :: rest => Some (first_min_from 0 k 1 rest)
  end.

(** The all-DNF block.  The dicts of [results] are updated in place. *)
Definition rescue (distance_km : Q) (results : list ResultDict) (g : Rng)
    : option (list ResultDict * Rng) :=
  if forallb DNF results then
    best_idx ← min_range_by_key (map (fun r => Py.or_inf (TIME_MIN r)) results);
    r ← results !! best_idx;
    let results := <[best_idx := set_DNF false r]> results in
    r ← results !! best_idx;
    match TIME_MIN r with
    | None =>
        let (t, g1) := uniform (distance_km / 3) (distance_km / 2) g in
        Some (<[best_idx := set_TIME_MIN (Some t) r]> results, g1)
    | Some _ => Some (results, g)
    end
  else Some (results, g).

(** [finishers = [r for r in results if not r["DNF"]]].  The list holds
    the very dicts of [results], not copies: a reference to a dict is
    modelled by the dict's index in [results], which is neither resized
    nor reordered once built. *)
Fixpoint refs_not_DNF (i : nat) (results : list ResultDict) : list nat :=
  match results with
  | [] => []
  | r :: rest =>
      if negb (DNF r) then i :: refs_not_DNF (S i) rest
      else refs_not_DNF (S i) rest
  end.

(** [list.sort(key=...)] is a stable sort that compares keys with [<]
    only; the result of a stable sort is determined by the keys, so it is
    computed here by a stable insertion sort. *)
Fixpoint insert_by_time (x : Q * nat) (l : list (Q * nat)) : list (Q * nat) :=
  match l with
  | [] => [x]
  | y :: rest =>
      if QMicromega.Qlt_bool (fst y) (fst x) then y :: insert_by_time x rest
      else x :: l
  end.

Definition stable_sort_by_time (l : list (Q * nat)) : list (Q * nat) :=
  foldr insert_by_time [] l.

(** [finishers.sort(key=lambda r: r["TIME_MIN"])].  With two or more
    elements every key takes part in a comparison, and comparing [None]
    raises TypeError. *)
Definition sort_finishers (results : list ResultDict) (finishers : list nat)
    : option (list nat) :=
  keys ← mapM (fun i => r ← results !! i; Some (TIME_MIN r, i)) finishers;
  match keys with
  | [] | [_] => Some finishers
  | _ =>
      timed ← mapM (fun '(k, i) => t ← k; Some (t, i)) keys;
      Some (map snd (stable_sort_by_time timed))
  end.

(** [for pos, r in enumerate(finishers, start=1): r["POSITION"] = pos] *)
Fixpoint assign_positions (pos : nat) (finishers : list nat)
    (results : list ResultDict) : option (list ResultDict) :=
  match finishers with
  | [] => Some results
  | i :: rest =>
      r ← results !! i;
      assign_positions (S pos) rest (<[i := set_POSITION (Some pos) r]> results)
  end.

(** [if r.get("POSITION") is None: r["POSITION"] = None] *)
Definition default_position (r : ResultDict) : ResultDict :=
  match d_POSITION r with
  | Some (Some _) => r
  | _ => set_POSITION None r
  end.

Definition prize_reason (idx : nat) (race_name : string) : string :=
  "Prize for position " ++ pretty (idx + 1)%nat ++ " in " ++ race_name.

(** The body of the prize loop, for each [idx] of the range in turn. *)
Fixpoint pay_prizes (race_id : Z) (race_name : string) (prizes : list Q)
    (results : list ResultDict) (finishers : list nat) (idxs : list nat)
    (s : Store) : option Store :=
  match idxs with
  | [] => Some s
  | idx :: rest =>
      i ← finishers !! idx;
      r ← results !! i;
      let team_id := d_TEAM_ID r in
      amount ← prizes !! idx;
      let s :=
        if QMicromega.Qlt_bool 0 amount then
          record_transaction team_id (Some race_id) amount
            (prize_reason idx race_name) "USD" s
        else s in
      pay_prizes race_id race_name prizes results finishers rest s
  end.

Definition status_of (r : ResultDict) : string :=
  if negb (DNF r) then "FINISHED" else "DNF".

(** The [insert_race_result] loop; [r["POSITION"]] raises KeyError when
    the key is absent. *)
Fixpoint persist_results (race_id : Z) (results : list ResultDict)
    (s : Store) : option Store :=
  match results with
  | [] => Some s
  | r :: rest =>
      position ← d_POSITION r;
      persist_results race_id rest
        (insert_race_result race_id (d_CAR_ID r) (d_TEAM_ID r) (TIME_MIN r)
           (status_of r) (Z.of_nat <$> position) s)
  end.

(** What the handler leaves behind: either it stopped on the warning, or
    it ran to the end. *)
Inductive Outcome :=
| Stopped (warning : string) (s : Store) (g : Rng)
| Completed (race_id : Z) (results : list ResultDict) (finishers : list nat)
    (s : Store) (g : Rng).

Section StartRace.

Variable default_race_id : list RaceRow -> option Z.

(** [cars_df] is the answer of [get_cars_with_teams_df], a SELECT: reading
    it leaves the tables as they are. *)
Definition start_race (race_name : string)
    (distance_km entry_fee prize_first prize_second prize_third : Q)
    (track_preset : string) (cars_df : list Car) (s : Store) (g : Rng)
    : option Outcome :=
  match cars_df with
  | [] => Some (Stopped "No cars available. Please add cars first." s g)
  | _ =>
      let (race_id, s) :=
        create_race default_race_id
          (if String.eqb race_name "" then "Rally" else race_name)
          distance_km entry_fee prize_first prize_second prize_third s in
      let participating_team_ids := participating_team_ids_of cars_df in
      let s :=
        collect_entry_fees race_id entry_fee race_name
          participating_team_ids s in
      '(results, g) ← collect_results distance_km track_preset cars_df [] g;
      '(results, g) ← rescue distance_km results g;
      let finishers := refs_not_DNF 0 results in
      finishers ← sort_finishers results finishers;
      results ← assign_positions 1 finishers results;
      let results := map default_position results in
      let prizes := [prize_first; prize_second; prize_third] in
      s ← pay_prizes race_id race_name prizes results finishers
            (seq 0 (Nat.min 3 (length finishers))) s;
      s ← persist_results race_id results s;
      Some (Completed race_id results finishers s g)
  end.

End StartRace.

(** ** Connection settings (snowflake_utils.py)

    [_get_snowflake_config] and [get_connection], up to the call of
    [snowflake.connector.connect]: what is modelled of the latter is the
    keyword arguments it is called with.  A dict is the list of its items
    in insertion order; the values of the settings are strings.  The
    Streamlit secrets are given by what the guard of the function finds
    ([Secrets] below). *)

Inductive Exn :=
| ValueError (message : string)
| FileNotFoundError (message : string)
| ConnectorError (message : string).     (* raised by the connector *)

(** [d.get(k)] *)
Definition dict_get (d : list (string * string)) (k : string) : option string :=
  snd <$> List.find (fun kv => String.eqb (fst kv) k) d.

(** [os.getenv(name, default)] *)
Definition getenv (env : gmap string string) (name fallback : string) : string :=
  default fallback (env !! name).

(** [not v] on a string *)
Definition falsy (v : string) : bool := String.eqb v "".

(** What the guard [st is not None and hasattr(st, "secrets") and
    "snowflake" in st.secrets] finds.  The membership test reads the
    secrets files and raises when Streamlit finds none. *)
Inductive Secrets :=
| no_section                 (* the guard is false: no Streamlit, or no
                                "snowflake" key in the secrets *)
| unreadable (e : Exn)       (* the membership test raises [e] *)
| snowflake (section : list (string * string)).

Definition _get_snowflake_config (secrets : Secrets)
    (env : gmap string string) : Exn + list (string * string) :=
  match secrets with
  | unreadable e => inl e
  | _ =>
      let cfg :=
        match secrets with
        | snowflake section => section
        | _ =>
            [("account", getenv env "SNOWFLAKE_ACCOUNT" "");
             ("user", getenv env "SNOWFLAKE_USER" "");
             ("password", getenv env "SNOWFLAKE_PASSWORD" "");
             ("warehouse", getenv env "SNOWFLAKE_WAREHOUSE" "");
             ("role", getenv env "SNOWFLAKE_ROLE" "");
             ("database", getenv env "SNOWFLAKE_DATABASE" "BOOTCAMP_RALLY")]
        end in
      let missing :=
        map fst
          (List.filter
             (fun kv =>
                existsb (String.eqb (fst kv)) ["account"; "user"; "password"]
                && falsy (snd kv))
             cfg) in
      match missing with
      | [] => inr cfg
      | _ =>
          inl (ValueError
                 ("Missing Snowflake credentials: "
                  ++ String.concat ", " missing))
      end
  end.

(** The keyword arguments of [snowflake.connector.connect]. *)
Record ConnectArgs := {
  account : option string;
  user : option string;
  password : option string;
  warehouse : option string;
  role : option string;
  database : option string;
}.

(** [x or None] *)
Definition or_None (x : option string) : option string :=
  match x with
  | Some v => if falsy v then None else Some v
  | None => None
  end.

Definition get_connection (secrets : Secrets)
    (env : gmap string string) : Exn + ConnectArgs :=
  match _get_snowflake_config secrets env with
  | inl e => inl e
  | inr cfg =>
      inr {| account := dict_get cfg "account";
             user := dict_get cfg "user";
             password := dict_get cfg "password";
             warehouse := or_None (dict_get cfg "warehouse");
             role := or_None (dict_get cfg "role");
             database := or_None (dict_get cfg "database") |}
  end.

(** ** Schema bootstrap (snowflake_utils.py, init_database)

    The text of bootstrap.sql is cut at every semicolon; each piece is
    stripped of surrounding whitespace and the pieces that are left
    non-empty are executed in order on one cursor.  A Python [str] is a
    sequence of Unicode code points.  The input of the model is the text
    that [read_text] returns (decoded, line ends translated), absent
    when [exists()] is false. *)

Definition Text := list N.

Definition semicolon : N := 59%N.

(** The code points that [str.strip()] removes: U+0009..U+000D,
    U+001C..U+0020, U+0085, U+00A0, U+1680, U+2000..U+200A, U+2028,
    U+2029, U+202F, U+205F and U+3000. *)
Definition isspace (c : N) : bool :=
  ((9 <=? c) && (c <=? 13) || (28 <=? c) && (c <=? 32)
   || (c =? 133) || (c =? 160) || (c =? 5760)
   || (8192 <=? c) && (c <=? 8202)
   || (c =? 8232) || (c =? 8233) || (c =? 8239) || (c =? 8287)
   || (c =? 12288))%N.

Fixpoint lstrip (s : Text) : Text :=
  match s with
  | c :: s' => if isspace c then lstrip s' else s
  | [] => []
  end.

Fixpoint rstrip (s : Text) : Text :=
  match s with
  | c :: s' =>
      match rstrip s' with
      | [] => if isspace c then [] else [c]
      | r => c :: r
      end
  | [] => []
  end.

(** [s.strip()] *)
Definition strip (s : Text) : Text := rstrip (lstrip s).

(** [s.split(sep)] for a separator of one character: always at least
    one piece, empty pieces kept. *)
Fixpoint split (sep : N) (s : Text) : list Text :=
  match s with
  | [] => [[]]
  | c :: s' =>
      if (c =? sep)%N then [] :: split sep s'
      else match split sep s' with
           | piece :: pieces => (c :: piece) :: pieces
           | [] => [[c]]
           end
  end.

(** Truth value of a [str]. *)
Definition truthy (s : Text) : bool :=
  match s with [] => false | _ :: _ => true end.

(** [[s.strip() for s in ddl.split(";") if s.strip()]] *)
Definition statements (ddl : Text) : list Text :=
  map strip (List.filter (fun s => truthy (strip s)) (split semicolon ddl)).

Section Cursor.

(** The connection with its cursor.  [cur_execute stmt conn] is the
    connection after the call and the exception it raised, if any. *)
Variable Conn : Type.
Variable cur_execute : Text -> Conn -> Conn * option Exn.

(** [for stmt in statements: cur.execute(stmt)] *)
Fixpoint execute_each (stmts : list Text) (conn : Conn)
    : Conn * option Exn :=
  match stmts with
  | [] => (conn, None)
  | stmt :: rest =>
      match cur_execute stmt conn with
      | (conn', None) => execute_each rest conn'
      | raised => raised
      end
  end.

Definition init_database (bootstrap_path : string)
    (bootstrap : option Text) (conn : Conn) : Conn * option Exn :=
  match bootstrap with
  | None =>
      (conn,
       Some (FileNotFoundError
               ("Bootstrap SQL not found at " ++ bootstrap_path)))
  | Some ddl => execute_each (statements ddl) conn
  end.

End Cursor.

Arguments execute_each {Conn} cur_execute stmts conn.
Arguments init_database {Conn} cur_execute bootstrap_path bootstrap conn.

(** * Definitions used by the statements

    Nothing below is part of the program: these are the reference
    definitions written after the specification, closed forms of what the
    phases of the handler compute, and the data of the running example. *)

(** ** The generator seen from outside *)

Definition advance (k : nat) (g : Rng) : Rng :=
  {| tape := tape g; cursor := cursor g + k |}.

(** [g'] reads the same tape as [g], further on. *)
Definition same_tape (g g' : Rng) : Prop :=
  tape g' = tape g /\ (cursor g <= cursor g')%nat.

(** The multipliers that [n] successive calls of [uniform 0.92 1.08] draw
    from the generator. *)
Definition segment_draws (g : Rng) (n : nat) : list Q :=
  map (fun i => 0.92 + (1.08 - 0.92) * tape g (cursor g + i)) (seq 0 n).

(** What one call of the simulator does with the generator: one draw per
    segment, one for the reliability trial, and one more for the jitter
    of a finisher. *)
Definition trial_draw (distance_km : Q) (preset : string) (g : Rng) : Q :=
  tape g (cursor g + length (segments_of distance_km preset)).

Definition jitter_draw (distance_km : Q) (preset : string) (g : Rng) : Q :=
  0.98 + (1.05 - 0.98)
         * tape g (cursor g + length (segments_of distance_km preset) + 1).

Definition simulated_dnf (reliability distance_km : Q) (preset : string)
    (g : Rng) : bool :=
  QMicromega.Qlt_bool (finish_probability_of reliability)
    (trial_draw distance_km preset g).

(** ** Reference definition of the simulated time

    Written after the prose of the specification (section 4.1, steps 1
    to 3), with the mathematical [Qmax], [Qmin] and total division. *)

Module Reference.

Definition clamp (lo hi x : Q) : Q := Qmax lo (Qmin hi x).

(** Handling clamped to [50, 100], then mapped linearly onto
    [0.5, 1.0]. *)
Definition handling_scale (handling : Z) : Q :=
  let h := clamp 50 100 (inject_Z handling) in
  0.5 + (h - 50) * ((1.0 - 0.5) / (100 - 50)).

Definition accel_scale (accel : Q) : Q :=
  clamp 0.90 1.05 (1.0 + (6.0 - accel) * 0.02).

Definition effective_speed (top_speed hscale ascale : Q) (seg : Segment)
    (random_multiplier : Q) : Q :=
  let '(_, speed_factor, handling_factor) := seg in
  Qmax 60.0
    (top_speed * hscale * ascale * speed_factor * handling_factor
     * random_multiplier).

(** Sum over the segments of length / effective speed, in hours. *)
Fixpoint total_hours (top_speed hscale ascale : Q) (segments : list Segment)
    (multipliers : list Q) : Q :=
  match segments, multipliers with
  | seg :: segments', m :: multipliers' =>
      fst (fst seg) / effective_speed top_speed hscale ascale seg m
      + total_hours top_speed hscale ascale segments' multipliers'
  | _, _ => 0
  end.

Definition time_minutes (top_speed accel : Q) (handling : Z)
    (segments : list Segment) (multipliers : list Q) : Q :=
  total_hours top_speed (handling_scale handling) (accel_scale accel)
    segments multipliers * 60.

End Reference.

(** ** Track presets

    The table of the specification (section 4.1): each preset is an
    ordered list of (distance fraction, speed factor, handling factor). *)

Module Presets.

Definition fast_asphalt : list (Q * Q * Q) := [(1.0, 1.05, 1.0)].

Definition gravel_twisty : list (Q * Q * Q) :=
  [(0.6, 0.8, 0.9); (0.4, 0.7, 0.85)].

Definition mixed : list (Q * Q * Q) :=
  [(0.4, 0.95, 0.98); (0.3, 0.85, 0.92); (0.3, 0.75, 0.90)].

(** Any name other than the first two selects the default. *)
Definition profile (name : string) : list (Q * Q * Q) :=
  if decide (name = "Fast asphalt") then fast_asphalt
  else if decide (name = "Gravel twisty") then gravel_twisty
  else mixed.

(** Sum of the first components: of the fractions of a table, of the
    lengths of a segment list. *)
Definition first_sum (l : list (Q * Q * Q)) : Q :=
  foldr Qplus 0 (map (fun s => fst (fst s)) l).

(** The segment of the code is the row of the table laid out over the
    distance [d]. *)
Definition same_segment (d : Q) (seg : Segment) (row : Q * Q * Q) : Prop :=
  fst (fst seg) == d * fst (fst row)
  /\ snd (fst seg) == snd (fst row)
  /\ snd seg == snd row.

End Presets.

(** ** The ledger *)

(** A sequence of [record_transaction] calls, each given by the row it
    inserts. *)
Definition record_all (calls : list TransactionRow) (s : Store) : Store :=
  foldl (fun s x =>
           record_transaction (tx_TEAM_ID x) (tx_RACE_ID x) (tx_AMOUNT x)
             (tx_REASON x) (tx_CURRENCY x) s)
        s calls.

(** What the UPDATEs of a sequence of calls do to one TEAMS row. *)
Definition update_budget_all (calls : list TransactionRow) (t : TeamRow)
    : TeamRow :=
  foldl (fun t x => update_budget (tx_TEAM_ID x) (tx_AMOUNT x) t) t calls.

(** Sum of the signed amounts of the transactions of one team. *)
Definition ledger_sum (team_id : Z) (txs : list TransactionRow) : Q :=
  foldr (fun x acc =>
           if (tx_TEAM_ID x =? team_id)%Z then tx_AMOUNT x + acc else acc)
        0 txs.

(** Total of the signed amounts of a list of transactions. *)
Definition amount_sum (txs : list TransactionRow) : Q :=
  foldr (fun x acc => tx_AMOUNT x + acc) 0 txs.

(** ** The phases of the handler *)

(** The dict appended for a car: the car's identifiers, no "POSITION"
    key yet, and a time exactly when the simulator did not report DNF. *)
Definition fresh_dict (c : Car) (r : ResultDict) : Prop :=
  d_CAR_ID r = c_CAR_ID c /\ d_CAR_NAME r = c_CAR_NAME c
  /\ d_TEAM_ID r = c_TEAM_ID c /\ d_TEAM_NAME r = c_TEAM_NAME c
  /\ d_POSITION r = None
  /\ (TIME_MIN r = None <-> DNF r = true).

(** The key of the rescue block's [min]. *)
Definition rescue_key (r : ResultDict) : option Q := Py.or_inf (TIME_MIN r).

(** [uniform(distance_km/3, distance_km/2)] on the next raw draw. *)
Definition fallback_time (d : Q) (g : Rng) : Q :=
  d / 3 + (d / 2 - d / 3) * tape g (cursor g).

(** The dict forced to FINISHED: its time is kept when it has one and is
    the fallback draw otherwise. *)
Definition forced (d : Q) (g : Rng) (r : ResultDict) : ResultDict :=
  match TIME_MIN r with
  | None => set_TIME_MIN (Some (fallback_time d g)) (set_DNF false r)
  | Some _ => set_DNF false r
  end.

Definition by_time : relation (Q * nat) := fun x y => fst x <= fst y.

(** The recorded time of the dict behind a reference. *)
Definition time_of (results : list ResultDict) (i : nat) : Q :=
  default 0 (results !! i ≫= TIME_MIN).

Definition has_time (results : list ResultDict) (i : nat) : Prop :=
  exists r t, results !! i = Some r /\ TIME_MIN r = Some t.

(** The finishers in ranking order. *)
Definition ranked (results : list ResultDict) (finishers : list nat)
    : list nat :=
  map snd (stable_sort_by_time (map (fun i => (time_of results i, i)) finishers)).

(** The rank that the enumeration starting at [pos] gives to the
    reference [i], if [i] is among the finishers. *)
Fixpoint rank_in (pos : nat) (finishers : list nat) (i : nat) : option nat :=
  match finishers with
  | [] => None
  | x :: rest => if decide (x = i) then Some pos else rank_in (S pos) rest i
  end.

Definition with_rank (rank : option nat) (r : ResultDict) : ResultDict :=
  match rank with
  | Some q => set_POSITION (Some q) r
  | None => r
  end.

(** The finishers and the dicts after ranking, from the dicts after the
    rescue block. *)
Definition final_finishers (results1 : list ResultDict) : list nat :=
  ranked results1 (refs_not_DNF 0 results1).

Definition final_results (results1 : list ResultDict) : list ResultDict :=
  imap (fun i r => set_POSITION (rank_in 1 (final_finishers results1) i) r)
       results1.

(** The team of the dict behind a reference. *)
Definition team_of (results : list ResultDict) (i : nat) : Z :=
  default 0%Z (d_TEAM_ID <$> results !! i).

(** The row recorded for the entry fee of a team. *)
Definition entry_fee_row (race_id : Z) (entry_fee : Q) (race_name : string)
    (team_id : Z) : TransactionRow :=
  {| tx_TEAM_ID := team_id; tx_RACE_ID := Some race_id;
     tx_AMOUNT := - entry_fee; tx_CURRENCY := "USD";
     tx_REASON := "Entry fee for " ++ race_name |}.

(** The row recorded for the prize of a rank. *)
Definition prize_row (race_id : Z) (race_name : string) (rank : nat)
    (team : Z) (amount : Q) : TransactionRow :=
  {| tx_TEAM_ID := team; tx_RACE_ID := Some race_id; tx_AMOUNT := amount;
     tx_CURRENCY := "USD";
     tx_REASON := "Prize for position " ++ pretty rank ++ " in " ++ race_name |}.

(** The credits of the prize loop, in the words of the specification:
    going down the prize tiers and the teams of the ranked finishers
    together, from rank [rank] on, a tier above zero is credited to the
    team at that rank. *)
Fixpoint prize_credits (race_id : Z) (race_name : string) (rank : nat)
    (prizes : list Q) (teams : list Z) : list TransactionRow :=
  match prizes, teams with
  | amount :: prizes', team :: teams' =>
      (if QMicromega.Qlt_bool 0 amount then
         [prize_row race_id race_name rank team amount]
       else [])
      ++ prize_credits race_id race_name (S rank) prizes' teams'
  | _, _ => []
  end.

(** What a prize tier pays: its amount when above zero, nothing
    otherwise. *)
Definition paid (amount : Q) : Q :=
  if QMicromega.Qlt_bool 0 amount then amount else 0.

Definition paid_sum (prizes : list Q) : Q := foldr Qplus 0 (map paid prizes).

(** The row written for a dict. *)
Definition race_result_row (race_id : Z) (r : ResultDict) : RaceResultRow :=
  {| rr_RACE_ID := race_id; rr_CAR_ID := d_CAR_ID r; rr_TEAM_ID := d_TEAM_ID r;
     FINISH_TIME_MINUTES := TIME_MIN r; STATUS := status_of r;
     POSITION := Z.of_nat <$> default None (d_POSITION r) |}.

(** The store left by a completed race: the race row, then the
    transactions [txs] recorded in order, then the result rows. *)
Definition settled_store (s_race : Store) (txs : list TransactionRow)
    (rows : list RaceResultRow) : Store :=
  let s := record_all txs s_race in
  {| TEAMS := TEAMS s; TRANSACTIONS := TRANSACTIONS s; RACES := RACES s;
     RACE_RESULTS := RACE_RESULTS s ++ rows |}.

(** ** The seed data of the app, as a running example *)

Definition demo_cars : list Car :=
  [{| c_CAR_ID := 1; c_CAR_NAME := "Falcon X1"; c_TEAM_ID := 1;
      c_TEAM_NAME := "Falcon Motorsport"; TOP_SPEED_KMH := 220.0;
      ACCELERATION_0_100_S := 5.2; HANDLING := 85; RELIABILITY := 0.92 |};
   {| c_CAR_ID := 2; c_CAR_NAME := "Falcon X2"; c_TEAM_ID := 1;
      c_TEAM_NAME := "Falcon Motorsport"; TOP_SPEED_KMH := 210.0;
      ACCELERATION_0_100_S := 5.6; HANDLING := 80; RELIABILITY := 0.88 |};
   {| c_CAR_ID := 3; c_CAR_NAME := "Storm ZR"; c_TEAM_ID := 2;
      c_TEAM_NAME := "Thunder Racing"; TOP_SPEED_KMH := 230.0;
      ACCELERATION_0_100_S := 4.9; HANDLING := 78; RELIABILITY := 0.85 |}].

Definition demo_store : Store :=
  {| TEAMS := [{| TEAM_ID := 1; TEAM_NAME := "Falcon Motorsport";
                  MEMBERS := "Alice,Bob"; BUDGET := Some 10000 |};
               {| TEAM_ID := 2; TEAM_NAME := "Thunder Racing";
                  MEMBERS := "Carol,Dan"; BUDGET := Some 8000 |}];
     TRANSACTIONS := []; RACES := []; RACE_RESULTS := [] |}.

(** An identity column counting from 1. *)
Definition demo_race_id (races : list RaceRow) : option Z :=
  Some (Z.of_nat (length races) + 1)%Z.

(** A generator whose every raw draw is one half. *)
Definition half_tape : Rng := {| tape := fun _ => 1 # 2; cursor := 0 |}.

(** A generator under which every reliability trial fails. *)
Definition unlucky_tape : Rng := {| tape := fun _ => 0.995; cursor := 0 |}.

(** The dicts collected for the seed cars when every trial fails. *)
Definition unlucky_results : list ResultDict :=
  map (fun c =>
         {| d_CAR_ID := c_CAR_ID c; d_CAR_NAME := c_CAR_NAME c;
            d_TEAM_ID := c_TEAM_ID c; d_TEAM_NAME := c_TEAM_NAME c;
            TIME_MIN := None; DNF := true; d_POSITION := None |})
      demo_cars.

(** The roster of the example scenario of the specification
    (section 8). *)
Definition scenario_cars : list Car :=
  [{| c_CAR_ID := 1; c_CAR_NAME := "Car A"; c_TEAM_ID := 1;
      c_TEAM_NAME := "Falcon Motorsport"; TOP_SPEED_KMH := 220;
      ACCELERATION_0_100_S := 5.2; HANDLING := 85; RELIABILITY := 0.92 |};
   {| c_CAR_ID := 2; c_CAR_NAME := "Car B"; c_TEAM_ID := 2;
      c_TEAM_NAME := "Thunder Racing"; TOP_SPEED_KMH := 230;
      ACCELERATION_0_100_S := 4.9; HANDLING := 78; RELIABILITY := 0.85 |}].

(** A completed race at a glance: the ledger, the result rows and the
    budgets, with every rational in lowest terms. *)
Definition at_a_glance (o : option Outcome)
    : option (list (Z * Q * string) * list (Z * option Q * string * option Z)
              * list (Z * option Q)) :=
  match o with
  | Some (Completed _ _ _ s _) =>
      Some (map (fun x => (tx_TEAM_ID x, Qred (tx_AMOUNT x), tx_REASON x))
              (TRANSACTIONS s),
            map (fun r => (rr_CAR_ID r, Qred <$> FINISH_TIME_MINUTES r,
                           STATUS r, POSITION r))
              (RACE_RESULTS s),
            map (fun t => (TEAM_ID t, Qred <$> BUDGET t)) (TEAMS s))
  | _ => None
  end.

(** ** Further definitions used by the statements *)

(** The finishers counted in a list of dicts. *)
Definition finisher_count (results : list ResultDict) : nat :=
  length (List.filter (fun r => negb (DNF r)) results).

(** Earlier by time, or at the same time and earlier in the roster. *)
Definition time_then_roster : relation (Q * nat) :=
  fun x y => fst x < fst y \/ (fst x == fst y /\ (snd x < snd y)%nat).

(** A table holding race 7, and a schema that would number the next
    race 3. *)
Definition stale_store : Store :=
  {| TEAMS := []; TRANSACTIONS := [];
     RACES := [{| RACE_ID := Some 7%Z; RACE_NAME := "Old"; DISTANCE_KM := 50;
                  ENTRY_FEE := 0; PRIZE_FIRST := 0; PRIZE_SECOND := 0;
                  PRIZE_THIRD := 0 |}];
     RACE_RESULTS := [] |}.

(** The credentials whose value is empty, of those given. *)
Definition empty_credentials (cfg : list (string * string)) : list string :=
  map fst
    (List.filter
       (fun kv =>
          existsb (String.eqb (fst kv)) ["account"; "user"; "password"]
          && falsy (snd kv))
       cfg).

(** [sep.join(pieces)] *)
Fixpoint join (sep : N) (pieces : list Text) : Text :=
  match pieces with
  | [] => []
  | piece :: rest =>
      match rest with
      | [] => piece
      | _ :: _ => piece ++ sep :: join sep rest
      end
  end.

(** A character that is neither whitespace nor a semicolon. *)
Definition is_visible (c : N) : bool :=
  negb (isspace c || (c =? semicolon)%N).

Definition visible (s : Text) : Text := List.filter is_visible s.

(** [part] occurs in [s] as a run of consecutive characters. *)
Definition part_of (part s : Text) : Prop :=
  exists before after, s = before ++ part ++ after.


(** The first seed car entered twice, as cars 1 and 2. *)
Definition twin_cars : list Car :=
  [{| c_CAR_ID := 1; c_CAR_NAME := "Falcon X1"; c_TEAM_ID := 1;
      c_TEAM_NAME := "Falcon Motorsport"; TOP_SPEED_KMH := 220.0;
      ACCELERATION_0_100_S := 5.2; HANDLING := 85; RELIABILITY := 0.92 |};
   {| c_CAR_ID := 2; c_CAR_NAME := "Falcon X1"; c_TEAM_ID := 1;
      c_TEAM_NAME := "Falcon Motorsport"; TOP_SPEED_KMH := 220.0;
      ACCELERATION_0_100_S := 5.2; HANDLING := 85; RELIABILITY := 0.92 |}].



(** The sum of the segment lengths as Python's [sum] computes it, from
    the left and starting at 0. *)
Definition lengths_sum (segments : list Binary64.Segment) : float :=
  fold_left PrimFloat.add (map (fun seg => fst (fst seg)) segments) 0%float.



(** Every raw draw is the largest float below 1. *)
Definition high_tape64 : Binary64.Rng :=
  {| Binary64.tape := fun _ => 0x1.fffffffffffffp-1%float;
     Binary64.cursor := 0 |}.

(** The time and the DNF flag of a binary64 run. *)
Definition time_and_flag (o : option ((float * bool) * Binary64.Rng))
    : option (float * bool) :=
  fst <$> o.

(** * Properties *)

(** ** Python [max] and [min] *)

Lemma Qlt_bool_true (a b : Q) : QMicromega.Qlt_bool a b = true <-> a < b.
Proof. apply QMicromega.Qlt_bool_iff. Qed.

Lemma Qlt_bool_false (a b : Q) : QMicromega.Qlt_bool a b = false <-> b <= a.
Proof.
  split; intros H.
  - destruct (Qlt_le_dec a b) as [Hlt | Hle]; [|exact Hle].
    apply Qlt_bool_true in Hlt. congruence.
  - destruct (QMicromega.Qlt_bool a b) eqn:E; [|reflexivity].
    apply Qlt_bool_true in E. lra.
Qed.

Ltac case_Qlt a b :=
  let E := fresh "E" in
  destruct (QMicromega.Qlt_bool a b) eqn:E;
  [apply Qlt_bool_true in E | apply Qlt_bool_false in E].

Lemma py_max_Qmax (a b : Q) : Py.max a b == Qmax a b.
Proof.
  unfold Py.max. case_Qlt a b.
  - symmetry. apply Q.max_r. lra.
  - symmetry. apply Q.max_l. lra.
Qed.

Lemma py_min_Qmin (a b : Q) : Py.min a b == Qmin a b.
Proof.
  unfold Py.min. case_Qlt b a.
  - symmetry. apply Q.min_r. lra.
  - symmetry. apply Q.min_l. lra.
Qed.

Lemma py_max_lower (a b : Q) : a <= Py.max a b.
Proof. unfold Py.max. case_Qlt a b; lra. Qed.

Lemma py_max_upper (a b c : Q) : a <= c -> b <= c -> Py.max a b <= c.
Proof. unfold Py.max. case_Qlt a b; lra. Qed.

Lemma py_min_upper (a b : Q) : Py.min a b <= a.
Proof. unfold Py.min. case_Qlt b a; lra. Qed.

Lemma py_maxZ_Zmax (a b : Z) : Py.maxZ a b = Z.max a b.
Proof. unfold Py.maxZ. destruct (Z.ltb_spec a b); lia. Qed.

Lemma py_minZ_Zmin (a b : Z) : Py.minZ a b = Z.min a b.
Proof. unfold Py.minZ. destruct (Z.ltb_spec b a); lia. Qed.

Lemma py_div_Some (a b : Q) : ~ b == 0 -> Py.div a b = Some (a / b).
Proof.
  intros Hb. unfold Py.div.
  destruct (Qeq_bool b 0) eqn:E; [|reflexivity].
  apply Qeq_bool_iff in E. contradiction.
Qed.

(** ** The simulator *)

Lemma segment_speed_floor (base hs acs sf hf rv : Q) :
  60 <= segment_speed_of base hs acs sf hf rv.
Proof.
  unfold segment_speed_of.
  match goal with |- _ <= Py.max ?a ?b => pose proof (py_max_lower a b) end.
  lra.
Qed.

Lemma segment_division_defined (len base hs acs sf hf rv : Q) :
  Py.div len (segment_speed_of base hs acs sf hf rv)
  = Some (len / segment_speed_of base hs acs sf hf rv).
Proof.
  apply py_div_Some. pose proof (segment_speed_floor base hs acs sf hf rv). lra.
Qed.

Lemma segment_draws_S (g : Rng) (n : nat) :
  segment_draws g (S n)
  = (0.92 + (1.08 - 0.92) * tape g (cursor g)) :: segment_draws (advance 1 g) n.
Proof.
  unfold segment_draws. simpl. rewrite Nat.add_0_r. f_equal.
  rewrite <- seq_shift, map_map. apply map_ext. intros i.
  do 3 f_equal. lia.
Qed.

Lemma segment_draws_range (g : Rng) (n : nat) :
  unit_tape g ->
  Forall (fun m => 0.92 <= m /\ m <= 1.08) (segment_draws g n).
Proof.
  intros Hg. unfold segment_draws. apply Forall_map, Forall_forall.
  intros i _. simpl. destruct (Hg (cursor g + i)%nat). lra.
Qed.

(** ** The simulated time against its reference definition *)

Lemma handling_scale_reference (handling : Z) :
  handling_scale_of handling == Reference.handling_scale handling.
Proof.
  unfold handling_scale_of, Reference.handling_scale, Reference.clamp.
  rewrite py_maxZ_Zmax, py_minZ_Zmin.
  destruct (Z_lt_le_dec handling 50) as [Hlo | Hlo];
    [|destruct (Z_lt_le_dec 100 handling) as [Hhi | Hhi]].
  - assert (inject_Z handling <= 50)
      by (change 50 with (inject_Z 50); rewrite <- Zle_Qle; lia).
    rewrite Z.max_l by lia.
    rewrite (Q.min_r 100 (inject_Z handling)) by lra.
    rewrite Q.max_l by lra. reflexivity.
  - assert (100 <= inject_Z handling)
      by (change 100 with (inject_Z 100); rewrite <- Zle_Qle; lia).
    rewrite Z.min_l, Z.max_r by lia.
    rewrite (Q.min_l 100 (inject_Z handling)) by lra.
    rewrite Q.max_r by lra. reflexivity.
  - assert (50 <= inject_Z handling)
      by (change 50 with (inject_Z 50); rewrite <- Zle_Qle; lia).
    assert (inject_Z handling <= 100)
      by (change 100 with (inject_Z 100); rewrite <- Zle_Qle; lia).
    rewrite Z.min_r, Z.max_r by lia.
    rewrite (Q.min_r 100 (inject_Z handling)) by lra.
    rewrite Q.max_r by lra.
    unfold Z.sub. rewrite inject_Z_plus. change (inject_Z (- (50))) with (- (50)).
    field.
Qed.

Lemma accel_scale_reference (accel : Q) :
  accel_scale_of accel == Reference.accel_scale accel.
Proof.
  unfold accel_scale_of, Reference.accel_scale, Reference.clamp.
  rewrite py_max_Qmax. apply Q.max_compat; [reflexivity|].
  apply py_min_Qmin.
Qed.

Lemma effective_speed_reference (top hs hs' acs acs' len sf hf m : Q) :
  hs == hs' -> acs == acs' ->
  segment_speed_of top hs acs sf hf m
  == Reference.effective_speed top hs' acs' (len, sf, hf) m.
Proof.
  intros Hh Ha. unfold segment_speed_of, Reference.effective_speed.
  rewrite py_max_Qmax. apply Q.max_compat; [reflexivity|].
  rewrite Hh, Ha. reflexivity.
Qed.

Lemma advance_advance (j k : nat) (g : Rng) :
  advance k (advance j g) = advance (j + k) g.
Proof. unfold advance. simpl. f_equal. lia. Qed.

Lemma random_advance (g : Rng) : random g = (tape g (cursor g), advance 1 g).
Proof. unfold random, advance. do 2 f_equal. lia. Qed.

Lemma uniform_advance (a b : Q) (g : Rng) :
  uniform a b g = (a + (b - a) * tape g (cursor g), advance 1 g).
Proof. unfold uniform. rewrite random_advance. reflexivity. Qed.

(** The loop never raises, consumes one draw per segment, and adds to
    [minutes] sixty times the reference hours. *)
Lemma segments_loop_reference (top hs hs' acs acs' : Q)
    (segments : list Segment) :
  hs == hs' -> acs == acs' ->
  forall (minutes : Q) (g : Rng),
  exists total,
    segments_loop top hs acs segments minutes g
    = Some (total, advance (length segments) g)
    /\ total == minutes
         + Reference.total_hours top hs' acs' segments
             (segment_draws g (length segments)) * 60.
Proof.
  intros Hh Ha. induction segments as [|[[len sf] hf] rest IH]; intros minutes g.
  - exists minutes. split.
    + simpl. unfold advance. destruct g. simpl. do 3 f_equal. lia.
    + simpl. lra.
  - cbn [segments_loop]. rewrite uniform_advance.
    rewrite segment_division_defined. cbn [mbind option_bind].
    destruct (IH (minutes
                  + len / segment_speed_of top hs acs sf hf
                            (0.92 + (1.08 - 0.92) * tape g (cursor g)) * 60.0)
                 (advance 1 g)) as (total & Hrun & Htotal).
    exists total. split.
    + rewrite Hrun, advance_advance. reflexivity.
    + rewrite Htotal. cbn [length]. rewrite segment_draws_S.
      cbn [Reference.total_hours fst].
      rewrite (effective_speed_reference top hs hs' acs acs' len sf hf _ Hh Ha).
      set (v := Reference.effective_speed _ _ _ _ _).
      set (h := Reference.total_hours _ _ _ _ _).
      field.
      assert (60 <= v).
      { subst v. unfold Reference.effective_speed.
        match goal with |- _ <= Qmax ?a ?b => pose proof (Q.le_max_l a b) end.
        lra. }
      lra.
Qed.

Lemma simulate_runs (top accel : Q) (handling : Z) (reliability d : Q)
    (preset : string) (g : Rng) :
  exists minutes,
    segments_loop top (handling_scale_of handling) (accel_scale_of accel)
      (segments_of d preset) 0.0 g
    = Some (minutes, advance (length (segments_of d preset)) g)
    /\ minutes
       == Reference.time_minutes top accel handling (segments_of d preset)
            (segment_draws g (length (segments_of d preset)))
    /\ simulate_time_minutes top accel handling reliability d preset g
       = Some (if simulated_dnf reliability d preset g
               then ((minutes, true),
                     advance (length (segments_of d preset) + 1) g)
               else ((minutes * jitter_draw d preset g, false),
                     advance (length (segments_of d preset) + 2) g)).
Proof.
  destruct (segments_loop_reference top _ _ _ _ (segments_of d preset)
              (handling_scale_reference handling)
              (accel_scale_reference accel) 0.0 g) as (minutes & Hrun & Hm).
  exists minutes. split; [exact Hrun|]. split.
  - rewrite Hm. unfold Reference.time_minutes. lra.
  - unfold simulate_time_minutes. rewrite Hrun. cbn [mbind option_bind].
    rewrite random_advance, uniform_advance, !advance_advance.
    unfold simulated_dnf, trial_draw, jitter_draw. cbn [advance tape cursor].
    rewrite <- !Nat.add_assoc. change (1 + 1)%nat with 2%nat.
    destruct (QMicromega.Qlt_bool _ _); reflexivity.
Qed.


Lemma half_tape_unit : unit_tape half_tape.
Proof. intros n. simpl. lra. Qed.


Lemma finish_probability_clamp (reliability : Q) :
  finish_probability_of reliability == Qmax 0.05 (Qmin 0.99 reliability)
  /\ 0.05 <= finish_probability_of reliability
  /\ finish_probability_of reliability <= 0.99.
Proof.
  unfold finish_probability_of. split; [|split].
  - rewrite py_max_Qmax. apply Q.max_compat; [reflexivity | apply py_min_Qmin].
  - apply py_max_lower.
  - apply py_max_upper; [lra | apply py_min_upper].
Qed.

Lemma jitter_draw_range (d : Q) (preset : string) (g : Rng) :
  unit_tape g -> 0.98 <= jitter_draw d preset g /\ jitter_draw d preset g < 1.05.
Proof.
  intros Hg. unfold jitter_draw.
  destruct (Hg (cursor g + length (segments_of d preset) + 1)%nat). lra.
Qed.

(** C6.  The DNF decision is one Bernoulli trial: the finish probability
    is the reliability clamped to [0.05, 0.99] (0.99 for reliability
    1.0); the vehicle is DNF iff the single draw made after the segment
    loop exceeds it; a DNF consumes no further draw and returns the
    accumulated time as it is, a finisher consumes exactly one more draw,
    the jitter of [0.98, 1.05], which multiplies the accumulated time. *)
Theorem dnf_is_one_bernoulli_trial (top accel : Q) (handling : Z)
    (reliability d : Q) (preset : string) (g : Rng) :
  let p := finish_probability_of reliability in
  let n := length (segments_of d preset) in
  let u := tape g (cursor g + n) in
  (p == Qmax 0.05 (Qmin 0.99 reliability) /\ 0.05 <= p /\ p <= 0.99)
  /\ finish_probability_of 1.0 == 0.99
  /\ (exists minutes t dnf g',
        segments_loop top (handling_scale_of handling) (accel_scale_of accel)
          (segments_of d preset) 0.0 g = Some (minutes, advance n g)
        /\ simulate_time_minutes top accel handling reliability d preset g
           = Some ((t, dnf), g')
        /\ (dnf = true <-> p < u)
        /\ t = (if dnf then minutes else minutes * jitter_draw d preset g)
        /\ g' = advance (n + (if dnf then 1 else 2)) g)
  /\ (unit_tape g ->
      (0 <= u /\ u < 1)
      /\ 0.98 <= jitter_draw d preset g /\ jitter_draw d preset g <= 1.05).
Proof.
  intros p n u. split; [apply finish_probability_clamp|].
  split; [vm_compute; reflexivity|]. split.
  - destruct (simulate_runs top accel handling reliability d preset g)
      as (minutes & Hloop & _ & Hsim).
    fold n in Hloop, Hsim.
    assert (Hu : simulated_dnf reliability d preset g = QMicromega.Qlt_bool p u)
      by reflexivity.
    rewrite Hu in Hsim.
    case_Qlt p u.
    + exists minutes, minutes, true. eexists.
      repeat split;
        first [exact Hloop | exact Hsim | intros _; exact E | intros; reflexivity].
    + exists minutes, (minutes * jitter_draw d preset g), false. eexists.
      repeat split;
        first [exact Hloop | exact Hsim | discriminate | intros; lra | reflexivity].
  - intros Hg. split; [apply Hg|].
    destruct (jitter_draw_range d preset g Hg). split; lra.
Qed.

Lemma dnf_is_one_bernoulli_trial_witness :
  unit_tape half_tape
  /\ (0 <= tape half_tape 1 /\ tape half_tape 1 < 1)
  /\ 0.98 <= jitter_draw 100 "Fast asphalt" half_tape
  /\ jitter_draw 100 "Fast asphalt" half_tape <= 1.05.
Proof.
  split; [exact half_tape_unit|].
  apply (dnf_is_one_bernoulli_trial 220 5.2 85 1.0 100 "Fast asphalt" half_tape).
  exact half_tape_unit.
Defined.

Lemma Qdiv_pos (a b : Q) : 0 < a -> 0 < b -> 0 < a / b.
Proof.
  intros Ha Hb. unfold Qdiv. apply Qmult_lt_0_compat; [exact Ha|].
  apply Qinv_lt_0_compat. exact Hb.
Qed.

Lemma reference_speed_floor (top hs acs : Q) (seg : Segment) (m : Q) :
  60 <= Reference.effective_speed top hs acs seg m.
Proof.
  destruct seg as [[len sf] hf]. unfold Reference.effective_speed.
  match goal with |- _ <= Qmax ?a ?b => pose proof (Q.le_max_l a b) end.
  lra.
Qed.

Lemma total_hours_pos (top hs acs : Q) (segments : list Segment) :
  segments <> [] ->
  Forall (fun seg : Segment => 0 < fst (fst seg)) segments ->
  forall multipliers : list Q,
  length multipliers = length segments ->
  0 < Reference.total_hours top hs acs segments multipliers.
Proof.
  intros Hne Hpos. induction Hpos as [|seg rest Hseg Hrest IH];
    [congruence|]. intros [|m ms] Hlen; [discriminate|].
  cbn [Reference.total_hours].
  assert (0 < fst (fst seg) / Reference.effective_speed top hs acs seg m).
  { apply Qdiv_pos; [exact Hseg|].
    pose proof (reference_speed_floor top hs acs seg m). lra. }
  destruct rest as [|seg' rest'].
  - destruct ms; simpl; lra.
  - assert (0 < Reference.total_hours top hs acs (seg' :: rest') ms).
    { apply IH; [discriminate | simpl in Hlen |- *; lia]. }
    lra.
Qed.

Lemma segments_of_lengths_pos (d : Q) (preset : string) :
  0 < d ->
  segments_of d preset <> []
  /\ Forall (fun seg : Segment => 0 < fst (fst seg)) (segments_of d preset).
Proof.
  intros Hd. unfold segments_of.
  destruct (String.eqb preset "Fast asphalt");
    [|destruct (String.eqb preset "Gravel twisty")];
    (split; [discriminate | repeat constructor; simpl; lra]).
Qed.



Lemma total_hours_nonneg (top hs acs : Q) (segments : list Segment) :
  Forall (fun seg : Segment => 0 <= fst (fst seg)) segments ->
  forall multipliers : list Q,
  0 <= Reference.total_hours top hs acs segments multipliers.
Proof.
  induction 1 as [|seg rest Hseg _ IH]; intros [|m ms];
    cbn [Reference.total_hours]; try lra.
  specialize (IH ms).
  pose proof (reference_speed_floor top hs acs seg m) as Hv.
  assert (0 <= fst (fst seg) / Reference.effective_speed top hs acs seg m)
    by (apply Qle_shift_div_l; lra).
  lra.
Qed.




(** *** Bounds on the time in exact arithmetic *)







(** *** The speed floor in binary64 *)






(** At the corners of the bounds the binary64 run stays clear of
    underflow and overflow: the shortest distance at the highest speed
    takes about 5e-199 minutes, the longest distance at the floor speed
    1e100 minutes. *)
Lemma binary64_at_the_bounds :
  time_and_flag
    (Binary64.simulate_time_minutes 1e100%float 0%float 100 0%float
       1e-100%float "Fast asphalt" high_tape64)
  = Some (5.0390526581002755e-199%float, true)
  /\ time_and_flag
       (Binary64.simulate_time_minutes 0%float 0%float 0 1%float
          1e100%float "Mixed (default)" high_tape64)
     = Some (1e100%float, true).
Proof. split; vm_compute; reflexivity. Qed.


(** ** Track presets *)

Lemma segments_of_profile (d : Q) (name : string) :
  Forall2 (Presets.same_segment d) (segments_of d name) (Presets.profile name).
Proof.
  unfold segments_of, Presets.profile.
  destruct (String.eqb_spec name "Fast asphalt") as [-> | Hfast].
  - rewrite decide_True by reflexivity.
    repeat (constructor; [repeat split; simpl; lra|]). constructor.
  - rewrite (decide_False (P := name = "Fast asphalt")) by exact Hfast.
    destruct (String.eqb_spec name "Gravel twisty") as [-> | Hgravel].
    + rewrite decide_True by reflexivity.
      repeat (constructor; [repeat split; simpl; lra|]). constructor.
    + rewrite decide_False by exact Hgravel.
      repeat (constructor; [repeat split; simpl; lra|]). constructor.
Qed.

(** C7.  For every distance the three presets are the listed segments in
    the listed order, any other name gives the Mixed segments, every
    segment length is the distance times the listed fraction, and for
    every preset name the distance fractions sum to exactly 1, in
    binary64 as well: over a distance of 1.0 the lengths are the
    fractions and sum to 1.0.  The single length of Fast asphalt is the
    distance itself. *)
Theorem presets_are_exact (d : Q) (name : string) :
  segments_of d "Fast asphalt" = [(d, 1.05, 1.0)]
  /\ segments_of d "Gravel twisty"
     = [(d * 0.6, 0.8, 0.9); (d * 0.4, 0.7, 0.85)]
  /\ segments_of d "Mixed (default)"
     = [(d * 0.4, 0.95, 0.98); (d * 0.3, 0.85, 0.92); (d * 0.3, 0.75, 0.9)]
  /\ (name <> "Fast asphalt" -> name <> "Gravel twisty" ->
      segments_of d name = segments_of d "Mixed (default)")
  /\ Forall2 (Presets.same_segment d) (segments_of d name) (Presets.profile name)
  /\ Presets.first_sum (Presets.profile name) == 1
  /\ PrimFloat.eqb (lengths_sum (Binary64.segments_of 1%float name)) 1%float
     = true
  /\ Presets.first_sum (segments_of d "Fast asphalt") == d.
Proof.
  split; [reflexivity|]. split; [reflexivity|]. split; [reflexivity|].
  split; [|split; [apply segments_of_profile|split; [|split]]].
  - intros Hfast Hgravel. unfold segments_of.
    destruct (String.eqb_spec name "Fast asphalt"); [contradiction|].
    destruct (String.eqb_spec name "Gravel twisty"); [contradiction|].
    reflexivity.
  - unfold Presets.profile.
    destruct (decide (name = "Fast asphalt"));
      [|destruct (decide (name = "Gravel twisty"))]; reflexivity.
  - unfold Binary64.segments_of.
    destruct (String.eqb name "Fast asphalt");
      [|destruct (String.eqb name "Gravel twisty")];
      vm_compute; reflexivity.
  - unfold Presets.first_sum. simpl. lra.
Qed.

Lemma presets_are_exact_witness :
  segments_of 100 "Tarmac sprint" = segments_of 100 "Mixed (default)".
Proof.
  apply (presets_are_exact 100 "Tarmac sprint"); discriminate.
Defined.

(** In binary64 the products of the distance by 0.6 and 0.4, and by 0.4,
    0.3 and 0.3, are rounded one by one and need not add back to the
    distance: over 13.4 km the lengths of Gravel twisty and of Mixed sum
    to 13.399999999999999. *)
Lemma rounded_lengths_miss_the_distance :
  PrimFloat.eqb
    (lengths_sum (Binary64.segments_of 13.4%float "Gravel twisty"))
    13.4%float = false
  /\ PrimFloat.eqb
       (lengths_sum (Binary64.segments_of 13.4%float "Mixed (default)"))
       13.4%float = false
  /\ lengths_sum (Binary64.segments_of 13.4%float "Gravel twisty")
     = 13.399999999999999%float.
Proof. repeat split; vm_compute; reflexivity. Qed.

(** ** The ledger *)

Lemma record_all_cons (x : TransactionRow) (calls : list TransactionRow)
    (s : Store) :
  record_all (x :: calls) s
  = record_all calls
      (record_transaction (tx_TEAM_ID x) (tx_RACE_ID x) (tx_AMOUNT x)
         (tx_REASON x) (tx_CURRENCY x) s).
Proof. reflexivity. Qed.

Lemma update_budget_all_cons (x : TransactionRow)
    (calls : list TransactionRow) (t : TeamRow) :
  update_budget_all (x :: calls) t
  = update_budget_all calls (update_budget (tx_TEAM_ID x) (tx_AMOUNT x) t).
Proof. reflexivity. Qed.

Lemma record_all_fields (calls : list TransactionRow) (s : Store) :
  TEAMS (record_all calls s) = map (update_budget_all calls) (TEAMS s)
  /\ TRANSACTIONS (record_all calls s) = TRANSACTIONS s ++ calls
  /\ RACES (record_all calls s) = RACES s
  /\ RACE_RESULTS (record_all calls s) = RACE_RESULTS s.
Proof.
  revert s. induction calls as [|x calls IH]; intros s.
  - simpl. rewrite map_id, app_nil_r. auto.
  - rewrite record_all_cons.
    destruct (IH (record_transaction (tx_TEAM_ID x) (tx_RACE_ID x)
                    (tx_AMOUNT x) (tx_REASON x) (tx_CURRENCY x) s))
      as (Ht & Hx & Hr & Hrr).
    rewrite Ht, Hx, Hr, Hrr. cbn [record_transaction TEAMS TRANSACTIONS RACES RACE_RESULTS].
    rewrite map_map, <- app_assoc. destruct x; auto.
Qed.

Lemma update_budget_row (team_id : Z) (amount : Q) (t : TeamRow) :
  TEAM_ID (update_budget team_id amount t) = TEAM_ID t
  /\ TEAM_NAME (update_budget team_id amount t) = TEAM_NAME t
  /\ MEMBERS (update_budget team_id amount t) = MEMBERS t
  /\ BUDGET (update_budget team_id amount t)
     = (if (TEAM_ID t =? team_id)%Z
        then Some (coalesce0 (BUDGET t) + amount) else BUDGET t).
Proof.
  unfold update_budget. destruct (TEAM_ID t =? team_id)%Z; auto.
Qed.

Lemma update_budget_other (team_id : Z) (amount : Q) (t : TeamRow) :
  TEAM_ID t <> team_id -> update_budget team_id amount t = t.
Proof.
  intros Hne. unfold update_budget.
  destruct (Z.eqb_spec (TEAM_ID t) team_id); [contradiction | reflexivity].
Qed.

Lemma update_budget_all_row (calls : list TransactionRow) (t : TeamRow) :
  TEAM_ID (update_budget_all calls t) = TEAM_ID t
  /\ TEAM_NAME (update_budget_all calls t) = TEAM_NAME t
  /\ MEMBERS (update_budget_all calls t) = MEMBERS t
  /\ coalesce0 (BUDGET (update_budget_all calls t))
     == coalesce0 (BUDGET t) + ledger_sum (TEAM_ID t) calls
  /\ (Forall (fun x => tx_TEAM_ID x <> TEAM_ID t) calls ->
      update_budget_all calls t = t).
Proof.
  revert t. induction calls as [|x calls IH]; intros t.
  - simpl. repeat split; auto. lra.
  - rewrite !update_budget_all_cons.
    destruct (IH (update_budget (tx_TEAM_ID x) (tx_AMOUNT x) t))
      as (Hid & Hname & Hmem & Hbud & Hsame).
    destruct (update_budget_row (tx_TEAM_ID x) (tx_AMOUNT x) t)
      as (Hid1 & Hname1 & Hmem1 & Hbud1).
    rewrite Hid1 in *. split; [congruence|]. split; [congruence|].
    split; [congruence|]. split.
    + rewrite Hbud, Hbud1. cbn [ledger_sum foldr].
      fold (ledger_sum (TEAM_ID t) calls).
      rewrite (Z.eqb_sym (tx_TEAM_ID x)).
      destruct (TEAM_ID t =? tx_TEAM_ID x)%Z; simpl; lra.
    + intros Hall. apply Forall_cons in Hall as [Hx Hall].
      rewrite update_budget_other by congruence.
      rewrite update_budget_other in Hsame by congruence. auto.
Qed.

Lemma lookup_map {A B : Type} (f : A -> B) (l : list A) (i : nat) :
  map f l !! i = f <$> (l !! i).
Proof. change (map f l) with (f <$> l). apply list_lookup_fmap. Qed.

(** C9.  One call of [record_transaction] appends one row with the given
    amount and, in every TEAMS row of that team, replaces the budget by
    COALESCE(budget, 0) + amount; every other team row and every other
    table and column is left as it was.  Hence after any sequence of
    calls the budget of a team row is its budget before the sequence
    (NULL read as 0) plus the sum of the amounts recorded for that team,
    and a team with no transaction in the sequence keeps its row. *)
Theorem record_transaction_adjusts_budget (team_id : Z) (race_id : option Z)
    (amount : Q) (reason currency : string) (calls : list TransactionRow)
    (s : Store) :
  let s1 := record_transaction team_id race_id amount reason currency s in
  let sn := record_all calls s in
  (TRANSACTIONS s1
   = TRANSACTIONS s ++
       [{| tx_TEAM_ID := team_id; tx_RACE_ID := race_id; tx_AMOUNT := amount;
           tx_CURRENCY := currency; tx_REASON := reason |}]
   /\ RACES s1 = RACES s /\ RACE_RESULTS s1 = RACE_RESULTS s
   /\ length (TEAMS s1) = length (TEAMS s)
   /\ forall (i : nat) (t : TeamRow), TEAMS s !! i = Some t ->
      exists t1, TEAMS s1 !! i = Some t1
        /\ TEAM_ID t1 = TEAM_ID t /\ TEAM_NAME t1 = TEAM_NAME t
        /\ MEMBERS t1 = MEMBERS t
        /\ BUDGET t1 = (if decide (TEAM_ID t = team_id)
                        then Some (coalesce0 (BUDGET t) + amount)
                        else BUDGET t))
  /\ (TRANSACTIONS sn = TRANSACTIONS s ++ calls
      /\ RACES sn = RACES s /\ RACE_RESULTS sn = RACE_RESULTS s
      /\ length (TEAMS sn) = length (TEAMS s)
      /\ forall (i : nat) (t : TeamRow), TEAMS s !! i = Some t ->
         exists tn, TEAMS sn !! i = Some tn
           /\ TEAM_ID tn = TEAM_ID t /\ TEAM_NAME tn = TEAM_NAME t
           /\ MEMBERS tn = MEMBERS t
           /\ coalesce0 (BUDGET tn)
              == coalesce0 (BUDGET t) + ledger_sum (TEAM_ID t) calls
           /\ (Forall (fun x => tx_TEAM_ID x <> TEAM_ID t) calls -> tn = t)).
Proof.
  intros s1 sn. split.
  - subst s1. cbn [record_transaction TEAMS TRANSACTIONS RACES RACE_RESULTS].
    repeat split; [apply length_map|].
    intros i t Hi. exists (update_budget team_id amount t).
    rewrite lookup_map, Hi.
    destruct (update_budget_row team_id amount t) as (Hid & Hname & Hmem & Hbud).
    repeat split; auto. rewrite Hbud.
    destruct (Z.eqb_spec (TEAM_ID t) team_id).
    + rewrite decide_True by assumption. reflexivity.
    + rewrite decide_False by assumption. reflexivity.
  - subst sn.
    destruct (record_all_fields calls s) as (Ht & Hx & Hr & Hrr).
    rewrite Ht, Hx, Hr, Hrr. rewrite length_map.
    repeat split.
    intros i t Hi. exists (update_budget_all calls t).
    rewrite lookup_map, Hi. split; [reflexivity|].
    apply update_budget_all_row.
Qed.

Lemma record_transaction_adjusts_budget_witness :
  exists tn,
    TEAMS (record_all
             [{| tx_TEAM_ID := 7; tx_RACE_ID := Some 1%Z; tx_AMOUNT := - (1000);
                 tx_CURRENCY := "USD"; tx_REASON := "Entry fee for R" |};
              {| tx_TEAM_ID := 7; tx_RACE_ID := Some 1%Z; tx_AMOUNT := 5000;
                 tx_CURRENCY := "USD"; tx_REASON := "Prize" |}]
             {| TEAMS := [{| TEAM_ID := 7; TEAM_NAME := "Falcon";
                             MEMBERS := "Alice,Bob"; BUDGET := None |}];
                TRANSACTIONS := []; RACES := []; RACE_RESULTS := [] |}) !! 0%nat
    = Some tn
    /\ coalesce0 (BUDGET tn) == 4000.
Proof.
  pose proof (record_transaction_adjusts_budget 7 None 0 "" ""
    [{| tx_TEAM_ID := 7; tx_RACE_ID := Some 1%Z; tx_AMOUNT := - (1000);
        tx_CURRENCY := "USD"; tx_REASON := "Entry fee for R" |};
     {| tx_TEAM_ID := 7; tx_RACE_ID := Some 1%Z; tx_AMOUNT := 5000;
        tx_CURRENCY := "USD"; tx_REASON := "Prize" |}]
    {| TEAMS := [{| TEAM_ID := 7; TEAM_NAME := "Falcon";
                    MEMBERS := "Alice,Bob"; BUDGET := None |}];
       TRANSACTIONS := []; RACES := []; RACE_RESULTS := [] |}) as H.
  destruct H as (_ & _ & _ & _ & _ & H).
  destruct (H 0%nat _ eq_refl) as (tn & Hlook & _ & _ & _ & Hbud & _).
  exists tn. split; [exact Hlook|]. rewrite Hbud. reflexivity.
Defined.

(** ** Settlement: results collection *)

Lemma same_tape_unit (g g' : Rng) : same_tape g g' -> unit_tape g -> unit_tape g'.
Proof. intros [Ht _] Hg n. rewrite Ht. apply Hg. Qed.

Lemma same_tape_advance (k : nat) (g : Rng) : same_tape g (advance k g).
Proof. split; simpl; [reflexivity | lia]. Qed.

Lemma same_tape_trans (g1 g2 g3 : Rng) :
  same_tape g1 g2 -> same_tape g2 g3 -> same_tape g1 g3.
Proof. intros [H1 L1] [H2 L2]. split; [congruence | lia]. Qed.

Lemma collect_results_runs (d : Q) (preset : string) (cars : list Car) :
  forall (acc : list ResultDict) (g : Rng),
  exists new g',
    collect_results d preset cars acc g = Some (acc ++ new, g')
    /\ Forall2 fresh_dict cars new
    /\ same_tape g g'.
Proof.
  induction cars as [|c cars IH]; intros acc g.
  - exists [], g. rewrite app_nil_r. repeat split; [constructor | lia].
  - cbn [collect_results].
    destruct (simulate_runs (TOP_SPEED_KMH c) (ACCELERATION_0_100_S c)
                (HANDLING c) (RELIABILITY c) d preset g)
      as (minutes & _ & _ & Hsim).
    rewrite Hsim.
    set (n := length (segments_of d preset)) in *.
    destruct (simulated_dnf (RELIABILITY c) d preset g);
      cbn [mbind option_bind negb].
    + match goal with
      | |- context [collect_results _ _ _ (acc ++ [?r]) ?g1] =>
          destruct (IH (acc ++ [r]) g1) as (new & g' & Hrun & Hnew & Hg);
          exists (r :: new), g'
      end.
      rewrite Hrun, <- app_assoc. split; [reflexivity|]. split.
      * constructor; [|exact Hnew]. unfold fresh_dict. simpl. tauto.
      * eapply same_tape_trans; [apply same_tape_advance | exact Hg].
    + match goal with
      | |- context [collect_results _ _ _ (acc ++ [?r]) ?g1] =>
          destruct (IH (acc ++ [r]) g1) as (new & g' & Hrun & Hnew & Hg);
          exists (r :: new), g'
      end.
      rewrite Hrun, <- app_assoc. split; [reflexivity|]. split.
      * constructor; [|exact Hnew]. unfold fresh_dict. simpl.
        repeat split; try reflexivity; discriminate.
      * eapply same_tape_trans; [apply same_tape_advance | exact Hg].
Qed.

(** ** Settlement: the all-DNF rescue *)

Lemma lt_inf_irrefl (a : option Q) : Py.lt_inf a a = false.
Proof.
  destruct a as [x|]; [|reflexivity]. simpl. apply Qlt_bool_false. lra.
Qed.

Lemma lt_inf_below (a b c : option Q) :
  Py.lt_inf a b = true -> Py.lt_inf c b = false ->
  Py.lt_inf a c = true /\ Py.lt_inf c a = false.
Proof.
  destruct a as [x|], b as [y|], c as [z|]; simpl;
    rewrite ?Qlt_bool_true, ?Qlt_bool_false; intros; try split;
    try discriminate; try reflexivity; lra.
Qed.

(** The index returned by [min] is in range, its key is a smallest one,
    and every earlier key is strictly larger. *)
Lemma first_min_from_spec (keys : list (option Q)) :
  forall (seen : list (option Q)) (best : nat) (best_key : option Q),
  seen !! best = Some best_key ->
  (forall j k, seen !! j = Some k ->
     Py.lt_inf k best_key = false
     /\ ((j < best)%nat -> Py.lt_inf best_key k = true)) ->
  exists kb,
    (seen ++ keys) !! first_min_from best best_key (length seen) keys = Some kb
    /\ forall j k, (seen ++ keys) !! j = Some k ->
       Py.lt_inf k kb = false
       /\ ((j < first_min_from best best_key (length seen) keys)%nat ->
           Py.lt_inf kb k = true).
Proof.
  induction keys as [|k rest IH]; intros seen best best_key Hbest Hmin.
  - rewrite app_nil_r. exists best_key. auto.
  - cbn [first_min_from].
    assert (Hbest_lt : (best < length seen)%nat)
      by (eapply lookup_lt_Some; exact Hbest).
    replace (seen ++ k :: rest) with ((seen ++ [k]) ++ rest)
      by (rewrite <- app_assoc; reflexivity).
    replace (S (length seen)) with (length (seen ++ [k]))
      by (rewrite length_app; simpl; lia).
    destruct (Py.lt_inf k best_key) eqn:Hk.
    + apply IH.
      * rewrite lookup_app_r by lia. rewrite Nat.sub_diag. reflexivity.
      * intros j kj Hj.
        destruct (decide (j < length seen)%nat) as [Hlt | Hge].
        -- rewrite lookup_app_l in Hj by exact Hlt.
           destruct (Hmin j kj Hj) as [Hnot _].
           destruct (lt_inf_below _ _ _ Hk Hnot). auto.
        -- apply lookup_lt_Some in Hj as Hj'.
           rewrite length_app in Hj'. simpl in Hj'.
           assert (j = length seen) by lia. subst j.
           rewrite lookup_app_r, Nat.sub_diag in Hj by lia.
           injection Hj as <-. split; [apply lt_inf_irrefl | lia].
    + apply IH.
      * rewrite lookup_app_l by exact Hbest_lt. exact Hbest.
      * intros j kj Hj.
        destruct (decide (j < length seen)%nat) as [Hlt | Hge].
        -- rewrite lookup_app_l in Hj by exact Hlt. auto.
        -- apply lookup_lt_Some in Hj as Hj'.
           rewrite length_app in Hj'. simpl in Hj'.
           assert (j = length seen) by lia. subst j.
           rewrite lookup_app_r, Nat.sub_diag in Hj by lia.
           injection Hj as <-. split; [exact Hk | lia].
Qed.

Lemma min_range_by_key_spec (keys : list (option Q)) :
  keys <> [] ->
  exists best kb,
    min_range_by_key keys = Some best
    /\ keys !! best = Some kb
    /\ forall j k, keys !! j = Some k ->
       Py.lt_inf k kb = false /\ ((j < best)%nat -> Py.lt_inf kb k = true).
Proof.
  destruct keys as [|k rest]; [congruence|]. intros _.
  destruct (first_min_from_spec rest [k] 0%nat k eq_refl) as (kb & Hkb & Hmin).
  { intros [|j] kj Hj; [|discriminate]. injection Hj as <-.
    split; [apply lt_inf_irrefl | lia]. }
  exists (first_min_from 0 k 1 rest), kb. auto.
Qed.

(** With no key below [inf] the first index wins. *)
Lemma first_min_from_all_inf (keys : list (option Q)) (best i : nat) :
  Forall (fun k => k = None) keys -> first_min_from best None i keys = best.
Proof.
  intros Hall. revert i. induction Hall as [|k rest -> _ IH]; intros i.
  - reflexivity.
  - simpl. apply IH.
Qed.

Lemma rescue_all_dnf (d : Q) (results : list ResultDict) (g : Rng) :
  results <> [] -> forallb DNF results = true ->
  exists best r,
    min_range_by_key (map rescue_key results) = Some best
    /\ results !! best = Some r
    /\ rescue d results g
       = Some (<[best := forced d g r]> results,
               match TIME_MIN r with None => advance 1 g | Some _ => g end).
Proof.
  intros Hne Hall.
  destruct (min_range_by_key_spec (map rescue_key results))
    as (best & kb & Hmin & Hkb & _).
  { destruct results; [congruence | discriminate]. }
  rewrite lookup_map in Hkb.
  destruct (results !! best) as [r|] eqn:Hr; [|discriminate].
  exists best, r. split; [exact Hmin|]. split; [exact Hr|].
  unfold rescue. rewrite Hall.
  change (map (fun r0 => Py.or_inf (TIME_MIN r0)) results)
    with (map rescue_key results).
  rewrite Hmin. cbn [mbind option_bind]. rewrite Hr. cbn [mbind option_bind].
  rewrite list_lookup_insert_eq by (eapply lookup_lt_Some; exact Hr).
  cbn [mbind option_bind]. unfold forced.
  cbn [set_DNF TIME_MIN].
  destruct (TIME_MIN r) eqn:Ht.
  - reflexivity.
  - rewrite uniform_advance, list_insert_insert_eq. reflexivity.
Qed.

(** The rule of the block on any all-DNF list, whatever times its dicts
    record (a recorded 0.0 apart, which [or] reads as no time): the dict
    chosen has a smallest recorded time, strictly smaller than every
    earlier one; when it records no time, no dict does. *)
Lemma rescue_picks_first_minimum (d : Q) (results : list ResultDict)
    (g : Rng) :
  results <> [] -> forallb DNF results = true ->
  Forall (fun r => forall t, TIME_MIN r = Some t -> ~ t == 0) results ->
  exists best r,
    results !! best = Some r
    /\ rescue d results g
       = Some (<[best := forced d g r]> results,
               match TIME_MIN r with None => advance 1 g | Some _ => g end)
    /\ (forall j rj tj,
          results !! j = Some rj -> TIME_MIN rj = Some tj ->
          exists tb, TIME_MIN r = Some tb /\ tb <= tj
                     /\ ((j < best)%nat -> tb < tj))
    /\ (TIME_MIN r = None -> best = 0%nat).
Proof.
  intros Hne Hall Hnonzero.
  destruct (rescue_all_dnf d results g Hne Hall) as (best & r & Hmin & Hr & Hrun).
  destruct (min_range_by_key_spec (map rescue_key results))
    as (best' & kb & Hmin' & Hkb & Hleast).
  { destruct results; [congruence | discriminate]. }
  rewrite Hmin in Hmin'. injection Hmin' as <-.
  rewrite lookup_map, Hr in Hkb. injection Hkb as <-.
  assert (Hkey : forall rj tj, rj ∈ results -> TIME_MIN rj = Some tj ->
                 rescue_key rj = Some tj).
  { intros rj tj Hin Htj. rewrite Forall_forall in Hnonzero.
    pose proof (Hnonzero rj Hin tj Htj) as Hnz.
    unfold rescue_key. rewrite Htj. cbn.
    destruct (Qeq_bool tj 0) eqn:E; [|reflexivity].
    apply Qeq_bool_iff in E. contradiction. }
  exists best, r. split; [exact Hr|]. split; [exact Hrun|]. split.
  - intros j rj tj Hj Htj.
    assert (Hkj : map rescue_key results !! j = Some (Some tj)).
    { rewrite lookup_map, Hj. cbn. f_equal. apply Hkey; [|exact Htj].
      eapply list_elem_of_lookup_2. exact Hj. }
    destruct (Hleast j (Some tj) Hkj) as [Hnot Hbefore].
    destruct (TIME_MIN r) as [tb|] eqn:Htb.
    + assert (Hkr : rescue_key r = Some tb).
      { apply Hkey; [eapply list_elem_of_lookup_2; exact Hr | exact Htb]. }
      rewrite Hkr in Hnot, Hbefore. cbn in Hnot, Hbefore. apply Qlt_bool_false in Hnot.
      exists tb. split; [reflexivity|]. split; [exact Hnot|].
      intros Hlt. apply Qlt_bool_true. auto.
    + unfold rescue_key in Hnot. rewrite Htb in Hnot. discriminate.
  - intros Hnone. destruct best as [|b]; [reflexivity|].
    destruct (lookup_lt_is_Some_2 (map rescue_key results) 0) as [k0 Hk0].
    { rewrite length_map. apply lookup_lt_Some in Hr. lia. }
    destruct (Hleast 0%nat k0 Hk0) as [_ Hbefore].
    unfold rescue_key at 1 in Hbefore. rewrite Hnone in Hbefore.
    cbn in Hbefore. specialize (Hbefore ltac:(lia)). discriminate.
Qed.

Lemma rescue_some_finisher (d : Q) (results : list ResultDict) (g : Rng) :
  forallb DNF results = false -> rescue d results g = Some (results, g).
Proof. intros H. unfold rescue. rewrite H. reflexivity. Qed.

(** When every dict is DNF and none records a time, the first dict is
    the one forced, with the fallback time. *)
Lemma rescue_no_times (d : Q) (r0 : ResultDict) (rest : list ResultDict)
    (g : Rng) :
  forallb DNF (r0 :: rest) = true ->
  Forall (fun r => TIME_MIN r = None) (r0 :: rest) ->
  min_range_by_key (map rescue_key (r0 :: rest)) = Some 0%nat
  /\ rescue d (r0 :: rest) g
     = Some (set_TIME_MIN (Some (fallback_time d g)) (set_DNF false r0) :: rest,
             advance 1 g).
Proof.
  intros Hall Hnone.
  assert (Hmin : min_range_by_key (map rescue_key (r0 :: rest)) = Some 0%nat).
  { apply Forall_cons in Hnone as [H0 Hrest].
    cbn [map min_range_by_key]. unfold rescue_key at 1. rewrite H0.
    cbn [Py.or_inf]. rewrite first_min_from_all_inf; [reflexivity|].
    apply Forall_map. eapply Forall_impl; [exact Hrest|].
    intros r Hr. unfold rescue_key. simpl. rewrite Hr. reflexivity. }
  split; [exact Hmin|].
  destruct (rescue_all_dnf d (r0 :: rest) g) as (best & r & Hmin' & Hr & Hrun);
    [discriminate | exact Hall |].
  rewrite Hmin in Hmin'. injection Hmin' as <-.
  injection Hr as <-. rewrite Hrun. unfold forced.
  apply Forall_cons in Hnone as [-> _]. reflexivity.
Qed.

Lemma fresh_dict_forced (d : Q) (g : Rng) (c : Car) (r : ResultDict) :
  fresh_dict c r -> fresh_dict c (forced d g r).
Proof.
  unfold fresh_dict, forced. intros (H1 & H2 & H3 & H4 & H5 & H6).
  destruct (TIME_MIN r) eqn:Ht; cbn; rewrite ?Ht;
    repeat split; auto; discriminate.
Qed.

(** The rescue block on the dicts just collected: it returns, keeps one
    dict per car, and leaves at least one finisher. *)
Lemma rescue_runs (d : Q) (cars : list Car) (results : list ResultDict)
    (g : Rng) :
  cars <> [] -> Forall2 fresh_dict cars results ->
  exists results' g',
    rescue d results g = Some (results', g')
    /\ Forall2 fresh_dict cars results'
    /\ forallb DNF results' = false
    /\ same_tape g g'.
Proof.
  intros Hne Hfresh.
  destruct (forallb DNF results) eqn:Hall.
  - assert (Hne' : results <> []).
    { intros ->. apply Forall2_nil_inv_r in Hfresh. contradiction. }
    destruct (rescue_all_dnf d results g Hne' Hall) as (best & r & _ & Hr & Hrun).
    eexists _, _. split; [exact Hrun|]. split; [|split].
    + apply Forall2_same_length_lookup. split.
      * rewrite length_insert. eapply Forall2_length; exact Hfresh.
      * intros i c r' Hc Hr'.
        destruct (decide (i = best)) as [-> | Hi].
        -- rewrite list_lookup_insert_eq in Hr'
             by (eapply lookup_lt_Some; exact Hr).
           injection Hr' as <-. apply fresh_dict_forced.
           eapply Forall2_lookup_lr; eauto.
        -- rewrite list_lookup_insert_ne in Hr' by congruence.
           eapply Forall2_lookup_lr; eauto.
    + apply not_true_is_false. intros Hall'.
      rewrite forallb_forall in Hall'.
      assert (Hin : In (forced d g r) (<[best := forced d g r]> results)).
      { apply list_elem_of_In, list_elem_of_lookup. exists best.
        apply list_lookup_insert_eq. eapply lookup_lt_Some; exact Hr. }
      apply Hall' in Hin. unfold forced in Hin.
      destruct (TIME_MIN r); discriminate.
    + destruct (TIME_MIN r); [split; [reflexivity | lia] | apply same_tape_advance].
  - exists results, g. rewrite rescue_some_finisher by exact Hall.
    repeat split; auto; lia.
Qed.

(** ** Settlement: ranking *)

Lemma refs_not_DNF_elem (results : list ResultDict) :
  forall k i,
  i ∈ refs_not_DNF k results
  <-> (k <= i)%nat /\ exists r, results !! (i - k)%nat = Some r /\ DNF r = false.
Proof.
  induction results as [|r rest IH]; intros k i.
  - simpl. split.
    + intros H. inversion H.
    + intros (_ & r & Hr & _). discriminate.
  - cbn [refs_not_DNF]. destruct (DNF r) eqn:Hd; cbn [negb].
    + rewrite IH. split.
      * intros (Hk & r' & Hr' & Hd'). split; [lia|]. exists r'.
        replace (i - k)%nat with (S (i - S k)) by lia. auto.
      * intros (Hk & r' & Hr' & Hd').
        destruct (i - k)%nat as [|m] eqn:Hm.
        -- injection Hr' as <-. congruence.
        -- split; [lia|]. exists r'. replace (i - S k)%nat with m by lia. auto.
    + rewrite elem_of_cons, IH. split.
      * intros [-> | (Hk & r' & Hr' & Hd')].
        -- split; [lia|]. exists r. rewrite Nat.sub_diag. auto.
        -- split; [lia|]. exists r'.
           replace (i - k)%nat with (S (i - S k)) by lia. auto.
      * intros (Hk & r' & Hr' & Hd').
        destruct (i - k)%nat as [|m] eqn:Hm.
        -- left. lia.
        -- right. split; [lia|]. exists r'.
           replace (i - S k)%nat with m by lia. auto.
Qed.

Lemma refs_not_DNF_NoDup (results : list ResultDict) :
  forall k, NoDup (refs_not_DNF k results).
Proof.
  induction results as [|r rest IH]; intros k; cbn [refs_not_DNF].
  - constructor.
  - destruct (DNF r); cbn [negb]; [apply IH|].
    constructor; [|apply IH].
    rewrite refs_not_DNF_elem. intros [Hk _]. lia.
Qed.

Lemma refs_not_DNF_length (results : list ResultDict) :
  forall k,
  length (refs_not_DNF k results)
  = length (List.filter (fun r => negb (DNF r)) results).
Proof.
  induction results as [|r rest IH]; intros k; cbn [refs_not_DNF List.filter].
  - reflexivity.
  - destruct (negb (DNF r)); simpl; rewrite IH; reflexivity.
Qed.

Lemma insert_by_time_perm (x : Q * nat) (l : list (Q * nat)) :
  insert_by_time x l ≡ₚ x :: l.
Proof.
  induction l as [|y rest IH]; cbn [insert_by_time].
  - reflexivity.
  - destruct (QMicromega.Qlt_bool (fst y) (fst x)); [|reflexivity].
    rewrite IH. apply Permutation_swap.
Qed.

Lemma insert_by_time_sorted (x : Q * nat) (l : list (Q * nat)) :
  StronglySorted by_time l -> StronglySorted by_time (insert_by_time x l).
Proof.
  induction 1 as [|y rest Hrest IH Hy]; cbn [insert_by_time].
  - repeat constructor.
  - case_Qlt (fst y) (fst x).
    + constructor; [exact IH|].
      rewrite insert_by_time_perm. constructor; [|exact Hy].
      unfold by_time. lra.
    + constructor; [constructor; assumption|].
      constructor; [exact E|].
      eapply Forall_impl; [exact Hy|].
      unfold by_time. intros z Hz. lra.
Qed.

Lemma stable_sort_by_time_perm (l : list (Q * nat)) :
  stable_sort_by_time l ≡ₚ l.
Proof.
  induction l as [|x rest IH]; cbn [stable_sort_by_time foldr].
  - reflexivity.
  - rewrite insert_by_time_perm. fold (stable_sort_by_time rest).
    rewrite IH. reflexivity.
Qed.

Lemma stable_sort_by_time_sorted (l : list (Q * nat)) :
  StronglySorted by_time (stable_sort_by_time l).
Proof.
  induction l as [|x rest IH]; cbn [stable_sort_by_time foldr].
  - constructor.
  - apply insert_by_time_sorted. exact IH.
Qed.

(** The sort is stable: the elements of any one key come out in the
    order they went in.  Sorted, a permutation and stable, the list is
    the one [list.sort] builds. *)
Lemma insert_by_time_stable (t : Q) (x : Q * nat) (l : list (Q * nat)) :
  List.filter (fun z => Qeq_bool (fst z) t) (insert_by_time x l)
  = List.filter (fun z => Qeq_bool (fst z) t) (x :: l).
Proof.
  induction l as [|y rest IH]; cbn [insert_by_time]; [reflexivity|].
  case_Qlt (fst y) (fst x); [|reflexivity].
  cbn [List.filter] in *. rewrite IH.
  destruct (Qeq_bool (fst x) t) eqn:Hx; [|reflexivity].
  destruct (Qeq_bool (fst y) t) eqn:Hy; [|reflexivity].
  apply Qeq_bool_iff in Hx, Hy. lra.
Qed.

Lemma stable_sort_by_time_stable (t : Q) (l : list (Q * nat)) :
  List.filter (fun z => Qeq_bool (fst z) t) (stable_sort_by_time l)
  = List.filter (fun z => Qeq_bool (fst z) t) l.
Proof.
  induction l as [|x rest IH]; [reflexivity|].
  cbn [stable_sort_by_time foldr]. fold (stable_sort_by_time rest).
  rewrite insert_by_time_stable. cbn [List.filter]. rewrite IH. reflexivity.
Qed.

Lemma mapM_total {A B : Type} (f : A -> option B) (h : A -> B) (l : list A) :
  (forall x, x ∈ l -> f x = Some (h x)) -> mapM f l = Some (map h l).
Proof.
  induction l as [|x rest IH]; intros Hf.
  - reflexivity.
  - cbn [mapM map]. rewrite (Hf x) by (apply elem_of_cons; left; reflexivity).
    cbn [mbind option_bind]. rewrite IH.
    + reflexivity.
    + intros y Hy. apply Hf. apply elem_of_cons. right. exact Hy.
Qed.

Lemma sort_finishers_runs (results : list ResultDict) (finishers : list nat) :
  (forall i, i ∈ finishers -> has_time results i) ->
  sort_finishers results finishers = Some (ranked results finishers).
Proof.
  intros Htimes. unfold sort_finishers.
  rewrite (mapM_total _ (fun i => (Some (time_of results i), i))).
  2: { intros i Hi. destruct (Htimes i Hi) as (r & t & Hr & Ht).
       unfold time_of. rewrite Hr. cbn. rewrite Ht. reflexivity. }
  cbn [mbind option_bind].
  destruct finishers as [|a [|b rest]]; [reflexivity | reflexivity |].
  set (l := a :: b :: rest) in *.
  assert (Hkeys : mapM (fun '(k, i) => t ← k; Some (t, i))
                    (map (fun i => (Some (time_of results i), i)) l)
                  = Some (map (fun i => (time_of results i, i)) l)).
  { rewrite <- (map_map (fun i => (Some (time_of results i), i))
                        (fun '(k, i) => (default 0 k, i))).
    apply mapM_total. intros [k i] Hin.
    apply list_elem_of_In, in_map_iff in Hin as (j & Hj & _).
    injection Hj as <- <-. reflexivity. }
  subst l. cbn [map] in *. rewrite Hkeys. reflexivity.
Qed.

Lemma ranked_perm (results : list ResultDict) (finishers : list nat) :
  ranked results finishers ≡ₚ finishers.
Proof.
  unfold ranked. rewrite stable_sort_by_time_perm, map_map. simpl.
  rewrite map_id. reflexivity.
Qed.

Lemma ranked_sorted (results : list ResultDict) (finishers : list nat) :
  StronglySorted (fun i j => time_of results i <= time_of results j)
    (ranked results finishers).
Proof.
  unfold ranked.
  set (l := map (fun i => (time_of results i, i)) finishers).
  assert (Hall : Forall (fun x => fst x = time_of results (snd x))
                   (stable_sort_by_time l)).
  { rewrite stable_sort_by_time_perm. subst l.
    apply Forall_map, Forall_forall. reflexivity. }
  pose proof (stable_sort_by_time_sorted l) as Hsorted.
  induction Hsorted as [|x rest Hrest IH Hx]; cbn [map].
  - constructor.
  - apply Forall_cons in Hall as [Hhd Htl].
    constructor; [apply IH; exact Htl|].
    apply Forall_map, Forall_forall. intros y Hy.
    rewrite Forall_forall in Hx, Htl.
    pose proof (Hx y Hy) as Hxy. unfold by_time in Hxy.
    simpl. rewrite <- Hhd, <- (Htl y Hy). exact Hxy.
Qed.

Lemma rank_in_None (finishers : list nat) (i : nat) :
  forall pos, rank_in pos finishers i = None <-> i ∉ finishers.
Proof.
  induction finishers as [|x rest IH]; intros pos; cbn [rank_in].
  - split; [intros _ H; inversion H | reflexivity].
  - rewrite not_elem_of_cons. destruct (decide (x = i)) as [-> | Hne].
    + split; [discriminate | intros [H _]; congruence].
    + rewrite IH. split; [intros H; split; [congruence | exact H] | tauto].
Qed.

Lemma rank_in_Some (finishers : list nat) (i : nat) :
  forall pos q,
  rank_in pos finishers i = Some q ->
  exists j, finishers !! j = Some i /\ q = (pos + j)%nat.
Proof.
  induction finishers as [|x rest IH]; intros pos q; cbn [rank_in].
  - discriminate.
  - destruct (decide (x = i)) as [-> | Hne].
    + intros [= <-]. exists 0%nat. split; [reflexivity | lia].
    + intros H. apply IH in H as (j & Hj & ->). exists (S j).
      split; [exact Hj | lia].
Qed.

Lemma rank_in_lookup (finishers : list nat) :
  NoDup finishers ->
  forall pos j i,
  finishers !! j = Some i -> rank_in pos finishers i = Some (pos + j)%nat.
Proof.
  induction 1 as [|x rest Hx Hnd IH]; intros pos j i Hj.
  - discriminate.
  - cbn [rank_in]. destruct j as [|j].
    + injection Hj as ->. rewrite decide_True by reflexivity.
      f_equal. lia.
    + cbn in Hj. rewrite decide_False.
      * rewrite (IH (S pos) j i Hj). f_equal. lia.
      * intros ->. apply Hx. eapply list_elem_of_lookup_2. exact Hj.
Qed.

Lemma assign_positions_runs (finishers : list nat) :
  NoDup finishers ->
  forall (pos : nat) (results : list ResultDict),
  (forall i, i ∈ finishers -> (i < length results)%nat) ->
  exists results',
    assign_positions pos finishers results = Some results'
    /\ forall i,
       results' !! i = with_rank (rank_in pos finishers i) <$> results !! i.
Proof.
  induction 1 as [|x rest Hx Hnd IH]; intros pos results Hin.
  - exists results. split; [reflexivity|]. intros i. cbn.
    destruct (results !! i); reflexivity.
  - cbn [assign_positions].
    destruct (lookup_lt_is_Some_2 results x) as [r Hr].
    { apply Hin. apply elem_of_cons. left. reflexivity. }
    rewrite Hr. cbn [mbind option_bind].
    destruct (IH (S pos) (<[x := set_POSITION (Some pos) r]> results))
      as (results' & Hrun & Hlook).
    { intros i Hi. rewrite length_insert. apply Hin.
      apply elem_of_cons. right. exact Hi. }
    exists results'. split; [exact Hrun|]. intros i. rewrite Hlook.
    cbn [rank_in]. destruct (decide (x = i)) as [<- | Hne].
    + rewrite list_lookup_insert_eq by (eapply lookup_lt_Some; exact Hr).
      rewrite Hr. apply rank_in_None with (pos := S pos) in Hx.
      rewrite Hx. reflexivity.
    + rewrite list_lookup_insert_ne by exact Hne. reflexivity.
Qed.

(** Ranking as a whole: every dict keeps its fields and gets the key
    "POSITION", holding its rank among the finishers or [None]. *)
Lemma ranking_runs (finishers : list nat) (results : list ResultDict) :
  NoDup finishers ->
  (forall i, i ∈ finishers -> (i < length results)%nat) ->
  Forall (fun r => d_POSITION r = None) results ->
  exists results',
    assign_positions 1 finishers results = Some results'
    /\ map default_position results'
       = imap (fun i r => set_POSITION (rank_in 1 finishers i) r) results.
Proof.
  intros Hnd Hin Hnone.
  destruct (assign_positions_runs finishers Hnd 1%nat results Hin)
    as (results' & Hrun & Hlook).
  exists results'. split; [exact Hrun|].
  apply list_eq. intros i.
  rewrite lookup_map, Hlook, list_lookup_imap.
  destruct (results !! i) as [r|] eqn:Hr; [|reflexivity].
  cbn. f_equal.
  assert (Hpos : d_POSITION r = None).
  { rewrite Forall_forall in Hnone. apply Hnone.
    eapply list_elem_of_lookup_2. exact Hr. }
  destruct (rank_in 1 finishers i); cbn; [reflexivity|].
  unfold default_position. rewrite Hpos. reflexivity.
Qed.

(** ** Settlement: money *)

Lemma record_all_app (a b : list TransactionRow) (s : Store) :
  record_all (a ++ b) s = record_all b (record_all a s).
Proof. unfold record_all. apply foldl_app. Qed.

Lemma collect_entry_fees_rows (race_id : Z) (entry_fee : Q)
    (race_name : string) (team_ids : list Z) (s : Store) :
  collect_entry_fees race_id entry_fee race_name team_ids s
  = record_all (map (entry_fee_row race_id entry_fee race_name) team_ids) s.
Proof.
  revert s. induction team_ids as [|t rest IH]; intros s.
  - reflexivity.
  - cbn [map]. rewrite record_all_cons. cbn [collect_entry_fees foldl].
    apply IH.
Qed.

Lemma pay_prizes_runs (race_id : Z) (race_name : string) (prizes : list Q)
    (results : list ResultDict) (finishers : list nat) :
  (forall i, i ∈ finishers -> is_Some (results !! i)) ->
  forall (n a : nat) (s : Store),
  n = Nat.min (length prizes - a) (length finishers - a) ->
  pay_prizes race_id race_name prizes results finishers (seq a n) s
  = Some (record_all
            (prize_credits race_id race_name (S a) (drop a prizes)
               (drop a (map (team_of results) finishers))) s).
Proof.
  intros Hres. induction n as [|n IH]; intros a s Hn.
  - cbn [seq pay_prizes].
    assert (Hnil : drop a prizes = []
                   \/ drop a (map (team_of results) finishers) = []).
    { destruct (decide (length prizes <= a)%nat).
      - left. apply drop_ge. assumption.
      - right. apply drop_ge. rewrite length_map. lia. }
    destruct Hnil as [-> | ->]; [reflexivity|].
    destruct (drop a prizes); reflexivity.
  - cbn [seq pay_prizes].
    destruct (lookup_lt_is_Some_2 finishers a) as [i Hi]; [lia|].
    destruct (lookup_lt_is_Some_2 prizes a) as [amount Ha]; [lia|].
    destruct (Hres i) as [r Hr]; [eapply list_elem_of_lookup_2; exact Hi|].
    rewrite Hi. cbn [mbind option_bind]. rewrite Hr. cbn [mbind option_bind].
    rewrite Ha. cbn [mbind option_bind].
    rewrite IH by lia.
    rewrite (drop_S prizes amount a Ha).
    rewrite (drop_S (map (team_of results) finishers) (team_of results i) a)
      by (rewrite lookup_map, Hi; reflexivity).
    cbn [prize_credits]. rewrite record_all_app.
    assert (Hteam : team_of results i = d_TEAM_ID r)
      by (unfold team_of; rewrite Hr; reflexivity).
    rewrite Hteam. unfold prize_reason. rewrite Nat.add_1_r.
    destruct (QMicromega.Qlt_bool 0 amount); reflexivity.
Qed.

Lemma persist_results_runs (race_id : Z) (results : list ResultDict) :
  Forall (fun r => is_Some (d_POSITION r)) results ->
  forall s : Store,
  persist_results race_id results s
  = Some {| TEAMS := TEAMS s; TRANSACTIONS := TRANSACTIONS s; RACES := RACES s;
            RACE_RESULTS := RACE_RESULTS s
                            ++ map (race_result_row race_id) results |}.
Proof.
  induction 1 as [|r rest [p Hp] Hrest IH]; intros s.
  - cbn. rewrite app_nil_r. destruct s; reflexivity.
  - cbn [persist_results]. rewrite Hp. cbn [mbind option_bind].
    rewrite IH. cbn [insert_race_result TEAMS TRANSACTIONS RACES RACE_RESULTS].
    rewrite <- app_assoc. cbn [map app]. unfold race_result_row at 2.
    rewrite Hp. reflexivity.
Qed.

(** ** The handler as a whole *)

Lemma fresh_dicts_lookup (cars : list Car) (results : list ResultDict)
    (i : nat) (r : ResultDict) :
  Forall2 fresh_dict cars results -> results !! i = Some r ->
  d_POSITION r = None /\ (TIME_MIN r = None <-> DNF r = true).
Proof.
  intros Hfresh Hr.
  destruct (Forall2_lookup_r _ _ _ _ _ Hfresh Hr) as (c & _ & Hc).
  unfold fresh_dict in Hc. tauto.
Qed.

Lemma final_finishers_elem (results1 : list ResultDict) (i : nat) :
  i ∈ final_finishers results1
  <-> exists r, results1 !! i = Some r /\ DNF r = false.
Proof.
  unfold final_finishers. rewrite ranked_perm, refs_not_DNF_elem.
  rewrite Nat.sub_0_r. split; [tauto | intros H; split; [lia | exact H]].
Qed.

Lemma final_finishers_NoDup (results1 : list ResultDict) :
  NoDup (final_finishers results1).
Proof.
  unfold final_finishers. rewrite ranked_perm. apply refs_not_DNF_NoDup.
Qed.

Section StartRaceRuns.

Variable default_race_id : list RaceRow -> option Z.

(** For a non-empty roster the handler runs to the end, and what it
    leaves is given phase by phase. *)
Lemma start_race_runs (race_name : string) (d fee p1 p2 p3 : Q)
    (preset : string) (cars : list Car) (s : Store) (g : Rng) :
  cars <> [] ->
  exists results0 g1 results1 g2,
    collect_results d preset cars [] g = Some (results0, g1)
    /\ Forall2 fresh_dict cars results0
    /\ same_tape g g1
    /\ rescue d results0 g1 = Some (results1, g2)
    /\ Forall2 fresh_dict cars results1
    /\ forallb DNF results1 = false
    /\ same_tape g1 g2
    /\ let created :=
         create_race default_race_id
           (if String.eqb race_name "" then "Rally" else race_name)
           d fee p1 p2 p3 s in
       let race_id := fst created in
       start_race default_race_id race_name d fee p1 p2 p3 preset cars s g
       = Some (Completed race_id (final_results results1)
                 (final_finishers results1)
                 (settled_store (snd created)
                    (map (entry_fee_row race_id fee race_name)
                       (participating_team_ids_of cars)
                     ++ prize_credits race_id race_name 1 [p1; p2; p3]
                          (map (team_of (final_results results1))
                             (final_finishers results1)))
                    (map (race_result_row race_id) (final_results results1)))
                 g2).
Proof.
  intros Hne.
  destruct (collect_results_runs d preset cars [] g)
    as (results0 & g1 & Hcollect & Hfresh0 & Hg1).
  cbn [app] in Hcollect.
  destruct (rescue_runs d cars results0 g1 Hne Hfresh0)
    as (results1 & g2 & Hrescue & Hfresh1 & Hfin & Hg2).
  exists results0, g1, results1, g2.
  do 7 (split; [assumption|]).
  intros created race_id.
  unfold start_race. destruct cars as [|c cars']; [congruence|].
  set (cars := c :: cars') in *.
  fold created. destruct created as [rid s_race] eqn:Hcreated.
  cbn [fst snd] in *. subst race_id.
  rewrite Hcollect. cbn [mbind option_bind].
  rewrite Hrescue. cbn [mbind option_bind].
  rewrite sort_finishers_runs.
  2: { intros i Hi. apply refs_not_DNF_elem in Hi as (_ & r & Hr & Hd).
       rewrite Nat.sub_0_r in Hr.
       destruct (fresh_dicts_lookup _ _ _ _ Hfresh1 Hr) as [_ Ht].
       destruct (TIME_MIN r) as [t|] eqn:Htime.
       - exists r, t. auto.
       - destruct Ht as [Ht _]. rewrite Ht in Hd by reflexivity. discriminate. }
  cbn [mbind option_bind]. fold (final_finishers results1).
  destruct (ranking_runs (final_finishers results1) results1)
    as (results2 & Hassign & Hfinal).
  { apply final_finishers_NoDup. }
  { intros i Hi. apply final_finishers_elem in Hi as (r & Hr & _).
    eapply lookup_lt_Some. exact Hr. }
  { apply Forall_forall. intros r Hr.
    apply list_elem_of_lookup in Hr as [i Hr].
    eapply fresh_dicts_lookup; eauto. }
  rewrite Hassign. cbn [mbind option_bind].
  rewrite Hfinal. fold (final_results results1).
  rewrite collect_entry_fees_rows.
  rewrite (pay_prizes_runs rid race_name [p1; p2; p3] (final_results results1)
             (final_finishers results1)).
  2: { intros i Hi. apply final_finishers_elem in Hi as (r & Hr & _).
       apply lookup_lt_is_Some. unfold final_results.
       rewrite length_imap. eapply lookup_lt_Some. exact Hr. }
  2: { cbn [length]. lia. }
  cbn [mbind option_bind drop].
  rewrite persist_results_runs.
  2: { apply Forall_forall. intros r Hr.
       apply list_elem_of_lookup in Hr as [i Hr]. unfold final_results in Hr.
       rewrite list_lookup_imap in Hr.
       destruct (results1 !! i); [|discriminate].
       injection Hr as <-. cbn. eauto. }
  cbn [mbind option_bind]. unfold settled_store.
  rewrite record_all_app. reflexivity.
Qed.

End StartRaceRuns.

(** ** Ranking of a settled race *)

Lemma StronglySorted_lookup_lt {A : Type} (R : relation A) (l : list A) :
  StronglySorted R l ->
  forall j j' x y,
  (j < j')%nat -> l !! j = Some x -> l !! j' = Some y -> R x y.
Proof.
  induction 1 as [|a rest Hrest IH Ha]; intros j j' x y Hlt Hj Hj'.
  - discriminate.
  - destruct j' as [|j']; [lia|]. cbn in Hj'. destruct j as [|j].
    + injection Hj as <-. rewrite Forall_forall in Ha. apply Ha.
      eapply list_elem_of_lookup_2. exact Hj'.
    + cbn in Hj. apply (IH j j'); [lia | assumption | assumption].
Qed.

Lemma final_results_lookup (results1 : list ResultDict) (i : nat)
    (r : ResultDict) :
  final_results results1 !! i = Some r
  <-> exists r1, results1 !! i = Some r1
      /\ r = set_POSITION (rank_in 1 (final_finishers results1) i) r1.
Proof.
  unfold final_results. rewrite list_lookup_imap.
  destruct (results1 !! i) as [r1|]; cbn.
  - split.
    + intros [= <-]. eauto.
    + intros (r1' & [= <-] & ->). reflexivity.
  - split; [discriminate | intros (r1' & H & _); discriminate].
Qed.

Lemma finishers_count_imap (f : nat -> ResultDict -> ResultDict)
    (results : list ResultDict) :
  (forall i r, DNF (f i r) = DNF r) ->
  length (List.filter (fun r => negb (DNF r)) (imap f results))
  = length (List.filter (fun r => negb (DNF r)) results).
Proof.
  revert f. induction results as [|r rest IH]; intros f Hf.
  - reflexivity.
  - cbn [imap List.filter]. rewrite Hf.
    destruct (negb (DNF r)); cbn [length]; rewrite IH; auto;
      intros i r'; apply Hf.
Qed.

Lemma final_finishers_length (results1 : list ResultDict) :
  length (final_finishers results1)
  = length (List.filter (fun r => negb (DNF r)) (final_results results1)).
Proof.
  unfold final_results. rewrite finishers_count_imap by reflexivity.
  unfold final_finishers. rewrite ranked_perm. apply refs_not_DNF_length.
Qed.

(** The reference at place [j] of the ranked finishers is the dict that
    holds position [j + 1]. *)
Lemma finisher_holds_rank (results1 : list ResultDict) (j i : nat) :
  final_finishers results1 !! j = Some i
  <-> exists r, final_results results1 !! i = Some r
      /\ d_POSITION r = Some (Some (S j)).
Proof.
  split.
  - intros Hj.
    assert (Hi : i ∈ final_finishers results1)
      by (eapply list_elem_of_lookup_2; exact Hj).
    apply final_finishers_elem in Hi as (r1 & Hr1 & _).
    exists (set_POSITION (rank_in 1 (final_finishers results1) i) r1).
    split; [apply final_results_lookup; eauto|].
    cbn. rewrite (rank_in_lookup _ (final_finishers_NoDup results1) 1 j i Hj).
    reflexivity.
  - intros (r & Hr & Hpos).
    apply final_results_lookup in Hr as (r1 & _ & ->). cbn in Hpos.
    injection Hpos as Hpos. apply rank_in_Some in Hpos as (j' & Hj' & Heq).
    replace j with j' by lia. exact Hj'.
Qed.

(** Every dict of a settled race has the key "POSITION", and a rank and
    a time exactly when it is not DNF. *)
Lemma settled_dict (cars : list Car) (results1 : list ResultDict) (i : nat)
    (r : ResultDict) :
  Forall2 fresh_dict cars results1 ->
  final_results results1 !! i = Some r ->
  exists rank, d_POSITION r = Some rank
    /\ (is_Some rank <-> DNF r = false)
    /\ (is_Some (TIME_MIN r) <-> DNF r = false).
Proof.
  intros Hfresh Hr. apply final_results_lookup in Hr as (r1 & Hr1 & ->).
  destruct (fresh_dicts_lookup _ _ _ _ Hfresh Hr1) as [_ Htime].
  exists (rank_in 1 (final_finishers results1) i). cbn.
  split; [reflexivity|]. split.
  - destruct (rank_in 1 (final_finishers results1) i) as [q|] eqn:Hrank.
    + split; [|eauto]. intros _.
      apply rank_in_Some in Hrank as (j & Hj & _).
      apply list_elem_of_lookup_2, final_finishers_elem in Hj
        as (r1' & Hr1' & Hd).
      congruence.
    + split; [intros [q Hq]; discriminate|]. intros Hd.
      apply rank_in_None in Hrank. exfalso. apply Hrank.
      apply final_finishers_elem. eauto.
  - destruct (TIME_MIN r1) as [t|]; destruct (DNF r1);
      split; intros H; try reflexivity; try eauto; try discriminate.
    + destruct Htime as [_ Htime]. specialize (Htime eq_refl). discriminate.
    + destruct H as [t H]. discriminate.
    + destruct Htime as [Htime _]. specialize (Htime eq_refl). discriminate.
Qed.

Lemma ranked_times_ordered (results1 : list ResultDict)
    (i i' p p' : nat) (r r' : ResultDict) (t t' : Q) :
  final_results results1 !! i = Some r ->
  final_results results1 !! i' = Some r' ->
  d_POSITION r = Some (Some p) -> d_POSITION r' = Some (Some p') ->
  TIME_MIN r = Some t -> TIME_MIN r' = Some t' ->
  (p <= p')%nat -> t <= t'.
Proof.
  intros Hr Hr' Hp Hp' Ht Ht' Hle.
  destruct p as [|j].
  { apply final_results_lookup in Hr as (r1 & _ & ->). cbn in Hp.
    injection Hp as Hp. apply rank_in_Some in Hp as (? & _ & ?). lia. }
  destruct p' as [|j']; [lia|].
  assert (Hj : final_finishers results1 !! j = Some i)
    by (apply finisher_holds_rank; eauto).
  assert (Hj' : final_finishers results1 !! j' = Some i')
    by (apply finisher_holds_rank; eauto).
  assert (Htime : time_of results1 i = t).
  { apply final_results_lookup in Hr as (r1 & Hr1 & ->).
    unfold time_of. rewrite Hr1. cbn in *. rewrite Ht. reflexivity. }
  assert (Htime' : time_of results1 i' = t').
  { apply final_results_lookup in Hr' as (r1 & Hr1 & ->).
    unfold time_of. rewrite Hr1. cbn in *. rewrite Ht'. reflexivity. }
  destruct (decide (j = j')) as [<- | Hne].
  - assert (i = i') by congruence. subst i'. rewrite <- Htime, <- Htime'. lra.
  - rewrite <- Htime, <- Htime'.
    apply (StronglySorted_lookup_lt _ _
             (ranked_sorted results1 (refs_not_DNF 0 results1)) j j');
      [lia | exact Hj | exact Hj'].
Qed.

Lemma some_finisher_count (results : list ResultDict) :
  forallb DNF results = false ->
  (1 <= length (List.filter (fun r => negb (DNF r)) results))%nat.
Proof.
  induction results as [|r rest IH]; cbn [forallb List.filter].
  - discriminate.
  - destruct (DNF r); cbn [negb andb length]; [exact IH | lia].
Qed.

Section SettledStore.

Variable default_race_id : list RaceRow -> option Z.

Lemma settled_store_fields (name : string) (d fee p1 p2 p3 : Q) (s : Store)
    (txs : list TransactionRow) (rows : list RaceResultRow) :
  let created := create_race default_race_id name d fee p1 p2 p3 s in
  let s' := settled_store (snd created) txs rows in
  TRANSACTIONS s' = TRANSACTIONS s ++ txs
  /\ RACE_RESULTS s' = RACE_RESULTS s ++ rows
  /\ RACES s'
     = RACES s ++ [{| RACE_ID := default_race_id (RACES s); RACE_NAME := name;
                      DISTANCE_KM := d; ENTRY_FEE := fee; PRIZE_FIRST := p1;
                      PRIZE_SECOND := p2; PRIZE_THIRD := p3 |}]
  /\ TEAMS s' = map (update_budget_all txs) (TEAMS s).
Proof.
  intros created s'. subst s' created. unfold settled_store.
  cbn [TEAMS TRANSACTIONS RACES RACE_RESULTS].
  destruct (record_all_fields txs (snd (create_race default_race_id name d fee
                                          p1 p2 p3 s)))
    as (Ht & Hx & Hr & Hrr).
  rewrite Ht, Hx, Hr, Hrr. cbn. auto.
Qed.

(** C2.  A race over a non-empty roster settles, and in its outcome
    every vehicle has a rank exactly when it is not DNF and a finishing
    time exactly when it is not DNF; the ranks given are exactly
    1, ..., finisherCount, each to one vehicle, and a vehicle ranked
    before another has a finishing time no greater. *)
Theorem settled_race_ranking (race_name : string) (d fee p1 p2 p3 : Q)
    (preset : string) (cars : list Car) (s : Store) (g : Rng) :
  cars <> [] ->
  exists race_id results finishers s' g',
    start_race default_race_id race_name d fee p1 p2 p3 preset cars s g
    = Some (Completed race_id results finishers s' g')
    /\ length results = length cars
    /\ RACE_RESULTS s' = RACE_RESULTS s ++ map (race_result_row race_id) results
    /\ (forall i r, results !! i = Some r ->
        exists rank, d_POSITION r = Some rank
          /\ (is_Some rank <-> DNF r = false)
          /\ (is_Some (TIME_MIN r) <-> DNF r = false))
    /\ let k := length (List.filter (fun r => negb (DNF r)) results) in
       (1 <= k)%nat
       /\ (forall p, (1 <= p <= k)%nat
             <-> exists i r, results !! i = Some r
                   /\ d_POSITION r = Some (Some p))
       /\ (forall i i' r r' p,
             results !! i = Some r -> results !! i' = Some r' ->
             d_POSITION r = Some (Some p) -> d_POSITION r' = Some (Some p) ->
             i = i')
       /\ (forall i i' r r' p p' t t',
             results !! i = Some r -> results !! i' = Some r' ->
             d_POSITION r = Some (Some p) -> d_POSITION r' = Some (Some p') ->
             TIME_MIN r = Some t -> TIME_MIN r' = Some t' ->
             (p <= p')%nat -> t <= t').
Proof.
  intros Hne.
  destruct (start_race_runs default_race_id race_name d fee p1 p2 p3 preset
              cars s g Hne)
    as (results0 & g1 & results1 & g2 & _ & _ & _ & _ & Hfresh & Hfin & _ & Hrun).
  cbv zeta in Hrun.
  eexists _, _, _, _, _. split; [exact Hrun|].
  split.
  { unfold final_results. rewrite length_imap. symmetry.
    eapply Forall2_length. exact Hfresh. }
  split; [apply settled_store_fields|].
  split; [intros i r; apply settled_dict with (cars := cars); exact Hfresh|].
  intros k. subst k. rewrite <- final_finishers_length.
  split.
  { rewrite final_finishers_length. unfold final_results.
    rewrite finishers_count_imap by reflexivity.
    apply some_finisher_count. exact Hfin. }
  split; [|split].
  - intros p. split.
    + intros [Hlo Hhi].
      destruct (lookup_lt_is_Some_2 (final_finishers results1) (p - 1))
        as [i Hi]; [lia|].
      apply finisher_holds_rank in Hi as (r & Hr & Hpos).
      exists i, r. split; [exact Hr|]. rewrite Hpos. do 2 f_equal. lia.
    + intros (i & r & Hr & Hpos). destruct p as [|j].
      * apply final_results_lookup in Hr as (r1 & _ & ->). cbn in Hpos.
        injection Hpos as Hpos. apply rank_in_Some in Hpos as (? & _ & ?). lia.
      * assert (Hj : final_finishers results1 !! j = Some i)
          by (apply finisher_holds_rank; eauto).
        apply lookup_lt_Some in Hj. lia.
  - intros i i' r r' p Hr Hr' Hp Hp'. destruct p as [|j].
    + apply final_results_lookup in Hr as (r1 & _ & ->). cbn in Hp.
      injection Hp as Hp. apply rank_in_Some in Hp as (? & _ & ?). lia.
    + assert (Hj : final_finishers results1 !! j = Some i)
        by (apply finisher_holds_rank; eauto).
      assert (Hj' : final_finishers results1 !! j = Some i')
        by (apply finisher_holds_rank; eauto).
      congruence.
  - intros i i' r r' p p' t t'. apply ranked_times_ordered.
Qed.

End SettledStore.

Lemma settled_race_ranking_witness :
  exists race_id results finishers s' g',
    start_race demo_race_id "Rally" 100 1000 5000 3000 1000 "Mixed (default)"
      demo_cars demo_store half_tape
    = Some (Completed race_id results finishers s' g')
    /\ length results = 3%nat.
Proof.
  destruct (settled_race_ranking demo_race_id "Rally" 100 1000 5000 3000 1000
              "Mixed (default)" demo_cars demo_store half_tape)
    as (race_id & results & finishers & s' & g' & Hrun & Hlen & _);
    [discriminate|].
  exists race_id, results, finishers, s', g'. split; [exact Hrun | exact Hlen].
Defined.

(** ** The all-DNF roster *)

Lemma refs_not_DNF_all_dnf (results : list ResultDict) (k : nat) :
  Forall (fun r => DNF r = true) results -> refs_not_DNF k results = [].
Proof.
  intros Hall. revert k. induction Hall as [|r rest Hr _ IH]; intros k.
  - reflexivity.
  - cbn [refs_not_DNF]. rewrite Hr. apply IH.
Qed.

Lemma final_single (r : ResultDict) (rest : list ResultDict) :
  DNF r = false -> Forall (fun r => DNF r = true) rest ->
  final_finishers (r :: rest) = [0%nat]
  /\ final_results (r :: rest)
     = set_POSITION (Some 1%nat) r :: map (set_POSITION None) rest.
Proof.
  intros Hr Hrest.
  assert (Hfin : final_finishers (r :: rest) = [0%nat]).
  { unfold final_finishers. cbn [refs_not_DNF]. rewrite Hr. cbn [negb].
    rewrite refs_not_DNF_all_dnf by exact Hrest. reflexivity. }
  split; [exact Hfin|].
  unfold final_results. rewrite Hfin. cbn [imap]. f_equal.
  apply list_eq. intros i. rewrite list_lookup_imap, lookup_map.
  destruct (rest !! i); reflexivity.
Qed.

Lemma fallback_time_range (d : Q) (g : Rng) :
  0 <= d -> unit_tape g ->
  d / 3 <= fallback_time d g /\ fallback_time d g <= d / 2.
Proof.
  intros Hd Hg. unfold fallback_time.
  destruct (Hg (cursor g)) as [Hlo Hhi].
  set (u := tape g (cursor g)) in *.
  assert (Hsix : d / 2 - d / 3 == d * (1 # 6)) by field.
  assert (Hw : 0 <= d / 2 - d / 3) by (rewrite Hsix; lra).
  assert (H0 : 0 <= (d / 2 - d / 3) * u)
    by (apply Qmult_le_0_compat; [exact Hw | exact Hlo]).
  assert (H1 : (d / 2 - d / 3) * u <= (d / 2 - d / 3) * 1).
  { rewrite !(Qmult_comm (d / 2 - d / 3)).
    apply Qmult_le_compat_r; [lra | exact Hw]. }
  split; lra.
Qed.

Lemma dnf_rows (race_id : Z) (rest : list ResultDict) :
  Forall (fun r => DNF r = true /\ TIME_MIN r = None) rest ->
  let rows := map (race_result_row race_id) (map (set_POSITION None) rest) in
  map STATUS rows = repeat "DNF" (length rest)
  /\ map FINISH_TIME_MINUTES rows = repeat None (length rest)
  /\ map POSITION rows = repeat None (length rest).
Proof.
  induction 1 as [|r rest [Hd Ht] _ IH]; cbn [map length repeat].
  - auto.
  - destruct IH as (IH1 & IH2 & IH3). cbv zeta. rewrite IH1, IH2, IH3.
    unfold race_result_row, status_of. cbn. rewrite Hd, Ht. auto.
Qed.

Section AllDnf.

Variable default_race_id : list RaceRow -> option Z.

(** C1.  When the simulation marks every vehicle of a non-empty roster
    DNF, no dict records a time, so the smallest key of the rescue
    block is held by all and the first vehicle of the roster is chosen;
    it is forced to FINISHED with the time drawn by
    uniform(distance/3, distance/2), and every other vehicle stays DNF:
    the race writes one FINISHED row, ranked 1, and N-1 DNF rows. *)
Theorem all_dnf_forces_one_finisher (race_name : string)
    (d fee p1 p2 p3 : Q) (preset : string) (cars : list Car) (s : Store)
    (g : Rng) (results0 : list ResultDict) (g1 : Rng) :
  cars <> [] ->
  collect_results d preset cars [] g = Some (results0, g1) ->
  forallb DNF results0 = true ->
  exists r0 rest race_id s' rows,
    results0 = r0 :: rest
    /\ length results0 = length cars
    /\ Forall (fun r => TIME_MIN r = None) results0
    /\ min_range_by_key (map rescue_key results0) = Some 0%nat
    /\ (forall j k, map rescue_key results0 !! j = Some k ->
        Py.lt_inf k (rescue_key r0) = false)
    /\ uniform (d / 3) (d / 2) g1 = (fallback_time d g1, advance 1 g1)
    /\ (0 <= d -> unit_tape g ->
        d / 3 <= fallback_time d g1 /\ fallback_time d g1 <= d / 2)
    /\ start_race default_race_id race_name d fee p1 p2 p3 preset cars s g
       = Some (Completed race_id
                 (set_POSITION (Some 1%nat)
                    (set_TIME_MIN (Some (fallback_time d g1))
                       (set_DNF false r0))
                  :: map (set_POSITION None) rest)
                 [0%nat] s' (advance 1 g1))
    /\ Forall (fun r => DNF r = true /\ TIME_MIN r = None) rest
    /\ RACE_RESULTS s' = RACE_RESULTS s ++ rows
    /\ map STATUS rows = "FINISHED" :: repeat "DNF" (length cars - 1)
    /\ map FINISH_TIME_MINUTES rows
       = Some (fallback_time d g1) :: repeat None (length cars - 1)
    /\ map POSITION rows = Some 1%Z :: repeat None (length cars - 1).
Proof.
  intros Hne Hcollect Hall.
  destruct (start_race_runs default_race_id race_name d fee p1 p2 p3 preset
              cars s g Hne)
    as (results0' & g1' & results1 & g2 & Hcollect' & Hfresh & Hg1 & Hrescue
        & _ & _ & _ & Hrun).
  rewrite Hcollect in Hcollect'. injection Hcollect' as <- <-.
  cbv zeta in Hrun.
  assert (Hlen : length results0 = length cars)
    by (symmetry; eapply Forall2_length; exact Hfresh).
  assert (Hdnf : Forall (fun r => DNF r = true) results0).
  { apply Forall_forall. intros r Hr. rewrite forallb_forall in Hall.
    apply Hall, list_elem_of_In. exact Hr. }
  assert (Hnone : Forall (fun r => TIME_MIN r = None) results0).
  { apply Forall_forall. intros r Hr.
    pose proof (proj1 (Forall_forall _ _) Hdnf r Hr) as Hd.
    apply list_elem_of_lookup in Hr as [i Hi].
    destruct (fresh_dicts_lookup _ _ _ _ Hfresh Hi) as [_ Ht]. tauto. }
  destruct results0 as [|r0 rest].
  { destruct cars; [congruence | discriminate]. }
  destruct (rescue_no_times d r0 rest g1 Hall Hnone) as [Hmin Hforced].
  rewrite Hforced in Hrescue. injection Hrescue as <- <-.
  apply Forall_cons in Hdnf as [Hd0 Hdrest].
  destruct (final_single
              (set_TIME_MIN (Some (fallback_time d g1)) (set_DNF false r0))
              rest eq_refl Hdrest) as [Hfin Hres].
  rewrite Hfin, Hres in Hrun.
  assert (Hrest : Forall (fun r => DNF r = true /\ TIME_MIN r = None) rest).
  { apply Forall_cons in Hnone as [_ Hnone].
    rewrite Forall_forall in Hdrest, Hnone. apply Forall_forall. auto. }
  eexists r0, rest, _, _, _. split; [reflexivity|]. split; [exact Hlen|].
  split; [exact Hnone|]. split; [exact Hmin|]. split.
  { intros j k Hk. rewrite lookup_map in Hk.
    destruct ((r0 :: rest) !! j) as [r|] eqn:Hr; [|discriminate].
    injection Hk as <-. unfold rescue_key.
    rewrite Forall_forall in Hnone.
    rewrite (Hnone r) by (eapply list_elem_of_lookup_2; exact Hr).
    reflexivity. }
  split; [apply uniform_advance|]. split.
  { intros Hd Hg. apply fallback_time_range; [exact Hd|].
    eapply same_tape_unit; [exact Hg1 | exact Hg]. }
  split; [exact Hrun|]. split; [exact Hrest|].
  split; [apply settled_store_fields|].
  destruct (dnf_rows (fst (create_race default_race_id
                             (if String.eqb race_name "" then "Rally"
                              else race_name) d fee p1 p2 p3 s))
              rest Hrest) as (Hs & Ht & Hp).
  cbn [map]. cbn [length] in Hlen.
  replace (length cars - 1)%nat with (length rest) by lia.
  rewrite Hs, Ht, Hp. auto.
Qed.

End AllDnf.

Lemma unlucky_tape_unit : unit_tape unlucky_tape.
Proof. intros n. simpl. lra. Qed.

Lemma all_dnf_forces_one_finisher_witness :
  exists rows : list RaceResultRow,
    map STATUS rows = ["FINISHED"; "DNF"; "DNF"]
    /\ map POSITION rows = [Some 1%Z; None; None]
    /\ 100 / 3 <= fallback_time 100 (advance 12 unlucky_tape)
    /\ fallback_time 100 (advance 12 unlucky_tape) <= 100 / 2.
Proof.
  destruct (all_dnf_forces_one_finisher demo_race_id "Rally" 100 1000 5000
              3000 1000 "Mixed (default)" demo_cars demo_store unlucky_tape
              unlucky_results (advance 12 unlucky_tape))
    as (r0 & rest & race_id & s' & rows & _ & _ & _ & _ & _ & _ & Hrange & _
        & _ & _ & Hstatus & _ & Hpos).
  - discriminate.
  - vm_compute. reflexivity.
  - reflexivity.
  - exists rows. split; [exact Hstatus|]. split; [exact Hpos|].
    apply Hrange; [discriminate | exact unlucky_tape_unit].
Defined.

(** ** Entry fees *)

Lemma sorted_le_NoDup_lt (l : list Z) :
  StronglySorted Z.le l -> NoDup l -> StronglySorted Z.lt l.
Proof.
  induction 1 as [|a rest Hrest IH Ha]; intros Hnd.
  - constructor.
  - apply NoDup_cons in Hnd as [Hnotin Hnd].
    constructor; [apply IH; exact Hnd|].
    apply Forall_forall. intros b Hb. rewrite Forall_forall in Ha.
    pose proof (Ha b Hb). assert (a <> b) by (intros ->; contradiction). lia.
Qed.

Lemma participating_team_ids_spec (cars : list Car) :
  let team_ids := participating_team_ids_of cars in
  StronglySorted Z.lt team_ids
  /\ NoDup team_ids
  /\ (forall t, t ∈ team_ids <-> exists c, c ∈ cars /\ c_TEAM_ID c = t)
  /\ length team_ids = size (list_to_set (map c_TEAM_ID cars) : gset Z)
  /\ (length team_ids <= length cars)%nat.
Proof.
  intros team_ids. subst team_ids. unfold participating_team_ids_of.
  set (ids := list_to_set (map c_TEAM_ID cars) : gset Z).
  assert (Hnd : NoDup (merge_sort Z.le (elements ids)))
    by (rewrite merge_sort_Permutation; apply NoDup_elements).
  assert (Helem : forall t, t ∈ merge_sort Z.le (elements ids)
                            <-> exists c, c ∈ cars /\ c_TEAM_ID c = t).
  { intros t. rewrite merge_sort_Permutation, elem_of_elements. subst ids.
    rewrite elem_of_list_to_set.
    change (map c_TEAM_ID cars) with (c_TEAM_ID <$> cars).
    rewrite list_elem_of_fmap. split; intros (c & H1 & H2); eauto. }
  split; [|split; [exact Hnd | split; [exact Helem | split]]].
  - apply sorted_le_NoDup_lt; [|exact Hnd].
    apply StronglySorted_merge_sort; [apply _ | apply _].
  - rewrite merge_sort_Permutation. reflexivity.
  - rewrite <- (length_map c_TEAM_ID cars).
    apply NoDup_incl_length; [apply NoDup_ListNoDup; exact Hnd|].
    intros t Ht. apply list_elem_of_In in Ht. apply Helem in Ht as (c & Hc & <-).
    apply in_map, list_elem_of_In. exact Hc.
Qed.

Lemma entry_fee_total (race_id : Z) (fee : Q) (race_name : string)
    (team_ids : list Z) :
  amount_sum (map (entry_fee_row race_id fee race_name) team_ids)
  == - (fee * inject_Z (Z.of_nat (length team_ids))).
Proof.
  induction team_ids as [|t rest IH].
  - cbn [map amount_sum foldr length].
    change (inject_Z (Z.of_nat 0)) with 0. lra.
  - cbn [map amount_sum foldr length].
    fold (amount_sum (map (entry_fee_row race_id fee race_name) rest)).
    rewrite IH. cbn [entry_fee_row tx_AMOUNT].
    rewrite Nat2Z.inj_succ. unfold Z.succ. rewrite inject_Z_plus.
    change (inject_Z 1) with 1. lra.
Qed.

Lemma prize_credits_positive (race_id : Z) (race_name : string)
    (prizes : list Q) :
  forall (rank : nat) (teams : list Z),
  Forall (fun x => 0 < tx_AMOUNT x)
    (prize_credits race_id race_name rank prizes teams).
Proof.
  induction prizes as [|amount prizes IH]; intros rank teams.
  - constructor.
  - destruct teams as [|team teams]; [constructor|].
    cbn [prize_credits]. apply Forall_app. split; [|apply IH].
    case_Qlt 0 amount; repeat constructor. exact E.
Qed.

Section Settlement.

Variable default_race_id : list RaceRow -> option Z.

(** C8.  On an empty roster the handler stops on its warning before
    [create_race]: the tables are the ones it was given (no race row, no
    transaction, no budget change, no result row) and no random draw is
    made.  Conversely the handler stops this way on an empty roster
    only, so whenever it stops the persisted state is unchanged. *)
Theorem empty_roster_persists_nothing (race_name : string)
    (d fee p1 p2 p3 : Q) (preset : string) (s : Store) (g : Rng) :
  start_race default_race_id race_name d fee p1 p2 p3 preset [] s g
  = Some (Stopped "No cars available. Please add cars first." s g)
  /\ forall (cars : list Car) (warning : string) (s' : Store) (g' : Rng),
     start_race default_race_id race_name d fee p1 p2 p3 preset cars s g
     = Some (Stopped warning s' g') ->
     cars = [] /\ s' = s /\ g' = g.
Proof.
  split; [reflexivity|].
  intros cars warning s' g' Hstop.
  destruct cars as [|c cars].
  - cbn in Hstop. injection Hstop as _ <- <-. auto.
  - destruct (start_race_runs default_race_id race_name d fee p1 p2 p3 preset
                (c :: cars) s g)
      as (results0 & g1 & results1 & g2 & _ & _ & _ & _ & _ & _ & _ & Hrun);
      [discriminate|].
    cbv zeta in Hrun. rewrite Hrun in Hstop. discriminate.
Qed.

(** C4.  A race over a non-empty roster records, right after the
    transactions already in the ledger, one debit of -entry_fee per
    distinct team of the roster, in strictly ascending order of team
    identifier and tagged with the race name; whatever it records after
    them is a credit.  The debits total entry_fee times the number of
    distinct teams, which is at most the number of vehicles. *)
Theorem entry_fee_once_per_team (race_name : string) (d fee p1 p2 p3 : Q)
    (preset : string) (cars : list Car) (s : Store) (g : Rng) :
  cars <> [] ->
  let team_ids := participating_team_ids_of cars in
  exists race_id results finishers s' g' debits credits,
    start_race default_race_id race_name d fee p1 p2 p3 preset cars s g
    = Some (Completed race_id results finishers s' g')
    /\ TRANSACTIONS s' = TRANSACTIONS s ++ debits ++ credits
    /\ debits
       = map (fun team_id =>
                {| tx_TEAM_ID := team_id; tx_RACE_ID := Some race_id;
                   tx_AMOUNT := - fee; tx_CURRENCY := "USD";
                   tx_REASON := "Entry fee for " ++ race_name |})
             team_ids
    /\ Forall (fun x => 0 < tx_AMOUNT x) credits
    /\ StronglySorted Z.lt team_ids
    /\ NoDup team_ids
    /\ (forall t, t ∈ team_ids <-> exists c, c ∈ cars /\ c_TEAM_ID c = t)
    /\ length team_ids = size (list_to_set (map c_TEAM_ID cars) : gset Z)
    /\ (length team_ids <= length cars)%nat
    /\ amount_sum debits == - (fee * inject_Z (Z.of_nat (length team_ids))).
Proof.
  intros Hne team_ids.
  destruct (start_race_runs default_race_id race_name d fee p1 p2 p3 preset
              cars s g Hne)
    as (results0 & g1 & results1 & g2 & _ & _ & _ & _ & _ & _ & _ & Hrun).
  cbv zeta in Hrun.
  destruct (participating_team_ids_spec cars) as (Hsorted & Hnd & Helem & Hsize & Hle).
  eexists _, _, _, _, _, _, _. split; [exact Hrun|].
  split; [apply settled_store_fields|].
  split; [reflexivity|].
  split; [apply prize_credits_positive|].
  do 5 (split; [assumption|]).
  apply entry_fee_total.
Qed.

End Settlement.

Lemma entry_fee_once_per_team_witness :
  exists race_id results finishers s' g' credits,
    start_race demo_race_id "Rally" 100 1000 5000 3000 1000
      "Mixed (default)" demo_cars demo_store half_tape
    = Some (Completed race_id results finishers s' g')
    /\ TRANSACTIONS s'
       = [{| tx_TEAM_ID := 1; tx_RACE_ID := Some race_id;
             tx_AMOUNT := - (1000); tx_CURRENCY := "USD";
             tx_REASON := "Entry fee for Rally" |};
          {| tx_TEAM_ID := 2; tx_RACE_ID := Some race_id;
             tx_AMOUNT := - (1000); tx_CURRENCY := "USD";
             tx_REASON := "Entry fee for Rally" |}] ++ credits.
Proof.
  destruct (entry_fee_once_per_team demo_race_id "Rally" 100 1000 5000 3000 1000
              "Mixed (default)" demo_cars demo_store half_tape)
    as (race_id & results & finishers & s' & g' & debits & credits
        & Hrun & Htx & Hdebits & _); [discriminate|].
  exists race_id, results, finishers, s', g', credits.
  split; [exact Hrun|]. rewrite Htx, Hdebits. reflexivity.
Defined.

(** ** Prizes *)

Lemma prize_credits_elem (race_id : Z) (race_name : string) (prizes : list Q) :
  forall (rank : nat) (teams : list Z) (x : TransactionRow),
  x ∈ prize_credits race_id race_name rank prizes teams
  <-> exists j amount team,
        prizes !! j = Some amount /\ teams !! j = Some team
        /\ 0 < amount
        /\ x = prize_row race_id race_name (rank + j) team amount.
Proof.
  induction prizes as [|a prizes IH]; intros rank teams x.
  - cbn. split; [intros H; inversion H|].
    intros (j & amount & team & H & _). discriminate.
  - destruct teams as [|t teams].
    + cbn. split; [intros H; inversion H|].
      intros (j & amount & team & _ & H & _). discriminate.
    + cbn [prize_credits]. rewrite elem_of_app, IH. split.
      * intros [Hhead | (j & amount & team & Hp & Ht & Hpos & ->)].
        -- case_Qlt 0 a; [|inversion Hhead].
           apply list_elem_of_singleton in Hhead as ->.
           exists 0%nat, a, t. rewrite Nat.add_0_r. auto.
        -- exists (S j), amount, team.
           replace (rank + S j)%nat with (S rank + j)%nat by lia. auto.
      * intros ([|j] & amount & team & Hp & Ht & Hpos & ->).
        -- left. injection Hp as ->. injection Ht as ->.
           apply Qlt_bool_true in Hpos. rewrite Hpos, Nat.add_0_r.
           apply list_elem_of_singleton. reflexivity.
        -- right. exists j, amount, team.
           replace (rank + S j)%nat with (S rank + j)%nat by lia. auto.
Qed.

Lemma prize_credits_length (race_id : Z) (race_name : string)
    (prizes : list Q) :
  forall (rank : nat) (teams : list Z),
  (length (prize_credits race_id race_name rank prizes teams)
   <= Nat.min (length prizes) (length teams))%nat.
Proof.
  induction prizes as [|a prizes IH]; intros rank teams.
  - cbn. lia.
  - destruct teams as [|t teams]; [cbn; lia|].
    cbn [prize_credits]. rewrite length_app.
    specialize (IH (S rank) teams).
    destruct (QMicromega.Qlt_bool 0 a); cbn [length]; lia.
Qed.

Lemma prize_credits_total (race_id : Z) (race_name : string)
    (prizes : list Q) :
  forall (rank : nat) (teams : list Z),
  amount_sum (prize_credits race_id race_name rank prizes teams)
  == paid_sum (take (length teams) prizes).
Proof.
  induction prizes as [|a prizes IH]; intros rank teams.
  - destruct teams; reflexivity.
  - destruct teams as [|t teams]; [reflexivity|].
    cbn [prize_credits length take]. unfold paid_sum. cbn [map foldr].
    fold (paid_sum (take (length teams) prizes)).
    rewrite <- (IH (S rank) teams). unfold paid.
    destruct (QMicromega.Qlt_bool 0 a);
      cbn [app amount_sum foldr tx_AMOUNT prize_row];
      fold (amount_sum (prize_credits race_id race_name (S rank) prizes teams));
      lra.
Qed.

Lemma paid_sum_nonneg (prizes : list Q) :
  Forall (fun p => 0 <= p) prizes -> paid_sum prizes == foldr Qplus 0 prizes.
Proof.
  induction 1 as [|p rest Hp _ IH]; [reflexivity|].
  unfold paid_sum in *. cbn [map foldr]. rewrite IH. unfold paid.
  case_Qlt 0 p; lra.
Qed.

Section Prizes.

Variable default_race_id : list RaceRow -> option Z.

(** C5.  A race over a non-empty roster records, after the entry-fee
    debits, exactly the prize credits of the ranks 1..min(3,
    finisherCount) whose configured prize is above zero, in rank order,
    each to the team of the vehicle holding that rank and for that
    amount.  They are at most three, and they total the configured
    prizes above zero of those ranks (all of the configured prizes of
    those ranks when none is negative). *)
Theorem prizes_to_top_three (race_name : string) (d fee p1 p2 p3 : Q)
    (preset : string) (cars : list Car) (s : Store) (g : Rng) :
  cars <> [] ->
  exists race_id results finishers s' g' debits credits,
    start_race default_race_id race_name d fee p1 p2 p3 preset cars s g
    = Some (Completed race_id results finishers s' g')
    /\ TRANSACTIONS s' = TRANSACTIONS s ++ debits ++ credits
    /\ Forall (fun x => tx_AMOUNT x = - fee) debits
    /\ let k := length (List.filter (fun r => negb (DNF r)) results) in
       length finishers = k
       /\ credits
          = prize_credits race_id race_name 1 [p1; p2; p3]
              (map (team_of results) finishers)
       /\ (forall x, x ∈ credits <->
           exists rank amount i r,
             (1 <= rank <= Nat.min 3 k)%nat
             /\ [p1; p2; p3] !! (rank - 1)%nat = Some amount
             /\ 0 < amount
             /\ results !! i = Some r
             /\ d_POSITION r = Some (Some rank)
             /\ x = prize_row race_id race_name rank (d_TEAM_ID r) amount)
       /\ (length credits <= Nat.min 3 k)%nat
       /\ amount_sum credits == paid_sum (take k [p1; p2; p3])
       /\ (0 <= p1 -> 0 <= p2 -> 0 <= p3 ->
           amount_sum credits == foldr Qplus 0 (take k [p1; p2; p3])).
Proof.
  intros Hne.
  destruct (start_race_runs default_race_id race_name d fee p1 p2 p3 preset
              cars s g Hne)
    as (results0 & g1 & results1 & g2 & _ & _ & _ & _ & _ & _ & _ & Hrun).
  cbv zeta in Hrun.
  eexists _, _, _, _, _, _, _. split; [exact Hrun|].
  split; [apply settled_store_fields|].
  split; [apply Forall_map, Forall_forall; reflexivity|].
  intros k. subst k. rewrite <- final_finishers_length.
  set (fin := final_finishers results1).
  set (results := final_results results1).
  set (rid := fst (create_race _ _ _ _ _ _ _ _)).
  assert (Hteam : forall i r, results !! i = Some r -> team_of results i = d_TEAM_ID r).
  { intros i r Hr. unfold team_of. rewrite Hr. reflexivity. }
  split; [reflexivity|]. split; [reflexivity|]. split; [|split; [|split]].
  - intros x. rewrite prize_credits_elem. split.
    + intros (j & amount & team & Hp & Ht & Hpos & ->).
      rewrite lookup_map in Ht.
      destruct (fin !! j) as [i|] eqn:Hj; [|discriminate].
      injection Ht as <-.
      pose proof (lookup_lt_Some _ _ _ Hp) as Hj3. cbn [length] in Hj3.
      pose proof (lookup_lt_Some _ _ _ Hj) as Hjk.
      apply finisher_holds_rank in Hj as (r & Hr & Hrank).
      exists (S j), amount, i, r.
      rewrite (Hteam i r Hr). cbn [Nat.sub]. rewrite Nat.sub_0_r.
      repeat split; auto; lia.
    + intros (rank & amount & i & r & Hrange & Hp & Hpos & Hr & Hrank & ->).
      destruct rank as [|j]; [lia|].
      cbn [Nat.sub] in Hp. rewrite Nat.sub_0_r in Hp.
      assert (Hj : fin !! j = Some i) by (apply finisher_holds_rank; eauto).
      exists j, amount, (d_TEAM_ID r).
      rewrite lookup_map, Hj. cbn. rewrite (Hteam i r Hr). auto.
  - etransitivity; [apply prize_credits_length|].
    rewrite length_map. cbn [length]. lia.
  - rewrite prize_credits_total, length_map. reflexivity.
  - intros H1 H2 H3.
    rewrite prize_credits_total, length_map.
    apply paid_sum_nonneg. apply Forall_take. repeat constructor; assumption.
Qed.

End Prizes.

Lemma prizes_to_top_three_witness :
  exists race_id results finishers s' g' debits credits,
    start_race demo_race_id "Rally" 100 1000 5000 3000 0
      "Mixed (default)" demo_cars demo_store half_tape
    = Some (Completed race_id results finishers s' g')
    /\ TRANSACTIONS s' = TRANSACTIONS demo_store ++ debits ++ credits
    /\ amount_sum credits
       == foldr Qplus 0
            (take (length (List.filter (fun r => negb (DNF r)) results))
               [5000; 3000; 0]).
Proof.
  destruct (prizes_to_top_three demo_race_id "Rally" 100 1000 5000 3000 0
              "Mixed (default)" demo_cars demo_store half_tape)
    as (race_id & results & finishers & s' & g' & debits & credits
        & Hrun & Htx & _ & _ & _ & _ & _ & _ & Hsum); [discriminate|].
  exists race_id, results, finishers, s', g', debits, credits.
  split; [exact Hrun|]. split; [exact Htx|].
  apply Hsum; discriminate.
Defined.

(** ** Worked examples *)

Example handling_scale_examples :
  handling_scale_of 85 == 0.85 /\ handling_scale_of 10 == 0.5
  /\ handling_scale_of 400 == 1.
Proof. repeat split; vm_compute; reflexivity. Qed.

Example accel_scale_examples :
  accel_scale_of 2 == 1.05 /\ accel_scale_of 15 == 0.9
  /\ accel_scale_of 5.2 == 1.016.
Proof. repeat split; vm_compute; reflexivity. Qed.

Example finish_probability_examples :
  finish_probability_of 1.0 == 0.99 /\ finish_probability_of 0 == 0.05
  /\ finish_probability_of 0.92 == 0.92.
Proof. repeat split; vm_compute; reflexivity. Qed.

(** A car that cannot move crawls at 60 km/h: 100 km take 100 minutes,
    and the time is returned with the DNF flag. *)
Example crawl_speed_run :
  (fun '((t, dnf), g) => (Qred t, dnf, cursor g))
    <$> simulate_time_minutes 0 0 0 0 100 "Fast asphalt" half_tape
  = Some (100, true, 2%nat).
Proof. vm_compute. reflexivity. Qed.

Example or_inf_examples :
  Py.or_inf None = None /\ Py.or_inf (Some 0) = None
  /\ Py.or_inf (Some 12.5) = Some 12.5.
Proof. repeat split. Qed.

Example min_range_by_key_examples :
  min_range_by_key [None; Some 3; Some 2; Some 2] = Some 2%nat
  /\ min_range_by_key [None; None; None] = Some 0%nat
  /\ min_range_by_key [] = None.
Proof. repeat split. Qed.

Example sort_is_stable :
  map snd (stable_sort_by_time
             [(3, 0%nat); (1, 1%nat); (6 # 2, 2%nat); (1, 3%nat)])
  = [1; 3; 0; 2]%nat.
Proof. reflexivity. Qed.

Example empty_roster_demo :
  start_race demo_race_id "Rally" 100 1000 5000 3000 1000 "Mixed (default)"
    [] demo_store half_tape
  = Some (Stopped "No cars available. Please add cars first."
            demo_store half_tape).
Proof. reflexivity. Qed.

(** The example scenario of the specification, with every raw draw one
    half: both cars finish, Car A ahead; two debits of 1000 and the
    first two prizes. *)
Example scenario_run :
  at_a_glance
    (start_race demo_race_id "Cup" 100 1000 5000 3000 1000 "Fast asphalt"
       scenario_cars demo_store half_tape)
  = Some ([(1%Z, - (1000), "Entry fee for Cup");
           (2%Z, - (1000), "Entry fee for Cup");
           (1%Z, 5000, "Prize for position 1 in Cup");
           (2%Z, 3000, "Prize for position 2 in Cup")],
          [(1%Z, Some (725000 # 23749), "FINISHED", Some 1%Z);
           (2%Z, Some (14500000 # 458367), "FINISHED", Some 2%Z)],
          [(1%Z, Some 14000); (2%Z, Some 10000)]).
Proof. vm_compute. reflexivity. Qed.

(** The seed roster when every reliability trial fails: the first car is
    forced to finish with the fallback time 100/3 + (100/2 - 100/3) *
    0.995, and its team alone is paid. *)
Example all_dnf_run :
  at_a_glance
    (start_race demo_race_id "Rally" 100 1000 5000 3000 1000
       "Mixed (default)" demo_cars demo_store unlucky_tape)
  = Some ([(1%Z, - (1000), "Entry fee for Rally");
           (2%Z, - (1000), "Entry fee for Rally");
           (1%Z, 5000, "Prize for position 1 in Rally")],
          [(1%Z, Some (599 # 12), "FINISHED", Some 1%Z);
           (2%Z, None, "DNF", None);
           (3%Z, None, "DNF", None)],
          [(1%Z, Some 14000); (2%Z, Some 7000)]).
Proof. vm_compute. reflexivity. Qed.

(** * Further properties of the code *)

(** ** The simulator: monotonicity *)

(** The simulator in terms of the scales the code computes. *)
Lemma simulate_runs_scales (top accel : Q) (handling : Z) (reliability d : Q)
    (preset : string) (g : Rng) :
  exists minutes,
    minutes
    == Reference.total_hours top (handling_scale_of handling)
         (accel_scale_of accel) (segments_of d preset)
         (segment_draws g (length (segments_of d preset))) * 60
    /\ simulate_time_minutes top accel handling reliability d preset g
       = Some (if simulated_dnf reliability d preset g
               then ((minutes, true),
                     advance (length (segments_of d preset) + 1) g)
               else ((minutes * jitter_draw d preset g, false),
                     advance (length (segments_of d preset) + 2) g)).
Proof.
  destruct (segments_loop_reference top (handling_scale_of handling)
              (handling_scale_of handling) (accel_scale_of accel)
              (accel_scale_of accel) (segments_of d preset)
              (Qeq_refl _) (Qeq_refl _) 0.0 g) as (minutes & Hrun & Hm).
  exists minutes. split; [rewrite Hm; lra|].
  unfold simulate_time_minutes. rewrite Hrun. cbn [mbind option_bind].
  rewrite random_advance, uniform_advance, !advance_advance.
  unfold simulated_dnf, trial_draw, jitter_draw. cbn [advance tape cursor].
  rewrite <- !Nat.add_assoc. change (1 + 1)%nat with 2%nat.
  destruct (QMicromega.Qlt_bool _ _); reflexivity.
Qed.

Lemma handling_scale_of_mono (h h' : Z) :
  (h <= h')%Z ->
  1 # 2 <= handling_scale_of h /\ handling_scale_of h <= handling_scale_of h'.
Proof.
  intros Hh. unfold handling_scale_of. rewrite !py_maxZ_Zmax, !py_minZ_Zmin.
  set (z := (Z.max 50 (Z.min 100 h) - 50)%Z).
  set (z' := (Z.max 50 (Z.min 100 h') - 50)%Z).
  assert (Hz : (0 <= z)%Z) by (subst z; lia).
  assert (Hzz : (z <= z')%Z) by (subst z z'; lia).
  rewrite Zle_Qle in Hz, Hzz. change (inject_Z 0) with 0 in Hz.
  assert (E : forall x, x / 100.0 == x * (1 # 100)) by (intros x; field).
  rewrite !E. split; lra.
Qed.

Lemma accel_scale_of_anti (a a' : Q) :
  a' <= a ->
  9 # 10 <= accel_scale_of a /\ accel_scale_of a <= accel_scale_of a'.
Proof.
  intros Ha. unfold accel_scale_of. split.
  - match goal with |- _ <= Py.max ?x ?y => pose proof (py_max_lower x y) end.
    lra.
  - rewrite !py_max_Qmax, !py_min_Qmin.
    apply Q.max_le_compat_l, Q.min_le_compat_l. lra.
Qed.

Lemma Qmult_le_mono_nonneg (a a' b b' : Q) :
  0 <= a -> a <= a' -> 0 <= b -> b <= b' -> a * b <= a' * b'.
Proof.
  intros Ha Haa Hb Hbb.
  assert (a * b <= a' * b) by (apply Qmult_le_compat_r; assumption).
  assert (a' * b <= a' * b').
  { rewrite !(Qmult_comm a'). apply Qmult_le_compat_r; lra. }
  lra.
Qed.

Lemma total_hours_anti (top top' hs hs' acs acs' : Q)
    (segments : list Segment) :
  0 <= top -> top <= top' -> 0 <= hs -> hs <= hs' -> 0 <= acs -> acs <= acs' ->
  Forall (fun seg : Segment =>
            0 <= fst (fst seg) /\ 0 <= snd (fst seg) /\ 0 <= snd seg)
         segments ->
  forall multipliers : list Q,
  Forall (fun m => 0 <= m) multipliers ->
  Reference.total_hours top' hs' acs' segments multipliers
  <= Reference.total_hours top hs acs segments multipliers.
Proof.
  intros Ht Htt Hh Hhh Ha Haa Hsegs.
  induction Hsegs as [|[[len sf] hf] rest (Hlen & Hsf & Hhf) _ IH];
    intros ms Hms.
  - cbn. lra.
  - destruct Hms as [|m ms Hm Hms]; cbn [Reference.total_hours]; [lra|].
    specialize (IH ms Hms). cbn [fst snd] in *.
    pose proof (reference_speed_floor top hs acs (len, sf, hf) m) as Hv.
    pose proof (reference_speed_floor top' hs' acs' (len, sf, hf) m) as Hv'.
    assert (Hvv : Reference.effective_speed top hs acs (len, sf, hf) m
                  <= Reference.effective_speed top' hs' acs' (len, sf, hf) m).
    { unfold Reference.effective_speed. apply Q.max_le_compat_l.
      assert (H1 : top * hs <= top' * hs')
        by (apply Qmult_le_mono_nonneg; assumption).
      assert (H1' : 0 <= top * hs) by (apply Qmult_le_0_compat; assumption).
      assert (H2 : top * hs * acs <= top' * hs' * acs')
        by (apply Qmult_le_mono_nonneg; assumption).
      assert (H2' : 0 <= top * hs * acs)
        by (apply Qmult_le_0_compat; assumption).
      assert (H3 : top * hs * acs * sf <= top' * hs' * acs' * sf)
        by (apply Qmult_le_compat_r; assumption).
      assert (H4 : top * hs * acs * sf * hf <= top' * hs' * acs' * sf * hf)
        by (apply Qmult_le_compat_r; assumption).
      apply Qmult_le_compat_r; assumption. }
    set (v := Reference.effective_speed top hs acs (len, sf, hf) m) in *.
    set (v' := Reference.effective_speed top' hs' acs' (len, sf, hf) m) in *.
    assert (Hq : len / v' <= len / v).
    { apply Qle_shift_div_r; [lra|].
      assert (H0 : 0 <= len / v) by (apply Qle_shift_div_l; lra).
      assert (E : len / v * v == len) by (field; lra).
      assert (len / v * v <= len / v * v').
      { rewrite !(Qmult_comm (len / v)). apply Qmult_le_compat_r; lra. }
      lra. }
    lra.
Qed.

Lemma segments_of_factors_nonneg (d : Q) (preset : string) :
  0 <= d ->
  Forall (fun seg : Segment =>
            0 <= fst (fst seg) /\ 0 <= snd (fst seg) /\ 0 <= snd seg)
         (segments_of d preset).
Proof.
  intros Hd. unfold segments_of.
  destruct (String.eqb preset "Fast asphalt");
    [|destruct (String.eqb preset "Gravel twisty")];
    repeat constructor; simpl; lra.
Qed.

(** X2.  Of two cars of the same reliability, run over the same
    non-negative distance and preset with the same random draws (each in
    [0,1)), the one that is at least as good in every other attribute
    (top speed no lower than the other's, which is not negative; 0-100
    time no higher; handling no lower) is never slower: the DNF flag and
    the draws consumed are the same, and the returned time is no
    greater. *)
Theorem better_car_not_slower (top top' accel accel' : Q)
    (handling handling' : Z) (reliability d : Q) (preset : string) (g : Rng) :
  0 <= d -> unit_tape g ->
  0 <= top -> top <= top' -> accel' <= accel -> (handling <= handling')%Z ->
  exists t t' dnf g',
    simulate_time_minutes top accel handling reliability d preset g
    = Some ((t, dnf), g')
    /\ simulate_time_minutes top' accel' handling' reliability d preset g
       = Some ((t', dnf), g')
    /\ t' <= t.
Proof.
  intros Hd Hg Ht Htt Ha Hh.
  destruct (simulate_runs_scales top accel handling reliability d preset g)
    as (m & Hm & Hsim).
  destruct (simulate_runs_scales top' accel' handling' reliability d preset g)
    as (m' & Hm' & Hsim').
  destruct (handling_scale_of_mono handling handling' Hh) as [Hh0 Hhh].
  destruct (accel_scale_of_anti accel accel' Ha) as [Ha0 Haa].
  assert (Hle : m' <= m).
  { rewrite Hm, Hm'.
    assert (Hh00 : 0 <= handling_scale_of handling) by lra.
    assert (Ha00 : 0 <= accel_scale_of accel) by lra.
    pose proof (total_hours_anti top top' _ _ _ _ (segments_of d preset)
                  Ht Htt Hh00 Hhh Ha00 Haa
                  (segments_of_factors_nonneg d preset Hd)
                  (segment_draws g (length (segments_of d preset)))) as Hanti.
    assert (Hdraws : Forall (fun m0 => 0 <= m0)
                       (segment_draws g (length (segments_of d preset)))).
    { eapply Forall_impl; [apply segment_draws_range; exact Hg|].
      intros x [Hx _]. lra. }
    specialize (Hanti Hdraws). lra. }
  destruct (simulated_dnf reliability d preset g).
  - exists m, m', true. eexists. repeat split; [exact Hsim | exact Hsim' | exact Hle].
  - exists (m * jitter_draw d preset g), (m' * jitter_draw d preset g), false.
    eexists. repeat split; [exact Hsim | exact Hsim' |].
    destruct (jitter_draw_range d preset g Hg).
    apply Qmult_le_compat_r; lra.
Qed.

Lemma better_car_not_slower_witness :
  exists t t' dnf g',
    simulate_time_minutes 210 5.6 80 0.9 100 "Mixed (default)" half_tape
    = Some ((t, dnf), g')
    /\ simulate_time_minutes 230 4.9 85 0.9 100 "Mixed (default)" half_tape
       = Some ((t', dnf), g')
    /\ t' <= t.
Proof.
  apply (better_car_not_slower 210 230 5.6 4.9 80 85 0.9 100
           "Mixed (default)" half_tape);
    [discriminate | exact half_tape_unit | discriminate | discriminate
     | discriminate | lia].
Defined.

(** ** The handler: what ranking leaves alone *)

Lemma final_results_fields (results1 : list ResultDict) :
  map DNF (final_results results1) = map DNF results1
  /\ map TIME_MIN (final_results results1) = map TIME_MIN results1
  /\ map d_CAR_ID (final_results results1) = map d_CAR_ID results1
  /\ map d_TEAM_ID (final_results results1) = map d_TEAM_ID results1.
Proof.
  unfold final_results.
  repeat split; apply list_eq; intros i;
    rewrite !lookup_map, list_lookup_imap;
    destruct (results1 !! i); reflexivity.
Qed.

Lemma race_result_rows_fields (race_id : Z) (results : list ResultDict) :
  map rr_CAR_ID (map (race_result_row race_id) results) = map d_CAR_ID results
  /\ map rr_TEAM_ID (map (race_result_row race_id) results)
     = map d_TEAM_ID results
  /\ map FINISH_TIME_MINUTES (map (race_result_row race_id) results)
     = map TIME_MIN results
  /\ map STATUS (map (race_result_row race_id) results) = map status_of results
  /\ Forall (fun row => rr_RACE_ID row = race_id)
       (map (race_result_row race_id) results).
Proof.
  rewrite !map_map. repeat split.
  apply Forall_map, Forall_forall. reflexivity.
Qed.

Lemma fresh_dicts_ids (cars : list Car) (results : list ResultDict) :
  Forall2 fresh_dict cars results ->
  map d_CAR_ID results = map c_CAR_ID cars
  /\ map d_TEAM_ID results = map c_TEAM_ID cars.
Proof.
  induction 1 as [|c r cars results Hcr _ [IH1 IH2]]; [auto|].
  destruct Hcr as (H1 & _ & H3 & _). cbn [map]. rewrite IH1, IH2, H1, H3. auto.
Qed.

Lemma finisher_count_app (a b : list ResultDict) :
  finisher_count (a ++ b) = (finisher_count a + finisher_count b)%nat.
Proof. unfold finisher_count. rewrite List.filter_app, length_app. reflexivity. Qed.

(** The collection loop makes, for every car, one draw per segment and
    the reliability draw, and one more for every car that finishes. *)
Lemma collect_results_draws (d : Q) (preset : string) (cars : list Car) :
  forall (acc : list ResultDict) (g : Rng),
  exists new g',
    collect_results d preset cars acc g = Some (acc ++ new, g')
    /\ tape g' = tape g
    /\ cursor g'
       = (cursor g + length cars * (length (segments_of d preset) + 1)
          + finisher_count new)%nat.
Proof.
  induction cars as [|c cars IH]; intros acc g.
  - exists [], g. rewrite app_nil_r. repeat split. cbn. lia.
  - cbn [collect_results].
    destruct (simulate_runs (TOP_SPEED_KMH c) (ACCELERATION_0_100_S c)
                (HANDLING c) (RELIABILITY c) d preset g)
      as (minutes & _ & _ & Hsim).
    rewrite Hsim.
    set (n := length (segments_of d preset)) in *.
    destruct (simulated_dnf (RELIABILITY c) d preset g);
      cbn [mbind option_bind negb];
      match goal with
      | |- context [collect_results _ _ _ (acc ++ [?r]) ?g1] =>
          destruct (IH (acc ++ [r]) g1) as (new & g' & Hrun & Htape & Hcur);
          exists (r :: new), g'
      end;
      rewrite Hrun, <- app_assoc; (split; [reflexivity|]);
      (split; [exact Htape|]); rewrite Hcur;
      change (r :: new) with ([r] ++ new) || idtac;
      cbn [advance cursor length finisher_count List.filter DNF negb];
      unfold finisher_count; lia.
Qed.

Section Outcome.

Variable default_race_id : list RaceRow -> option Z.

(** X3.  When the simulation lets at least one vehicle finish, the
    rescue block changes nothing and draws nothing: every vehicle keeps
    the DNF flag and the time the simulator gave it, and these are what
    the result rows record. *)
Theorem natural_outcome_is_kept (race_name : string) (d fee p1 p2 p3 : Q)
    (preset : string) (cars : list Car) (s : Store) (g : Rng)
    (results0 : list ResultDict) (g1 : Rng) :
  collect_results d preset cars [] g = Some (results0, g1) ->
  forallb DNF results0 = false ->
  exists race_id results finishers s' rows,
    start_race default_race_id race_name d fee p1 p2 p3 preset cars s g
    = Some (Completed race_id results finishers s' g1)
    /\ map DNF results = map DNF results0
    /\ map TIME_MIN results = map TIME_MIN results0
    /\ RACE_RESULTS s' = RACE_RESULTS s ++ rows
    /\ map FINISH_TIME_MINUTES rows = map TIME_MIN results0
    /\ map STATUS rows = map status_of results0.
Proof.
  intros Hcollect Hsome.
  assert (Hne : cars <> []).
  { intros ->. cbn in Hcollect. injection Hcollect as <- <-. discriminate. }
  destruct (start_race_runs default_race_id race_name d fee p1 p2 p3 preset
              cars s g Hne)
    as (results0' & g1' & results1 & g2 & Hcollect' & _ & _ & Hrescue
        & _ & _ & _ & Hrun).
  rewrite Hcollect in Hcollect'. injection Hcollect' as <- <-.
  rewrite rescue_some_finisher in Hrescue by exact Hsome.
  injection Hrescue as <- <-. cbv zeta in Hrun.
  destruct (final_results_fields results0) as (Hd & Ht & _ & _).
  eexists _, _, _, _, _. split; [exact Hrun|].
  split; [exact Hd|]. split; [exact Ht|].
  split; [apply settled_store_fields|].
  match goal with
  | |- context [map (race_result_row ?rid) ?res] =>
      destruct (race_result_rows_fields rid res) as (_ & _ & Hft & Hst & _)
  end.
  rewrite Hft, Hst, Ht. split; [reflexivity|].
  unfold status_of. rewrite <- !(map_map DNF (fun b : bool =>
    if negb b then "FINISHED"%string else "DNF"%string)), Hd. reflexivity.
Qed.

(** X4.  A completed race writes one result row per vehicle of the
    roster, in roster order, with that vehicle's car and team
    identifiers; every result row and every transaction of the race
    carries the identifier that [create_race] returned. *)
Theorem one_result_row_per_vehicle (race_name : string) (d fee p1 p2 p3 : Q)
    (preset : string) (cars : list Car) (s : Store) (g : Rng) :
  cars <> [] ->
  exists race_id results finishers s' g' rows txs,
    start_race default_race_id race_name d fee p1 p2 p3 preset cars s g
    = Some (Completed race_id results finishers s' g')
    /\ race_id
       = fst (create_race default_race_id
                (if String.eqb race_name "" then "Rally" else race_name)
                d fee p1 p2 p3 s)
    /\ RACE_RESULTS s' = RACE_RESULTS s ++ rows
    /\ map rr_CAR_ID rows = map c_CAR_ID cars
    /\ map rr_TEAM_ID rows = map c_TEAM_ID cars
    /\ Forall (fun row => rr_RACE_ID row = race_id) rows
    /\ TRANSACTIONS s' = TRANSACTIONS s ++ txs
    /\ Forall (fun x => tx_RACE_ID x = Some race_id) txs.
Proof.
  intros Hne.
  destruct (start_race_runs default_race_id race_name d fee p1 p2 p3 preset
              cars s g Hne)
    as (results0 & g1 & results1 & g2 & _ & _ & _ & _ & Hfresh & _ & _ & Hrun).
  cbv zeta in Hrun.
  destruct (final_results_fields results1) as (_ & _ & Hc & Ht).
  destruct (fresh_dicts_ids cars results1 Hfresh) as [Hc1 Ht1].
  eexists _, _, _, _, _, _, _. split; [exact Hrun|].
  split; [reflexivity|].
  split; [apply settled_store_fields|].
  match goal with
  | |- context [map (race_result_row ?rid) ?res] =>
      destruct (race_result_rows_fields rid res) as (Hrc & Hrt & _ & _ & Hrid)
  end.
  rewrite Hrc, Hrt, Hc, Ht, Hc1, Ht1.
  do 3 (split; [first [reflexivity | exact Hrid]|]).
  split; [apply settled_store_fields|].
  apply Forall_app. split.
  - apply Forall_map, Forall_forall. reflexivity.
  - generalize 1%nat. generalize [p1; p2; p3].
    generalize (map (team_of (final_results results1)) (final_finishers results1)).
    intros teams prizes. revert teams.
    induction prizes as [|a prizes IH]; intros teams rank; [constructor|].
    destruct teams as [|t teams]; [constructor|].
    cbn [prize_credits]. apply Forall_app. split; [|apply IH].
    destruct (QMicromega.Qlt_bool 0 a); repeat constructor.
Qed.

(** X5.  A completed race advances the random source by one draw per
    segment and one reliability draw for every vehicle, plus one draw
    for every vehicle that ends up FINISHED (the jitter of a finisher, or
    the fallback time of the vehicle forced to finish). *)
Theorem draws_consumed_by_a_race (race_name : string) (d fee p1 p2 p3 : Q)
    (preset : string) (cars : list Car) (s : Store) (g : Rng) :
  cars <> [] ->
  exists race_id results finishers s' g',
    start_race default_race_id race_name d fee p1 p2 p3 preset cars s g
    = Some (Completed race_id results finishers s' g')
    /\ tape g' = tape g
    /\ length finishers = finisher_count results
    /\ cursor g'
       = (cursor g + length cars * (length (segments_of d preset) + 1)
          + finisher_count results)%nat.
Proof.
  intros Hne.
  destruct (start_race_runs default_race_id race_name d fee p1 p2 p3 preset
              cars s g Hne)
    as (results0 & g1 & results1 & g2 & Hcollect & Hfresh0 & _ & Hrescue
        & Hfresh1 & _ & _ & Hrun).
  cbv zeta in Hrun.
  destruct (collect_results_draws d preset cars [] g)
    as (new & g1' & Hcollect' & Htape & Hcur).
  rewrite Hcollect in Hcollect'. cbn [app] in Hcollect'.
  injection Hcollect' as <- <-.
  eexists _, _, _, _, _. split; [exact Hrun|].
  assert (Hcount : finisher_count (final_results results1)
                   = finisher_count results1).
  { unfold finisher_count, final_results.
    apply finishers_count_imap. reflexivity. }
  rewrite Hcount.
  assert (Hlen : length (final_finishers results1) = finisher_count results1).
  { rewrite final_finishers_length. exact Hcount. }
  destruct (forallb DNF results0) eqn:Hall.
  - assert (Hdnf : Forall (fun r => DNF r = true) results0).
    { apply Forall_forall. intros r Hr. rewrite forallb_forall in Hall.
      apply Hall, list_elem_of_In. exact Hr. }
    assert (Hnone : Forall (fun r => TIME_MIN r = None) results0).
    { apply Forall_forall. intros r Hr.
      pose proof (proj1 (Forall_forall _ _) Hdnf r Hr) as Hd.
      apply list_elem_of_lookup in Hr as [i Hi].
      destruct (fresh_dicts_lookup _ _ _ _ Hfresh0 Hi) as [_ Ht]. tauto. }
    destruct results0 as [|r0 rest].
    { destruct cars; [congruence | inversion Hfresh0]. }
    destruct (rescue_no_times d r0 rest g1 Hall Hnone) as [_ Hforced].
    rewrite Hforced in Hrescue. injection Hrescue as <- <-.
    apply Forall_cons in Hdnf as [Hd0 Hdrest].
    assert (Hzero : finisher_count (r0 :: rest) = 0%nat).
    { unfold finisher_count. cbn [List.filter]. rewrite Hd0. cbn [negb].
      clear - Hdrest. induction Hdrest as [|r rest Hr _ IH]; [reflexivity|].
      cbn [List.filter]. rewrite Hr. exact IH. }
    assert (Hone : finisher_count
                     (set_TIME_MIN (Some (fallback_time d g1))
                        (set_DNF false r0) :: rest) = 1%nat).
    { unfold finisher_count in *. cbn [List.filter set_TIME_MIN set_DNF DNF negb length].
      cbn [List.filter] in Hzero. rewrite Hd0 in Hzero. cbn [negb] in Hzero.
      rewrite Hzero. reflexivity. }
    rewrite Hzero in Hcur. rewrite Hone. cbn [advance tape cursor].
    split; [exact Htape|]. split; [rewrite Hlen; exact Hone|]. lia.
  - rewrite rescue_some_finisher in Hrescue by exact Hall.
    injection Hrescue as <- <-. auto.
Qed.

End Outcome.

Lemma natural_outcome_is_kept_witness :
  exists race_id results finishers s' g1 rows,
    start_race demo_race_id "Rally" 100 1000 5000 3000 1000 "Mixed (default)"
      demo_cars demo_store half_tape
    = Some (Completed race_id results finishers s' g1)
    /\ RACE_RESULTS s' = RACE_RESULTS demo_store ++ rows
    /\ map STATUS rows = ["FINISHED"; "FINISHED"; "FINISHED"].
Proof.
  destruct (collect_results_runs 100 "Mixed (default)" demo_cars [] half_tape)
    as (results0 & g1 & Hcollect & _).
  cbn [app] in Hcollect.
  assert (Hstatus : forallb DNF results0 = false
                    /\ map status_of results0
                       = ["FINISHED"; "FINISHED"; "FINISHED"]).
  { vm_compute in Hcollect. injection Hcollect as <- <-.
    split; reflexivity. }
  destruct Hstatus as [Hsome Hstatus].
  destruct (natural_outcome_is_kept demo_race_id "Rally" 100 1000 5000 3000
              1000 "Mixed (default)" demo_cars demo_store half_tape
              results0 g1 Hcollect Hsome)
    as (race_id & results & finishers & s' & rows & Hrun & _ & _ & Hrows
        & _ & Hst).
  exists race_id, results, finishers, s', g1, rows.
  split; [exact Hrun|]. split; [exact Hrows|]. rewrite Hst. exact Hstatus.
Defined.

Lemma one_result_row_per_vehicle_witness :
  exists race_id results finishers s' g' rows,
    start_race demo_race_id "Rally" 100 1000 5000 3000 1000 "Mixed (default)"
      demo_cars demo_store half_tape
    = Some (Completed race_id results finishers s' g')
    /\ RACE_RESULTS s' = RACE_RESULTS demo_store ++ rows
    /\ map rr_CAR_ID rows = [1; 2; 3]%Z
    /\ map rr_TEAM_ID rows = [1; 1; 2]%Z.
Proof.
  destruct (one_result_row_per_vehicle demo_race_id "Rally" 100 1000 5000
              3000 1000 "Mixed (default)" demo_cars demo_store half_tape)
    as (race_id & results & finishers & s' & g' & rows & txs & Hrun & _
        & Hrows & Hcars & Hteams & _); [discriminate|].
  exists race_id, results, finishers, s', g', rows. auto.
Defined.

Lemma draws_consumed_by_a_race_witness :
  exists race_id results finishers s' g',
    start_race demo_race_id "Rally" 100 1000 5000 3000 1000 "Mixed (default)"
      demo_cars demo_store unlucky_tape
    = Some (Completed race_id results finishers s' g')
    /\ cursor g' = (0 + 3 * (3 + 1) + finisher_count results)%nat.
Proof.
  destruct (draws_consumed_by_a_race demo_race_id "Rally" 100 1000 5000
              3000 1000 "Mixed (default)" demo_cars demo_store unlucky_tape)
    as (race_id & results & finishers & s' & g' & Hrun & _ & _ & Hcur);
    [discriminate|].
  exists race_id, results, finishers, s', g'. split; [exact Hrun | exact Hcur].
Defined.

(** ** Ranking: equal times *)

Lemma refs_not_DNF_increasing (results : list ResultDict) :
  forall k, StronglySorted lt (refs_not_DNF k results).
Proof.
  induction results as [|r rest IH]; intros k; cbn [refs_not_DNF].
  - constructor.
  - destruct (DNF r); cbn [negb]; [apply IH|].
    constructor; [apply IH|]. apply Forall_forall. intros i Hi.
    apply refs_not_DNF_elem in Hi as [Hk _]. lia.
Qed.

Lemma insert_by_time_roster (x : Q * nat) (l : list (Q * nat)) :
  StronglySorted time_then_roster l ->
  Forall (fun y => (snd x < snd y)%nat) l ->
  StronglySorted time_then_roster (insert_by_time x l).
Proof.
  induction 1 as [|y rest Hrest IH Hy]; intros Hx; cbn [insert_by_time].
  - repeat constructor.
  - apply Forall_cons in Hx as [Hxy Hxrest].
    case_Qlt (fst y) (fst x).
    + constructor; [apply IH; exact Hxrest|].
      rewrite insert_by_time_perm. constructor; [left; exact E | exact Hy].
    + constructor; [constructor; assumption|].
      assert (Hle : forall z, fst y <= fst z -> (snd x < snd z)%nat ->
                    time_then_roster x z).
      { intros z Hz Hs. unfold time_then_roster.
        destruct (Qlt_le_dec (fst x) (fst z)); [left; assumption|].
        right. split; [lra | exact Hs]. }
      constructor; [apply Hle; [lra | exact Hxy]|].
      apply Forall_forall. intros z Hz.
      rewrite Forall_forall in Hy, Hxrest.
      apply Hle; [|apply Hxrest; exact Hz].
      destruct (Hy z Hz) as [Hlt | [Heq _]]; lra.
Qed.

Lemma stable_sort_by_time_roster (l : list (Q * nat)) :
  StronglySorted (fun x y => (snd x < snd y)%nat) l ->
  StronglySorted time_then_roster (stable_sort_by_time l).
Proof.
  induction 1 as [|x rest Hrest IH Hx]; cbn [stable_sort_by_time foldr].
  - constructor.
  - apply insert_by_time_roster; [exact IH|].
    fold (stable_sort_by_time rest). rewrite stable_sort_by_time_perm.
    exact Hx.
Qed.

Lemma keyed_increasing (f : nat -> Q) (l : list nat) :
  StronglySorted lt l ->
  StronglySorted (fun x y : Q * nat => (snd x < snd y)%nat)
    (map (fun i => (f i, i)) l).
Proof.
  induction 1 as [|a rest _ IH Ha]; cbn [map]; constructor; [exact IH|].
  apply Forall_map. exact Ha.
Qed.

(** In the ranked finishers, an earlier place means an earlier time, or
    the same time and an earlier place in the roster. *)
Lemma ranked_roster_order (results1 : list ResultDict) (j j' i i' : nat) :
  final_finishers results1 !! j = Some i ->
  final_finishers results1 !! j' = Some i' ->
  (j < j')%nat ->
  time_then_roster (time_of results1 i, i) (time_of results1 i', i').
Proof.
  unfold final_finishers, ranked. intros Hj Hj' Hlt.
  set (l := map (fun i => (time_of results1 i, i)) (refs_not_DNF 0 results1)) in *.
  assert (Hsorted : StronglySorted time_then_roster (stable_sort_by_time l)).
  { apply stable_sort_by_time_roster. subst l.
    apply keyed_increasing, refs_not_DNF_increasing. }
  assert (Hall : Forall (fun x => fst x = time_of results1 (snd x))
                   (stable_sort_by_time l)).
  { rewrite stable_sort_by_time_perm. subst l.
    apply Forall_map, Forall_forall. reflexivity. }
  rewrite lookup_map in Hj, Hj'.
  destruct (stable_sort_by_time l !! j) as [x|] eqn:Hx; [|discriminate].
  destruct (stable_sort_by_time l !! j') as [x'|] eqn:Hx'; [|discriminate].
  cbn in Hj, Hj'. injection Hj as <-. injection Hj' as <-.
  rewrite Forall_forall in Hall.
  rewrite <- (Hall x) by (eapply list_elem_of_lookup_2; exact Hx).
  rewrite <- (Hall x') by (eapply list_elem_of_lookup_2; exact Hx').
  pose proof (StronglySorted_lookup_lt _ _ Hsorted j j' x x' Hlt Hx Hx') as H.
  destruct x, x'. exact H.
Qed.

Section Ties.

Variable default_race_id : list RaceRow -> option Z.

(** X6.  Finishers with equal times are ranked in roster order: of two
    vehicles with the same finishing time, the one that comes first in
    the roster holds the smaller position. *)
Theorem ties_ranked_in_roster_order (race_name : string) (d fee p1 p2 p3 : Q)
    (preset : string) (cars : list Car) (s : Store) (g : Rng) :
  cars <> [] ->
  exists race_id results finishers s' g',
    start_race default_race_id race_name d fee p1 p2 p3 preset cars s g
    = Some (Completed race_id results finishers s' g')
    /\ map d_CAR_ID results = map c_CAR_ID cars
    /\ forall i i' r r' p p' t t',
       results !! i = Some r -> results !! i' = Some r' ->
       d_POSITION r = Some (Some p) -> d_POSITION r' = Some (Some p') ->
       TIME_MIN r = Some t -> TIME_MIN r' = Some t' ->
       t == t' -> (i < i')%nat -> (p < p')%nat.
Proof.
  intros Hne.
  destruct (start_race_runs default_race_id race_name d fee p1 p2 p3 preset
              cars s g Hne)
    as (results0 & g1 & results1 & g2 & _ & _ & _ & _ & Hfresh & _ & _ & Hrun).
  cbv zeta in Hrun.
  eexists _, _, _, _, _. split; [exact Hrun|]. split.
  { destruct (final_results_fields results1) as (_ & _ & Hc & _).
    rewrite Hc. apply (fresh_dicts_ids cars results1 Hfresh). }
  intros i i' r r' p p' t t' Hr Hr' Hp Hp' Ht Ht' Heq Hlt.
  assert (Hpos : forall i r p, final_results results1 !! i = Some r ->
                 d_POSITION r = Some (Some p) ->
                 exists j, p = S j /\ final_finishers results1 !! j = Some i).
  { intros i0 r0 [|j] Hr0 Hp0.
    - apply final_results_lookup in Hr0 as (r1 & _ & ->). cbn in Hp0.
      injection Hp0 as Hp0. apply rank_in_Some in Hp0 as (? & _ & ?). lia.
    - exists j. split; [reflexivity|]. apply finisher_holds_rank. eauto. }
  destruct (Hpos i r p Hr Hp) as (j & -> & Hj).
  destruct (Hpos i' r' p' Hr' Hp') as (j' & -> & Hj').
  assert (Htime : time_of results1 i = t).
  { apply final_results_lookup in Hr as (r1 & Hr1 & ->).
    unfold time_of. rewrite Hr1. cbn in *. rewrite Ht. reflexivity. }
  assert (Htime' : time_of results1 i' = t').
  { apply final_results_lookup in Hr' as (r1 & Hr1 & ->).
    unfold time_of. rewrite Hr1. cbn in *. rewrite Ht'. reflexivity. }
  destruct (lt_eq_lt_dec j j') as [[Hjj | Hjj] | Hjj].
  - lia.
  - subst j'. assert (i = i') by congruence. lia.
  - pose proof (ranked_roster_order results1 j' j i' i Hj' Hj Hjj) as H.
    unfold time_then_roster in H. cbn [fst snd] in H.
    rewrite Htime, Htime' in H. destruct H as [H | [_ H]]; [lra | lia].
Qed.

End Ties.

Lemma ties_ranked_in_roster_order_witness :
  exists race_id results finishers s' g' r r' t p p',
    start_race demo_race_id "Rally" 100 1000 5000 3000 1000 "Fast asphalt"
      twin_cars demo_store half_tape
    = Some (Completed race_id results finishers s' g')
    /\ results !! 0%nat = Some r /\ results !! 1%nat = Some r'
    /\ TIME_MIN r = Some t /\ TIME_MIN r' = Some t
    /\ d_POSITION r = Some (Some p) /\ d_POSITION r' = Some (Some p')
    /\ (p < p')%nat /\ p = 1%nat /\ p' = 2%nat.
Proof.
  destruct (ties_ranked_in_roster_order demo_race_id "Rally" 100 1000 5000
              3000 1000 "Fast asphalt" twin_cars demo_store half_tape)
    as (race_id & results & finishers & s' & g' & Hrun & _ & Hties);
    [discriminate|].
  assert (Hrace : exists race_id0 r r' finishers0 s0 g0 t p p',
             start_race demo_race_id "Rally" 100 1000 5000 3000 1000
               "Fast asphalt" twin_cars demo_store half_tape
             = Some (Completed race_id0 [r; r'] finishers0 s0 g0)
             /\ TIME_MIN r = Some t /\ TIME_MIN r' = Some t
             /\ d_POSITION r = Some (Some p)
             /\ d_POSITION r' = Some (Some p')
             /\ p = 1%nat /\ p' = 2%nat).
  { vm_compute. do 9 eexists. repeat split; reflexivity. }
  destruct Hrace as (race_id0 & r & r' & finishers0 & s0 & g0 & t & p & p'
                     & Hrace & Ht & Ht' & Hp & Hp' & Hone & Htwo).
  rewrite Hrace in Hrun. injection Hrun as <- <- <- <- <-.
  exists race_id0, [r; r'], finishers0, s0, g0, r, r', t, p, p'.
  split; [exact Hrace|]. split; [reflexivity|]. split; [reflexivity|].
  split; [exact Ht|]. split; [exact Ht'|]. split; [exact Hp|].
  split; [exact Hp'|]. split; [|split; [exact Hone | exact Htwo]].
  apply (Hties 0%nat 1%nat r r' p p' t t); try reflexivity; try assumption.
  lia.
Defined.

(** ** Budgets after a race *)

Lemma ledger_sum_app (team_id : Z) (a b : list TransactionRow) :
  ledger_sum team_id (a ++ b) == ledger_sum team_id a + ledger_sum team_id b.
Proof.
  induction a as [|x a IH]; cbn [app ledger_sum foldr].
  - fold (ledger_sum team_id b). lra.
  - fold (ledger_sum team_id (a ++ b)). fold (ledger_sum team_id a).
    destruct (tx_TEAM_ID x =? team_id)%Z; lra.
Qed.

Lemma ledger_sum_none (team_id : Z) (txs : list TransactionRow) :
  Forall (fun x => tx_TEAM_ID x <> team_id) txs -> ledger_sum team_id txs == 0.
Proof.
  induction 1 as [|x rest Hx _ IH]; cbn [ledger_sum foldr]; [reflexivity|].
  fold (ledger_sum team_id rest).
  destruct (Z.eqb_spec (tx_TEAM_ID x) team_id); [contradiction | exact IH].
Qed.

Lemma ledger_sum_entry_fees (race_id : Z) (fee : Q) (race_name : string)
    (team_id : Z) (team_ids : list Z) :
  NoDup team_ids ->
  ledger_sum team_id (map (entry_fee_row race_id fee race_name) team_ids)
  == (if decide (team_id ∈ team_ids) then - fee else 0).
Proof.
  induction 1 as [|t rest Ht Hrest IH]; cbn [map ledger_sum foldr].
  - rewrite decide_False by (intros H; inversion H). reflexivity.
  - fold (ledger_sum team_id (map (entry_fee_row race_id fee race_name) rest)).
    cbn [entry_fee_row tx_TEAM_ID tx_AMOUNT].
    destruct (Z.eqb_spec t team_id) as [-> | Hne]; rewrite IH.
    + rewrite (decide_False (P := team_id ∈ rest)) by exact Ht.
      rewrite decide_True by (apply elem_of_cons; auto). lra.
    + destruct (decide (team_id ∈ rest)) as [Hin | Hnin].
      * rewrite decide_True by (apply elem_of_cons; auto). reflexivity.
      * rewrite decide_False; [reflexivity|].
        rewrite elem_of_cons. intros [-> | H]; contradiction.
Qed.

Lemma prize_credits_teams (race_id : Z) (race_name : string)
    (prizes : list Q) :
  forall (rank : nat) (teams : list Z),
  Forall (fun x => tx_TEAM_ID x ∈ teams)
    (prize_credits race_id race_name rank prizes teams).
Proof.
  induction prizes as [|a prizes IH]; intros rank teams; [constructor|].
  destruct teams as [|t teams]; [constructor|].
  cbn [prize_credits]. apply Forall_app. split.
  - destruct (QMicromega.Qlt_bool 0 a); repeat constructor.
  - eapply Forall_impl; [apply IH|]. intros x Hx. apply elem_of_cons. auto.
Qed.

Section Budgets.

Variable default_race_id : list RaceRow -> option Z.

(** X7.  After a completed race every TEAMS row keeps its identifier,
    name and members, and its budget (NULL read as 0) is the one before
    the race, less the entry fee if the team has a vehicle in the roster
    (once, however many vehicles), plus the prizes credited to the team.
    The row of a team with no vehicle in the roster is left as it was. *)
Theorem budgets_after_a_race (race_name : string) (d fee p1 p2 p3 : Q)
    (preset : string) (cars : list Car) (s : Store) (g : Rng) :
  cars <> [] ->
  exists race_id results finishers s' g' credits,
    start_race default_race_id race_name d fee p1 p2 p3 preset cars s g
    = Some (Completed race_id results finishers s' g')
    /\ credits
       = prize_credits race_id race_name 1 [p1; p2; p3]
           (map (team_of results) finishers)
    /\ length (TEAMS s') = length (TEAMS s)
    /\ forall (i : nat) (t : TeamRow), TEAMS s !! i = Some t ->
       exists t', TEAMS s' !! i = Some t'
         /\ TEAM_ID t' = TEAM_ID t /\ TEAM_NAME t' = TEAM_NAME t
         /\ MEMBERS t' = MEMBERS t
         /\ coalesce0 (BUDGET t')
            == coalesce0 (BUDGET t)
               - (if decide (TEAM_ID t ∈ map c_TEAM_ID cars) then fee else 0)
               + ledger_sum (TEAM_ID t) credits
         /\ (TEAM_ID t ∉ map c_TEAM_ID cars -> t' = t).
Proof.
  intros Hne.
  destruct (start_race_runs default_race_id race_name d fee p1 p2 p3 preset
              cars s g Hne)
    as (results0 & g1 & results1 & g2 & _ & _ & _ & _ & Hfresh & _ & _ & Hrun).
  cbv zeta in Hrun.
  eexists _, _, _, _, _, _. split; [exact Hrun|]. split; [reflexivity|].
  set (rid := fst (create_race _ _ _ _ _ _ _ _)) in *.
  set (debits := map (entry_fee_row rid fee race_name)
                   (participating_team_ids_of cars)).
  set (credits := prize_credits rid race_name 1 [p1; p2; p3]
                    (map (team_of (final_results results1))
                       (final_finishers results1))).
  destruct (settled_store_fields default_race_id
              (if String.eqb race_name "" then "Rally" else race_name)
              d fee p1 p2 p3 s (debits ++ credits)
              (map (race_result_row rid) (final_results results1)))
    as (_ & _ & _ & Hteams).
  cbv zeta in Hteams. fold rid in Hteams. rewrite Hteams, length_map.
  split; [reflexivity|].
  destruct (participating_team_ids_spec cars) as (_ & Hnd & Helem & _).
  cbv zeta in Hnd, Helem.
  assert (Hroster : forall t, t ∈ participating_team_ids_of cars
                              <-> t ∈ map c_TEAM_ID cars).
  { intros t. rewrite Helem.
    change (map c_TEAM_ID cars) with (c_TEAM_ID <$> cars).
    rewrite list_elem_of_fmap. split; intros (c & H1 & H2); eauto. }
  assert (Hcredit_teams : Forall (fun x => tx_TEAM_ID x ∈ map c_TEAM_ID cars)
                            credits).
  { eapply Forall_impl; [apply prize_credits_teams|]. intros x Hx. cbn beta in Hx.
    change (map (team_of (final_results results1)) (final_finishers results1))
      with (team_of (final_results results1) <$> final_finishers results1) in Hx.
    apply list_elem_of_fmap in Hx as (i & -> & Hi).
    apply final_finishers_elem in Hi as (r1 & Hr1 & _).
    destruct (final_results_fields results1) as (_ & _ & _ & Ht).
    destruct (fresh_dicts_ids cars results1 Hfresh) as [_ Ht1].
    rewrite <- Ht1, <- Ht. unfold team_of.
    assert (Hlen : (i < length (final_results results1))%nat).
    { unfold final_results. rewrite length_imap.
      eapply lookup_lt_Some. exact Hr1. }
    destruct (lookup_lt_is_Some_2 _ _ Hlen) as [r Hr]. rewrite Hr. cbn.
    change (map d_TEAM_ID (final_results results1))
      with (d_TEAM_ID <$> final_results results1).
    apply list_elem_of_fmap. exists r. split; [reflexivity|].
    eapply list_elem_of_lookup_2. exact Hr. }
  intros i t Hi. exists (update_budget_all (debits ++ credits) t).
  rewrite lookup_map, Hi. split; [reflexivity|].
  destruct (update_budget_all_row (debits ++ credits) t)
    as (Hid & Hname & Hmem & Hbud & Hsame).
  do 3 (split; [assumption|]). split.
  - rewrite Hbud, ledger_sum_app. subst debits.
    rewrite ledger_sum_entry_fees by exact Hnd.
    destruct (decide (TEAM_ID t ∈ participating_team_ids_of cars)) as [Hin | Hnin].
    + rewrite decide_True by (apply Hroster; exact Hin). lra.
    + rewrite decide_False by (rewrite <- Hroster; exact Hnin). lra.
  - intros Hnot. apply Hsame. apply Forall_app. split.
    + subst debits. apply Forall_map, Forall_forall. intros t0 Ht0. cbn.
      intros ->. apply Hnot, Hroster. exact Ht0.
    + eapply Forall_impl; [exact Hcredit_teams|]. intros x Hx Heq.
      apply Hnot. rewrite <- Heq. exact Hx.
Qed.

End Budgets.

Lemma budgets_after_a_race_witness :
  exists race_id results finishers s' g',
    start_race demo_race_id "Rally" 100 1000 5000 3000 1000 "Mixed (default)"
      demo_cars demo_store half_tape
    = Some (Completed race_id results finishers s' g')
    /\ length (TEAMS s') = 2%nat.
Proof.
  destruct (budgets_after_a_race demo_race_id "Rally" 100 1000 5000 3000 1000
              "Mixed (default)" demo_cars demo_store half_tape)
    as (race_id & results & finishers & s' & g' & credits & Hrun & _ & Hlen & _);
    [discriminate|].
  exists race_id, results, finishers, s', g'. auto.
Defined.

(** ** The race record *)

Lemma max_race_id_foldl (races : list RaceRow) :
  forall acc : option Z,
  let m := foldl (fun acc r =>
                    match acc, RACE_ID r with
                    | Some a, Some b => Some (Z.max a b)
                    | None, b => b
                    | a, None => a
                    end) acc races in
  (forall a, acc = Some a -> exists k, m = Some k /\ (a <= k)%Z)
  /\ (forall r i, r ∈ races -> RACE_ID r = Some i ->
      exists k, m = Some k /\ (i <= k)%Z)
  /\ (forall k, m = Some k ->
      acc = Some k \/ exists r, r ∈ races /\ RACE_ID r = Some k).
Proof.
  induction races as [|r races IH]; intros acc; cbn [foldl]; cbv zeta.
  - split; [|split].
    + intros a ->. exists a. split; [reflexivity | lia].
    + intros r i Hr. inversion Hr.
    + intros k ->. left. reflexivity.
  - destruct (RACE_ID r) as [b|] eqn:Hb; destruct acc as [a|].
    + destruct (IH (Some (Z.max a b))) as (Hacc & Hin & Hmax).
      cbv zeta in Hacc, Hin, Hmax.
      destruct (Hacc _ eq_refl) as (k & Hk & Hle).
      split; [|split].
      * intros a' [= <-]. exists k. split; [exact Hk | lia].
      * intros r0 i Hr0 Hi. apply elem_of_cons in Hr0 as [-> | Hr0].
        -- exists k. split; [exact Hk|]. assert (i = b) by congruence. lia.
        -- eapply Hin; eauto.
      * intros k' Hk'. destruct (Hmax k' Hk') as [[= <-] | (r0 & Hr0 & Hi)].
        -- destruct (Z.max_spec a b) as [[_ ->] | [_ ->]].
           ++ right. exists r. split; [apply elem_of_cons; auto | exact Hb].
           ++ left. reflexivity.
        -- right. exists r0. split; [apply elem_of_cons; auto | exact Hi].
    + destruct (IH (Some b)) as (Hacc & Hin & Hmax).
      cbv zeta in Hacc, Hin, Hmax.
      destruct (Hacc _ eq_refl) as (k & Hk & Hle).
      split; [|split].
      * intros a' [=].
      * intros r0 i Hr0 Hi. apply elem_of_cons in Hr0 as [-> | Hr0].
        -- exists k. split; [exact Hk|]. assert (i = b) by congruence. lia.
        -- eapply Hin; eauto.
      * intros k' Hk'. right.
        destruct (Hmax k' Hk') as [[= <-] | (r0 & Hr0 & Hi)].
        -- exists r. split; [apply elem_of_cons; auto | exact Hb].
        -- exists r0. split; [apply elem_of_cons; auto | exact Hi].
    + destruct (IH (Some a)) as (Hacc & Hin & Hmax).
      cbv zeta in Hacc, Hin, Hmax.
      split; [|split].
      * intros a' [= <-]. apply Hacc. reflexivity.
      * intros r0 i Hr0 Hi. apply elem_of_cons in Hr0 as [-> | Hr0].
        -- congruence.
        -- eapply Hin; eauto.
      * intros k' Hk'. destruct (Hmax k' Hk') as [Ha | (r0 & Hr0 & Hi)].
        -- left. exact Ha.
        -- right. exists r0. split; [apply elem_of_cons; auto | exact Hi].
    + destruct (IH None) as (Hacc & Hin & Hmax).
      cbv zeta in Hacc, Hin, Hmax.
      split; [|split].
      * intros a' [=].
      * intros r0 i Hr0 Hi. apply elem_of_cons in Hr0 as [-> | Hr0].
        -- congruence.
        -- eapply Hin; eauto.
      * intros k' Hk'. destruct (Hmax k' Hk') as [[=] | (r0 & Hr0 & Hi)].
        right. exists r0. split; [apply elem_of_cons; auto | exact Hi].
Qed.

Section RaceRecord.

Variable default_race_id : list RaceRow -> option Z.

(** X8.  [create_race] appends one race row and touches nothing else;
    the identifier it returns is the largest RACE_ID then in the table,
    or 0 when no row has one.  It is the identifier of the new row when
    the schema gave the new row one above all the others; when an older
    row has a larger one, the identifier returned is not the new row's. *)
Theorem create_race_returns_largest_id (race_name : string)
    (d fee p1 p2 p3 : Q) (s : Store) :
  let created := create_race default_race_id race_name d fee p1 p2 p3 s in
  let race_id := fst created in
  let s' := snd created in
  (TEAMS s' = TEAMS s /\ TRANSACTIONS s' = TRANSACTIONS s
   /\ RACE_RESULTS s' = RACE_RESULTS s
   /\ RACES s'
      = RACES s ++ [{| RACE_ID := default_race_id (RACES s);
                       RACE_NAME := race_name; DISTANCE_KM := d;
                       ENTRY_FEE := fee; PRIZE_FIRST := p1;
                       PRIZE_SECOND := p2; PRIZE_THIRD := p3 |}])
  /\ (forall r i, r ∈ RACES s' -> RACE_ID r = Some i -> (i <= race_id)%Z)
  /\ ((exists r, r ∈ RACES s' /\ RACE_ID r = Some race_id)
      \/ (race_id = 0%Z /\ forall r, r ∈ RACES s' -> RACE_ID r = None))
  /\ (forall n, default_race_id (RACES s) = Some n ->
      (forall r i, r ∈ RACES s -> RACE_ID r = Some i -> (i < n)%Z) ->
      race_id = n)
  /\ (forall n r i, default_race_id (RACES s) = Some n ->
      r ∈ RACES s -> RACE_ID r = Some i -> (n < i)%Z ->
      race_id <> n).
Proof.
  intros created race_id s'. subst created race_id s'.
  cbn [create_race fst snd TEAMS TRANSACTIONS RACES RACE_RESULTS].
  set (races := RACES s ++ _).
  destruct (max_race_id_foldl races None) as (_ & Hin & Hmax).
  cbv zeta in Hin, Hmax. fold (max_race_id races) in Hin, Hmax.
  split; [auto|]. split; [|split; [|split]].
  - intros r i Hr Hi. destruct (Hin r i Hr Hi) as (k & -> & Hle). exact Hle.
  - destruct (max_race_id races) as [k|] eqn:Hk.
    + left. destruct (Hmax k eq_refl) as [? | H]; [discriminate | exact H].
    + right. split; [reflexivity|]. intros r Hr.
      destruct (RACE_ID r) as [i|] eqn:Hi; [|reflexivity].
      destruct (Hin r i Hr Hi) as (k & ? & _). discriminate.
  - intros n Hn Hbelow.
    assert (Hnew : {| RACE_ID := default_race_id (RACES s);
                      RACE_NAME := race_name; DISTANCE_KM := d;
                      ENTRY_FEE := fee; PRIZE_FIRST := p1;
                      PRIZE_SECOND := p2; PRIZE_THIRD := p3 |} ∈ races).
    { subst races. apply elem_of_app. right. apply elem_of_cons. auto. }
    destruct (Hin _ n Hnew Hn) as (k & Hk & Hle). rewrite Hk. cbn.
    destruct (Hmax k Hk) as [? | (r & Hr & Hi)]; [discriminate|].
    subst races. apply elem_of_app in Hr as [Hr | Hr].
    + pose proof (Hbelow r k Hr Hi). lia.
    + apply list_elem_of_singleton in Hr. subst r. cbn in Hi. congruence.
  - intros n r i Hn Hr Hi Hlt.
    assert (Hr' : r ∈ races) by (subst races; apply elem_of_app; auto).
    destruct (Hin r i Hr' Hi) as (k & Hk & Hle). rewrite Hk. cbn. lia.
Qed.

(** X9.  A completed race adds one OPS.RACES row with the distance, fee
    and prizes of the form, named "Rally" when the race name is empty;
    the reasons of its entry-fee transactions carry the race name as it
    was typed, so for an empty name they read "Entry fee for " while the
    race is stored as "Rally". *)
Theorem race_row_of_a_completed_race (race_name : string)
    (d fee p1 p2 p3 : Q) (preset : string) (cars : list Car) (s : Store)
    (g : Rng) :
  cars <> [] ->
  exists race_id results finishers s' g' debits credits,
    start_race default_race_id race_name d fee p1 p2 p3 preset cars s g
    = Some (Completed race_id results finishers s' g')
    /\ RACES s'
       = RACES s ++ [{| RACE_ID := default_race_id (RACES s);
                        RACE_NAME := if decide (race_name = "")
                                     then "Rally" else race_name;
                        DISTANCE_KM := d; ENTRY_FEE := fee;
                        PRIZE_FIRST := p1; PRIZE_SECOND := p2;
                        PRIZE_THIRD := p3 |}]
    /\ TRANSACTIONS s' = TRANSACTIONS s ++ debits ++ credits
    /\ length debits = length (participating_team_ids_of cars)
    /\ Forall (fun x => tx_REASON x = ("Entry fee for " ++ race_name)%string)
         debits
    /\ Forall (fun x => exists rank : nat,
                 tx_REASON x
                 = ("Prize for position " ++ pretty rank ++ " in "
                    ++ race_name)%string)
         credits.
Proof.
  intros Hne.
  destruct (start_race_runs default_race_id race_name d fee p1 p2 p3 preset
              cars s g Hne)
    as (results0 & g1 & results1 & g2 & _ & _ & _ & _ & _ & _ & _ & Hrun).
  cbv zeta in Hrun.
  eexists _, _, _, _, _, _, _. split; [exact Hrun|].
  match goal with
  | |- context [settled_store _ ?txs ?rows] =>
      destruct (settled_store_fields default_race_id
                  (if String.eqb race_name "" then "Rally" else race_name)
                  d fee p1 p2 p3 s txs rows) as (Htx & _ & Hraces & _)
  end.
  cbv zeta in Htx, Hraces. split.
  { rewrite Hraces. do 3 f_equal.
    destruct (String.eqb_spec race_name "");
      [rewrite decide_True | rewrite decide_False]; auto. }
  split; [exact Htx|]. split; [apply length_map|]. split.
  - apply Forall_map, Forall_forall. reflexivity.
  - generalize 1%nat. generalize [p1; p2; p3].
    generalize (map (team_of (final_results results1)) (final_finishers results1)).
    intros teams prizes. revert teams.
    induction prizes as [|a prizes IH]; intros teams rank; [constructor|].
    destruct teams as [|t teams]; [constructor|].
    cbn [prize_credits]. apply Forall_app. split; [|apply IH].
    destruct (QMicromega.Qlt_bool 0 a); repeat constructor.
    exists rank. reflexivity.
Qed.

End RaceRecord.

Lemma create_race_returns_largest_id_witness :
  fst (create_race (fun _ => Some 3%Z) "New" 100 0 0 0 0 stale_store) <> 3%Z
  /\ fst (create_race demo_race_id "New" 100 0 0 0 0 demo_store) = 1%Z.
Proof.
  split.
  - eapply (create_race_returns_largest_id (fun _ => Some 3%Z) "New" 100 0 0
              0 0 stale_store);
      [reflexivity | apply elem_of_cons; left; reflexivity | reflexivity | lia].
  - apply (create_race_returns_largest_id demo_race_id "New" 100 0 0 0 0
             demo_store); [reflexivity|].
    intros r i Hr. inversion Hr.
Defined.

Lemma race_row_of_a_completed_race_witness :
  exists race_id results finishers s' g' debits credits,
    start_race demo_race_id "" 100 1000 5000 3000 1000 "Mixed (default)"
      demo_cars demo_store half_tape
    = Some (Completed race_id results finishers s' g')
    /\ map RACE_NAME (RACES s') = ["Rally"]
    /\ TRANSACTIONS s' = TRANSACTIONS demo_store ++ debits ++ credits
    /\ Forall (fun x => tx_REASON x = "Entry fee for ") debits.
Proof.
  destruct (race_row_of_a_completed_race demo_race_id "" 100 1000 5000 3000
              1000 "Mixed (default)" demo_cars demo_store half_tape)
    as (race_id & results & finishers & s' & g' & debits & credits
        & Hrun & Hraces & Htx & _ & Hreasons & _); [discriminate|].
  exists race_id, results, finishers, s', g', debits, credits.
  split; [exact Hrun|]. split; [rewrite Hraces; reflexivity|].
  split; [exact Htx | exact Hreasons].
Defined.

(** ** Connection settings *)

Lemma falsy_spec (v : string) : falsy v = true <-> v = "".
Proof. unfold falsy. destruct (String.eqb_spec v ""); split; congruence. Qed.

Lemma empty_credentials_nil (cfg : list (string * string)) :
  empty_credentials cfg = []
  <-> forall k v, (k, v) ∈ cfg ->
      k ∈ ["account"; "user"; "password"] -> v <> "".
Proof.
  unfold empty_credentials. induction cfg as [|[k v] cfg IH].
  - split; [intros _ k v H; inversion H | reflexivity].
  - cbn [List.filter fst snd].
    destruct (existsb (String.eqb k) ["account"; "user"; "password"]
              && falsy v) eqn:E.
    + split; [discriminate|]. intros H. exfalso.
      apply andb_true_iff in E as [Ek Ev]. apply falsy_spec in Ev.
      apply (H k v); [apply elem_of_cons; auto | | exact Ev].
      apply existsb_exists in Ek as (k' & Hin & Heq).
      apply String.eqb_eq in Heq. subst k'. apply list_elem_of_In. exact Hin.
    + rewrite IH. split.
      * intros H k' v' Hin Hk'. apply elem_of_cons in Hin as [[= -> ->] | Hin].
        -- intros ->. apply andb_false_iff in E as [E | E].
           ++ apply not_true_iff_false in E. apply E, existsb_exists.
              exists k. split; [apply list_elem_of_In; exact Hk'|].
              apply String.eqb_refl.
           ++ discriminate.
        -- eapply H; eauto.
      * intros H k' v' Hin. apply H. apply elem_of_cons. auto.
Qed.

(** X10.  With a "snowflake" section in the secrets, only the keys
    present are checked: the settings are accepted exactly when none of
    account, user and password is present with an empty value.  A key
    that is absent is not reported, so an empty section is accepted and
    [connect] is then called with account, user and password all None;
    the environment is not consulted. *)
Theorem absent_secret_is_not_reported (section : list (string * string))
    (env : gmap string string) :
  (_get_snowflake_config (snowflake section) env = inr section
   <-> forall k v, (k, v) ∈ section ->
       k ∈ ["account"; "user"; "password"] -> v <> "")
  /\ (_get_snowflake_config (snowflake section) env <> inr section ->
      _get_snowflake_config (snowflake section) env
      = inl (ValueError
               ("Missing Snowflake credentials: "
                ++ String.concat ", " (empty_credentials section))))
  /\ get_connection (snowflake []) env
     = inr {| account := None; user := None; password := None;
              warehouse := None; role := None; database := None |}
  /\ (dict_get section "password" = None ->
      (forall k v, (k, v) ∈ section -> v <> "") ->
      exists args, get_connection (snowflake section) env = inr args
                   /\ password args = None).
Proof.
  assert (Hcases : _get_snowflake_config (snowflake section) env
                   = match empty_credentials section with
                     | [] => inr section
                     | _ => inl (ValueError
                                   ("Missing Snowflake credentials: "
                                    ++ String.concat ", "
                                         (empty_credentials section)))
                     end) by reflexivity.
  split; [|split; [|split]].
  - rewrite <- empty_credentials_nil, Hcases.
    destruct (empty_credentials section); split; congruence.
  - rewrite Hcases. destruct (empty_credentials section); congruence.
  - reflexivity.
  - intros Hpw Hall.
    assert (Hok : _get_snowflake_config (snowflake section) env = inr section).
    { rewrite Hcases, (proj2 (empty_credentials_nil section));
        [reflexivity|].
      intros k v Hin _. eapply Hall; eauto. }
    unfold get_connection. rewrite Hok. eexists. split; [reflexivity|].
    exact Hpw.
Qed.

Lemma absent_secret_is_not_reported_witness :
  exists args,
    get_connection (snowflake [("account", "acme"); ("user", "rally")]) ∅
    = inr args
    /\ password args = None.
Proof.
  apply (absent_secret_is_not_reported
           [("account", "acme"); ("user", "rally")] ∅).
  - reflexivity.
  - intros k v Hin.
    repeat (apply elem_of_cons in Hin as [[= -> ->] | Hin]; [discriminate|]).
    inversion Hin.
Defined.

(** X11.  When the guard finds no "snowflake" section (Streamlit is
    not importable, or the secrets are readable and have no such key)
    the settings come from the environment: the connection is attempted
    exactly when SNOWFLAKE_ACCOUNT, SNOWFLAKE_USER and SNOWFLAKE_PASSWORD
    are all set and non-empty, and otherwise the ValueError names the
    missing ones in that order.  Warehouse and role are passed only when
    set and non-empty; the database is "BOOTCAMP_RALLY" when
    SNOWFLAKE_DATABASE is unset, but None when it is set to the empty
    string.  When the guard itself raises, as the membership test does
    without a secrets file, that exception is the outcome and the
    environment is not read, however complete it is. *)
Theorem settings_from_environment (env : gmap string string) :
  let acc := getenv env "SNOWFLAKE_ACCOUNT" "" in
  let usr := getenv env "SNOWFLAKE_USER" "" in
  let pwd := getenv env "SNOWFLAKE_PASSWORD" "" in
  get_connection no_section env
  = match empty_credentials
            [("account", acc); ("user", usr); ("password", pwd)] with
    | [] =>
        inr {| account := Some acc; user := Some usr; password := Some pwd;
               warehouse := or_None (env !! "SNOWFLAKE_WAREHOUSE");
               role := or_None (env !! "SNOWFLAKE_ROLE");
               database :=
                 match env !! "SNOWFLAKE_DATABASE" with
                 | None => Some "BOOTCAMP_RALLY"
                 | Some v => or_None (Some v)
                 end |}
    | missing =>
        inl (ValueError
               ("Missing Snowflake credentials: "
                ++ String.concat ", " missing))
    end
  /\ (empty_credentials [("account", acc); ("user", usr); ("password", pwd)]
      = []
      <-> acc <> "" /\ usr <> "" /\ pwd <> "")
  /\ (env !! "SNOWFLAKE_ACCOUNT" = None -> env !! "SNOWFLAKE_USER" = None ->
      env !! "SNOWFLAKE_PASSWORD" = None ->
      get_connection no_section env
      = inl (ValueError
               "Missing Snowflake credentials: account, user, password"))
  /\ (forall e : Exn,
        _get_snowflake_config (unreadable e) env = inl e
        /\ get_connection (unreadable e) env = inl e).
Proof.
  intros acc usr pwd. split; [|split; [|split]].
  - unfold get_connection, _get_snowflake_config.
    fold acc usr pwd.
    set (wh := getenv env "SNOWFLAKE_WAREHOUSE" "").
    set (rl := getenv env "SNOWFLAKE_ROLE" "").
    set (db := getenv env "SNOWFLAKE_DATABASE" "BOOTCAMP_RALLY").
    assert (Hwh : or_None (Some wh) = or_None (env !! "SNOWFLAKE_WAREHOUSE")).
    { subst wh. unfold getenv.
      destruct (env !! "SNOWFLAKE_WAREHOUSE"); reflexivity. }
    assert (Hrl : or_None (Some rl) = or_None (env !! "SNOWFLAKE_ROLE")).
    { subst rl. unfold getenv.
      destruct (env !! "SNOWFLAKE_ROLE"); reflexivity. }
    assert (Hdb : or_None (Some db)
                  = match env !! "SNOWFLAKE_DATABASE" with
                    | None => Some "BOOTCAMP_RALLY"
                    | Some v => or_None (Some v)
                    end).
    { subst db. unfold getenv.
      destruct (env !! "SNOWFLAKE_DATABASE"); reflexivity. }
    rewrite <- Hwh, <- Hrl, <- Hdb. clear Hwh Hrl Hdb.
    clearbody acc usr pwd wh rl db. clear env.
    unfold empty_credentials.
    destruct acc as [|a1 a2], usr as [|u1 u2], pwd as [|w1 w2];
      cbn [List.filter fst snd existsb String.eqb falsy andb orb map
           String.concat Ascii.eqb Bool.eqb];
      try reflexivity.
  - clearbody acc usr pwd. clear env. unfold empty_credentials.
    destruct acc as [|a1 a2], usr as [|u1 u2], pwd as [|w1 w2];
      cbn [List.filter fst snd existsb String.eqb falsy andb orb map
           Ascii.eqb Bool.eqb];
      (split; [intros H; try discriminate H; repeat split; discriminate
              | intros (Ha & Hu & Hp); congruence]).
  - intros Ha Hu Hp. unfold get_connection, _get_snowflake_config, getenv.
    rewrite Ha, Hu, Hp. reflexivity.
  - intros e. split; reflexivity.
Qed.

Lemma settings_from_environment_witness :
  get_connection no_section (<["SNOWFLAKE_USER" := "rally"]> ∅)
  = inl (ValueError "Missing Snowflake credentials: account, password")
  /\ get_connection no_section ∅
     = inl (ValueError
              "Missing Snowflake credentials: account, user, password")
  /\ get_connection (unreadable (FileNotFoundError "secrets.toml"))
       (<["SNOWFLAKE_ACCOUNT" := "acme"]>
          (<["SNOWFLAKE_USER" := "rally"]>
             (<["SNOWFLAKE_PASSWORD" := "s3cret"]> ∅)))
     = inl (FileNotFoundError "secrets.toml").
Proof.
  split; [vm_compute; reflexivity|]. split.
  - apply (settings_from_environment ∅); vm_compute; reflexivity.
  - apply (settings_from_environment
             (<["SNOWFLAKE_ACCOUNT" := "acme"]>
                (<["SNOWFLAKE_USER" := "rally"]>
                   (<["SNOWFLAKE_PASSWORD" := "s3cret"]> ∅)))).
Defined.

(** ** Schema bootstrap *)

Lemma semicolon_not_space : isspace semicolon = false.
Proof. reflexivity. Qed.

Lemma lstrip_suffix (s : Text) :
  exists ws, s = ws ++ lstrip s /\ forallb isspace ws = true.
Proof.
  induction s as [|c s (ws & Hs & Hws)]; [exists []; auto|].
  cbn [lstrip]. destruct (isspace c) eqn:E.
  - exists (c :: ws). split; [cbn [app]; f_equal; exact Hs|].
    cbn [forallb]. rewrite E. exact Hws.
  - exists []. auto.
Qed.

Lemma rstrip_prefix (s : Text) :
  exists ws, s = rstrip s ++ ws /\ forallb isspace ws = true.
Proof.
  induction s as [|c s (ws & Hs & Hws)]; [exists []; auto|].
  cbn [rstrip]. destruct (rstrip s) as [|r rs] eqn:Er.
  - destruct (isspace c) eqn:E.
    + exists (c :: ws). cbn [app] in *. split; [f_equal; exact Hs|].
      cbn [forallb]. rewrite E. exact Hws.
    + exists ws. cbn [app] in *. split; [f_equal; exact Hs | exact Hws].
  - exists ws. split; [|exact Hws]. cbn [app] in *. f_equal. exact Hs.
Qed.

Lemma strip_between (s : Text) :
  exists before after,
    s = before ++ strip s ++ after
    /\ forallb isspace before = true /\ forallb isspace after = true.
Proof.
  destruct (lstrip_suffix s) as (before & Hs & Hb).
  destruct (rstrip_prefix (lstrip s)) as (after & Hl & Ha).
  exists before, after. unfold strip. rewrite <- Hl. auto.
Qed.

Lemma visible_app (a b : Text) : visible (a ++ b) = visible a ++ visible b.
Proof. apply List.filter_app. Qed.

Lemma visible_spaces (ws : Text) : forallb isspace ws = true -> visible ws = [].
Proof.
  induction ws as [|c ws IH]; [reflexivity|]. cbn.
  intros [Hc Hws]%andb_true_iff. unfold is_visible. rewrite Hc. cbn.
  apply IH, Hws.
Qed.

Lemma visible_strip (s : Text) : visible (strip s) = visible s.
Proof.
  destruct (strip_between s) as (before & after & Hs & Hb & Ha).
  rewrite Hs at 2. rewrite !visible_app, (visible_spaces _ Hb),
    (visible_spaces _ Ha), app_nil_r. reflexivity.
Qed.

Lemma strip_elem (s : Text) (c : N) : c ∈ strip s -> c ∈ s.
Proof.
  destruct (strip_between s) as (before & after & Hs & _). intros Hc.
  rewrite Hs, !elem_of_app. auto.
Qed.

Lemma lstrip_head (s : Text) (c : N) :
  head (lstrip s) = Some c -> isspace c = false.
Proof.
  induction s as [|d s IH]; [discriminate|]. cbn [lstrip].
  destruct (isspace d) eqn:E; [exact IH|]. cbn. congruence.
Qed.

Lemma rstrip_visible_head (c : N) (s : Text) :
  isspace c = false -> rstrip (c :: s) = c :: rstrip s.
Proof. intros E. cbn [rstrip]. rewrite E. destruct (rstrip s); reflexivity. Qed.

Lemma lstrip_visible_head (c : N) (s : Text) :
  isspace c = false -> lstrip (c :: s) = c :: s.
Proof. intros E. cbn [lstrip]. rewrite E. reflexivity. Qed.

Lemma strip_head (s : Text) (c : N) :
  head (strip s) = Some c -> isspace c = false.
Proof.
  unfold strip. pose proof (lstrip_head s) as Hl.
  destruct (lstrip s) as [|d t]; [discriminate|].
  rewrite rstrip_visible_head by (apply Hl; reflexivity).
  cbn. intros [= <-]. apply Hl. reflexivity.
Qed.

Lemma rstrip_last (s : Text) (c : N) :
  last (rstrip s) = Some c -> isspace c = false.
Proof.
  induction s as [|d s IH]; [discriminate|]. cbn [rstrip].
  destruct (rstrip s) as [|r rs].
  - destruct (isspace d) eqn:E; [discriminate|]. cbn. congruence.
  - exact IH.
Qed.

Lemma strip_last (s : Text) (c : N) :
  last (strip s) = Some c -> isspace c = false.
Proof. apply rstrip_last. Qed.

Lemma rstrip_fixed (s : Text) (c : N) :
  last s = Some c -> isspace c = false -> rstrip s = s.
Proof.
  intros Hlast Hc. induction s as [|d s IH]; [reflexivity|].
  cbn [rstrip]. destruct s as [|e s].
  - cbn in Hlast. injection Hlast as ->. cbn. rewrite Hc. reflexivity.
  - rewrite IH by exact Hlast. reflexivity.
Qed.

Lemma strip_fixed (s : Text) (c c' : N) :
  head s = Some c -> isspace c = false ->
  last s = Some c' -> isspace c' = false -> strip s = s.
Proof.
  intros Hh Hc Hl Hc'. unfold strip. destruct s as [|d s]; [discriminate|].
  cbn in Hh. injection Hh as ->. rewrite lstrip_visible_head by exact Hc.
  eapply rstrip_fixed; eauto.
Qed.

Lemma truthy_ends (s : Text) :
  truthy s = true -> exists c c', head s = Some c /\ last s = Some c'.
Proof.
  destruct s as [|c s]; [discriminate|]. intros _. exists c.
  destruct (last (c :: s)) as [c'|] eqn:E; [eauto|].
  apply last_None in E. discriminate.
Qed.

Lemma split_nonempty (sep : N) (s : Text) : split sep s <> [].
Proof.
  destruct s as [|c s]; [discriminate|]. cbn [split].
  destruct (c =? sep)%N; [discriminate|]. destruct (split sep s); discriminate.
Qed.

Lemma split_sep (sep : N) (a b : Text) :
  split sep (a ++ sep :: b) = split sep a ++ split sep b.
Proof.
  induction a as [|c a IH]; cbn [app split].
  - rewrite N.eqb_refl. reflexivity.
  - destruct (c =? sep)%N; rewrite IH; [reflexivity|].
    pose proof (split_nonempty sep a). destruct (split sep a); [done|].
    reflexivity.
Qed.

Lemma split_no_sep (sep : N) (s : Text) :
  Forall (fun piece => sep ∉ piece) (split sep s).
Proof.
  induction s as [|c s IH]; cbn [split].
  - constructor; [|constructor]. intros H. inversion H.
  - destruct (N.eqb_spec c sep) as [->|Hne].
    + constructor; [|exact IH]. intros H. inversion H.
    + pose proof (split_nonempty sep s).
      destruct (split sep s) as [|p ps]; [done|]. inversion IH; subst.
      constructor; [|assumption].
      intros [->|H']%elem_of_cons; [congruence | contradiction].
Qed.

Lemma split_whole (sep : N) (s : Text) : sep ∉ s -> split sep s = [s].
Proof.
  induction s as [|c s IH]; [reflexivity|]. intros Hs. cbn [split].
  destruct (N.eqb_spec c sep) as [->|Hne].
  - exfalso. apply Hs, elem_of_cons. auto.
  - rewrite IH; [reflexivity|]. intros H. apply Hs, elem_of_cons. auto.
Qed.

Lemma split_parts (sep : N) (s : Text) :
  match split sep s with
  | piece :: pieces =>
      (exists after, s = piece ++ after)
      /\ Forall (fun p => part_of p s) pieces
  | [] => False
  end.
Proof.
  induction s as [|c s IH]; cbn [split].
  - split; [exists []; reflexivity | constructor].
  - destruct (N.eqb_spec c sep) as [->|Hne].
    + split; [exists (sep :: s); reflexivity|].
      destruct (split sep s) as [|p ps]; [contradiction|].
      destruct IH as [(after & Hs) Hps]. constructor.
      * exists [sep], after. cbn. congruence.
      * eapply Forall_impl; [exact Hps|]. intros q (b & a & Hq).
        exists (sep :: b), a. cbn. congruence.
    + destruct (split sep s) as [|p ps]; [contradiction|].
      destruct IH as [(after & Hs) Hps]. split.
      * exists after. cbn. congruence.
      * eapply Forall_impl; [exact Hps|]. intros q (b & a & Hq).
        exists (c :: b), a. cbn. congruence.
Qed.

Lemma split_part_of (sep : N) (s : Text) :
  Forall (fun p => part_of p s) (split sep s).
Proof.
  pose proof (split_parts sep s) as H.
  destruct (split sep s) as [|p ps]; [contradiction|].
  destruct H as [(after & Hs) Hps]. constructor; [|exact Hps].
  exists [], after. exact Hs.
Qed.

Lemma part_of_trans (a b c : Text) : part_of a b -> part_of b c -> part_of a c.
Proof.
  intros (b1 & a1 & ->) (b2 & a2 & ->).
  exists (b2 ++ b1), (a1 ++ a2). rewrite <- !app_assoc. reflexivity.
Qed.

Lemma strip_part_of (s : Text) : part_of (strip s) s.
Proof.
  destruct (strip_between s) as (b & a & Hs & _). exists b, a. exact Hs.
Qed.

Lemma visible_split (s : Text) :
  visible (concat (split semicolon s)) = visible s.
Proof.
  induction s as [|c s IH]; [reflexivity|]. cbn [split].
  destruct (N.eqb_spec c semicolon) as [->|Hne].
  - cbn [concat app]. rewrite IH. reflexivity.
  - pose proof (split_nonempty semicolon s).
    destruct (split semicolon s) as [|p ps]; [done|].
    cbn [concat app] in *. unfold visible in *. cbn [List.filter].
    rewrite IH. reflexivity.
Qed.

Lemma visible_kept (pieces : list Text) :
  visible
    (concat (map strip (List.filter (fun s => truthy (strip s)) pieces)))
  = visible (concat pieces).
Proof.
  induction pieces as [|p ps IH]; [reflexivity|]. cbn [List.filter concat].
  rewrite visible_app, <- IH, <- (visible_strip p).
  destruct (strip p) eqn:E; cbn [truthy]; [reflexivity|].
  cbn [map concat]. rewrite visible_app, E. reflexivity.
Qed.

Lemma statements_visible (ddl : Text) :
  visible (concat (statements ddl)) = visible ddl.
Proof. unfold statements. rewrite visible_kept. apply visible_split. Qed.

Lemma statements_elem (ddl stmt : Text) :
  stmt ∈ statements ddl ->
  exists piece, piece ∈ split semicolon ddl /\ stmt = strip piece
                /\ truthy stmt = true.
Proof.
  unfold statements. intros H. apply list_elem_of_In, in_map_iff in H.
  destruct H as (piece & <- & Hin). apply filter_In in Hin as [Hin Ht].
  exists piece. split; [apply list_elem_of_In; exact Hin | auto].
Qed.

Lemma statements_stripped (ddl stmt : Text) :
  stmt ∈ statements ddl ->
  (semicolon ∉ stmt)
  /\ (exists c, head stmt = Some c /\ isspace c = false)
  /\ (exists c, last stmt = Some c /\ isspace c = false)
  /\ part_of stmt ddl.
Proof.
  intros (piece & Hin & -> & Ht)%statements_elem.
  destruct (truthy_ends _ Ht) as (c & c' & Hh & Hl).
  split; [|split; [|split]].
  - intros H%strip_elem. revert H.
    eapply (proj1 (Forall_forall _ _) (split_no_sep semicolon ddl)); eauto.
  - exists c. split; [exact Hh | eapply strip_head; eauto].
  - exists c'. split; [exact Hl | eapply strip_last; eauto].
  - eapply part_of_trans; [apply strip_part_of|].
    eapply (proj1 (Forall_forall _ _) (split_part_of semicolon ddl)); eauto.
Qed.

Lemma statements_sep (a b : Text) :
  statements (a ++ semicolon :: b) = statements a ++ statements b.
Proof.
  unfold statements. rewrite split_sep, List.filter_app, map_app.
  reflexivity.
Qed.

Lemma statements_one (stmt : Text) (c c' : N) :
  semicolon ∉ stmt ->
  head stmt = Some c -> isspace c = false ->
  last stmt = Some c' -> isspace c' = false ->
  statements stmt = [stmt].
Proof.
  intros Hsep Hh Hc Hl Hc'. unfold statements.
  rewrite split_whole by exact Hsep. cbn [List.filter].
  pose proof (strip_fixed stmt c c' Hh Hc Hl Hc') as Hfix. rewrite Hfix.
  destruct stmt; [discriminate|]. cbn [truthy map]. rewrite Hfix.
  reflexivity.
Qed.

Lemma statements_join (stmts : list Text) :
  Forall (fun stmt =>
            (semicolon ∉ stmt)
            /\ (exists c, head stmt = Some c /\ isspace c = false)
            /\ (exists c, last stmt = Some c /\ isspace c = false)) stmts ->
  statements (join semicolon stmts) = stmts.
Proof.
  induction 1 as [|stmt rest (Hsep & (c & Hh & Hc) & (c' & Hl & Hc')) Hrest IH];
    [reflexivity|].
  cbn [join]. destruct rest as [|next rest].
  - eapply statements_one; eauto.
  - rewrite statements_sep, IH, (statements_one stmt c c') by assumption.
    reflexivity.
Qed.

Lemma statements_normal (ddl : Text) :
  statements (join semicolon (statements ddl)) = statements ddl.
Proof.
  apply statements_join, Forall_forall. intros stmt Hin.
  destruct (statements_stripped ddl stmt Hin) as (H1 & H2 & H3 & _). auto.
Qed.

Lemma statements_none (ddl : Text) :
  statements ddl = [] <-> visible ddl = [].
Proof.
  split.
  - intros H. rewrite <- statements_visible, H. reflexivity.
  - intros H. destruct (statements ddl) as [|stmt rest] eqn:E; [reflexivity|].
    exfalso.
    assert (Hin : stmt ∈ statements ddl) by (rewrite E; apply elem_of_cons; auto).
    destruct (statements_stripped ddl stmt Hin) as (Hsep & (c & Hh & Hc) & _).
    rewrite <- statements_visible, E in H.
    destruct stmt as [|d stmt]; [discriminate|]. cbn in Hh. injection Hh as ->.
    cbn in H. unfold is_visible in H. rewrite Hc in H.
    destruct (N.eqb_spec c semicolon) as [->|Hne]; [|discriminate].
    apply Hsep, elem_of_cons. auto.
Qed.


Section CursorProperties.

Variable Conn : Type.
Variable cur_execute : Text -> Conn -> Conn * option Exn.



End CursorProperties.


Section ScriptParts.

Variable Conn : Type.
Variable cur_execute : Text -> Conn -> Conn * option Exn.

Lemma execute_each_app (first second : list Text) (conn : Conn) :
  execute_each cur_execute (first ++ second) conn
  = match execute_each cur_execute first conn with
    | (conn', None) => execute_each cur_execute second conn'
    | raised => raised
    end.
Proof.
  revert conn. induction first as [|stmt first IH]; intros conn;
    [reflexivity|].
  cbn [app execute_each]. destruct (cur_execute stmt conn) as [conn' [e|]];
    [reflexivity | apply IH].
Qed.

(** X13.  A semicolon cuts the bootstrap script in two scripts that can
    be run one after the other: running the whole script is running
    the part before the semicolon and, unless that raised, the part
    after it on the connection the first part left.  A statement that
    raises ends the run with the earlier statements already executed.
    Rewriting the script as its statements joined by semicolons
    changes nothing, and a script without a character other than
    whitespace and semicolons executes nothing and raises nothing. *)
Theorem bootstrap_script_in_two_parts (bootstrap_path : string)
    (first second ddl : Text) (conn : Conn) :
  init_database cur_execute bootstrap_path
    (Some (first ++ semicolon :: second)) conn
  = match init_database cur_execute bootstrap_path (Some first) conn with
    | (conn', None) =>
        init_database cur_execute bootstrap_path (Some second) conn'
    | raised => raised
    end
  /\ init_database cur_execute bootstrap_path
       (Some (join semicolon (statements ddl))) conn
     = init_database cur_execute bootstrap_path (Some ddl) conn
  /\ (visible ddl = [] ->
      init_database cur_execute bootstrap_path (Some ddl) conn
      = (conn, None)).
Proof.
  split; [|split].
  - cbn [init_database]. rewrite statements_sep. apply execute_each_app.
  - cbn [init_database]. rewrite statements_normal. reflexivity.
  - intros H. cbn [init_database].
    rewrite (proj2 (statements_none ddl) H). reflexivity.
Qed.

End ScriptParts.
